(** * Product service: gateway proxy and resource engine

    A shallow embedding of the two programs of the repository:

    - the product router, an Express router over the Mongoose model of
      [models/product.ts], and
    - the gateway, whose handler [proxyRequest] forwards every request
      under [/api] to the backend.

    Conventions of the embedding.

    - A request body is the JSON object produced by [express.json()]: a
      finite map from property names to JSON values.  A property that is
      absent reads as [undefined].
    - A JavaScript number is a binary64: [NaN], one of the two infinities,
      or a finite value, held as the rational it denotes.  A JSON body can
      carry an infinity (the literal [1e999] is read as one) and no [NaN].
      Arithmetic rounds to the nearest binary64, ties to even, and
      overflows to an infinity ([round64]).  The two zeros are not told
      apart: no handler divides by zero or prints the sign of a number.
      An integer is held as such where the code counts with it (a page, a
      limit, a number of documents); it is the binary64 that JavaScript
      holds up to [2^53].  The store is taken to add as JavaScript does.
    - A JavaScript string is a [string]: a sequence of code units, here the
      code units U+0000..U+00FF.
    - A route handler is a program over the store: a tree of store requests,
      each of which the store executes atomically.  A handler that awaits
      the store can be interleaved with other handlers between two
      requests, never inside one.
    - Values chosen by the driver (a fresh [_id], the current time) are
      inputs of the request that needs them.
    - What belongs to the platform and not to the repository is a
      parameter of the development: the driver's test and cast of an
      identifier, the text of a number, the regular-expression engine, the
      order in which the store returns documents whose sort keys are
      equal, and the accumulators [$sum] and [$avg] of the store.  The
      theorems hold for every such platform, and assume of it only what
      their statements say. *)

From Stdlib Require Import ZArith QArith Qcanon Qround Qpower String Ascii List Bool Lia Lqa.
From Stdlib Require Import Sorting.Sorted Sorting.Permutation.
From stdpp Require Import base option list sorting gmap strings numbers pretty.

Local Open Scope string_scope.
Local Open Scope Z_scope.

Set Warnings "-register-all".

(** ** JavaScript values and built-ins *)

Module JS.

(** *** Numbers *)

(** A binary64: [NaN], an infinity, or a finite value. *)
Inductive xnum : Type :=
| XNaN
| XNegInf
| XFin (q : Qc)
| XPosInf.

(** The rational and the number that an integer denotes. *)
Definition num (z : Z) : Qc := Q2Qc (inject_Z z).

Definition int (z : Z) : xnum := XFin (num z).

(** [x < y], [x <= y] and [x === y]: false as soon as one side is [NaN]. *)
Definition num_lt (x y : xnum) : bool :=
  match x, y with
  | XFin a, XFin b => bool_decide (a < b)%Qc
  | XNegInf, XFin _ | XNegInf, XPosInf | XFin _, XPosInf => true
  | _, _ => false
  end.

Definition num_le (x y : xnum) : bool :=
  match x, y with
  | XFin a, XFin b => bool_decide (a ≤ b)%Qc
  | XNegInf, XNegInf | XNegInf, XFin _ | XNegInf, XPosInf
  | XFin _, XPosInf | XPosInf, XPosInf => true
  | _, _ => false
  end.

Definition num_eqb (x y : xnum) : bool :=
  match x, y with
  | XFin a, XFin b => bool_decide (a = b)
  | XNegInf, XNegInf | XPosInf, XPosInf => true
  | _, _ => false
  end.

(** The order of the store on numbers: that of the numbers, with [NaN]
    below every one of them. *)
Definition bson_le (x y : xnum) : bool :=
  match x, y with
  | XNaN, _ => true
  | _, XNaN => false
  | _, _ => num_le x y
  end.

(** The integer nearest to a rational that is not negative, the even one
    of two that are equally near. *)
Definition round_half_even (x : Q) : Z :=
  let f := Qfloor x in
  match Qcompare (x - inject_Z f) (1 # 2) with
  | Lt => f
  | Gt => f + 1
  | Eq => if Z.even f then f else f + 1
  end.

Definition pow2 (k : Z) : Q := Qpower 2 k.

(** The exponent [e] with [2^e <= x < 2^(e+1)], for a positive [x]. *)
Definition Qlog2 (x : Q) : Z :=
  let k := Z.log2 (Qnum x) - Z.log2 (Zpos (Qden x)) in
  if Qle_bool (pow2 k) x then k else k - 1.

(** The binary64 nearest to a positive rational: 53 significant bits, the
    least exponent of a unit in the last place -1074, and an infinity from
    [2^1024] on. *)
Definition round64_pos (x : Q) : xnum :=
  let e := Qlog2 x in
  let qe := Z.max (e - 52) (-1074) in
  let v := (inject_Z (round_half_even (x / pow2 qe)) * pow2 qe)%Q in
  if Qle_bool (pow2 1024) v then XPosInf else XFin (Q2Qc v).

Definition x_neg (x : xnum) : xnum :=
  match x with
  | XNaN => XNaN
  | XNegInf => XPosInf
  | XFin q => XFin (- q)%Qc
  | XPosInf => XNegInf
  end.

(** Rounding to the nearest binary64, ties to even. *)
Definition round64 (q : Qc) : xnum :=
  match (q ?= 0)%Qc with
  | Eq => XFin 0%Qc
  | Gt => round64_pos q
  | Lt => x_neg (round64_pos (- q)%Qc)
  end.

(** [x + y]. *)
Definition x_add (x y : xnum) : xnum :=
  match x, y with
  | XNaN, _ | _, XNaN => XNaN
  | XPosInf, XNegInf | XNegInf, XPosInf => XNaN
  | XPosInf, _ | _, XPosInf => XPosInf
  | XNegInf, _ | _, XNegInf => XNegInf
  | XFin a, XFin b => round64 (a + b)%Qc
  end.

(** [Math.floor]: the floor of a binary64 is a binary64. *)
Definition Math_floor (x : xnum) : xnum :=
  match x with
  | XFin q => int (Qfloor q)
  | _ => x
  end.

(** [Math.ceil]. *)
Definition Math_ceil (x : xnum) : xnum :=
  match x with
  | XFin q => int (Qceiling q)
  | _ => x
  end.

Definition is_integer (x : xnum) : Prop := ∃ z : Z, x = int z.

(** *** Values *)

(** JSON values, plus [undefined] for an absent property. *)
Inductive value : Type :=
| VUndefined
| VNull
| VBool (b : bool)
| VNum (n : xnum)
| VStr (s : string)
| VArr (items : list value)
| VObj (fields : gmap string value).

Inductive jstype : Type :=
| TUndefined | TObject | TBoolean | TNumber | TString.

Definition typeof (v : value) : jstype :=
  match v with
  | VUndefined => TUndefined
  | VNull => TObject
  | VBool _ => TBoolean
  | VNum _ => TNumber
  | VStr _ => TString
  | VArr _ | VObj _ => TObject
  end.

(** [typeof v === "string"], [typeof v === "number"], [v === undefined]. *)
Definition is_string (v : value) : bool :=
  match typeof v with TString => true | _ => false end.

Definition is_number (v : value) : bool :=
  match typeof v with TNumber => true | _ => false end.

Definition is_undefined (v : value) : bool :=
  match v with VUndefined => true | _ => false end.

(** [ToBoolean]. *)
Definition truthy (v : value) : bool :=
  match v with
  | VUndefined | VNull => false
  | VBool b => b
  | VNum XNaN => false
  | VNum n => negb (num_eqb n (XFin 0%Qc))
  | VStr s => negb (String.eqb s "")
  | VArr _ | VObj _ => true
  end.

(** [Number.isNaN]. *)
Definition Number_isNaN (v : value) : bool :=
  match v with
  | VNum XNaN => true
  | _ => false
  end.

(** *** Strings *)

(** [WhiteSpace] and [LineTerminator] code units below U+0100: TAB, LF,
    VT, FF, CR, SP and NBSP. *)
Definition isWhiteSpace (c : ascii) : bool :=
  let n := N_of_ascii c in
  ((9 <=? n) && (n <=? 13) || (n =? 32) || (n =? 160))%N.

Fixpoint trimStart (s : string) : string :=
  match s with
  | EmptyString => EmptyString
  | String c s' => if isWhiteSpace c then trimStart s' else s
  end.

Fixpoint trimEnd (s : string) : string :=
  match s with
  | EmptyString => EmptyString
  | String c s' =>
      match trimEnd s' with
      | EmptyString => if isWhiteSpace c then EmptyString else String c EmptyString
      | t => String c t
      end
  end.

(** [String.prototype.trim]. *)
Definition trim (s : string) : string := trimEnd (trimStart s).

Definition isAngle (c : ascii) : bool :=
  (Ascii.eqb c "<" || Ascii.eqb c ">")%char.

(** [str.replace(/[<>]/g, "")]. *)
Fixpoint stripAngles (s : string) : string :=
  match s with
  | EmptyString => EmptyString
  | String c s' =>
      if isAngle c then stripAngles s' else String c (stripAngles s')
  end.

Fixpoint chars (s : string) : list ascii :=
  match s with
  | EmptyString => []
  | String c s' => c :: chars s'
  end.

Definition first_char (s : string) : option ascii :=
  match s with
  | EmptyString => None
  | String c _ => Some c
  end.

Fixpoint last_char (s : string) : option ascii :=
  match s with
  | EmptyString => None
  | String c EmptyString => Some c
  | String _ s' => last_char s'
  end.

(** No white space at either end. *)
Definition trimmed (s : string) : Prop :=
  (∀ c, first_char s = Some c → isWhiteSpace c = false) ∧
  (∀ c, last_char s = Some c → isWhiteSpace c = false).

Definition no_angles (s : string) : Prop :=
  ∀ c, c ∈ chars s → isAngle c = false.

(** *** [parseInt] and [parseFloat] *)

Definition digit_value (c : ascii) : option Z :=
  let n := Z.of_N (N_of_ascii c) in
  if (48 <=? n) && (n <=? 57) then Some (n - 48) else None.

Definition hex_digit_value (c : ascii) : option Z :=
  let n := Z.of_N (N_of_ascii c) in
  if (48 <=? n) && (n <=? 57) then Some (n - 48)
  else if (65 <=? n) && (n <=? 70) then Some (n - 55)
  else if (97 <=? n) && (n <=? 102) then Some (n - 87)
  else None.

(** The longest prefix of digits in the given radix, read left to right:
    the number of digits, the value read and the rest of the string. *)
Fixpoint read_digits (digit : ascii → option Z) (radix : Z) (acc : Z) (s : string)
  : nat * Z * string :=
  match s with
  | EmptyString => (0%nat, acc, s)
  | String c s' =>
      match digit c with
      | Some d =>
          let '(k, v, rest) := read_digits digit radix (acc * radix + d) s' in
          (S k, v, rest)
      | None => (0%nat, acc, s)
      end
  end.

Definition strip_sign (s : string) : Z * string :=
  match s with
  | String "-" s' => (-1, s')
  | String "+" s' => (1, s')
  | _ => (1, s)
  end.

Definition strip_hex_prefix (s : string) : option string :=
  match s with
  | String "0" (String "x" s') => Some s'
  | String "0" (String "X" s') => Some s'
  | _ => None
  end.

(** [parseInt(s)] with no radix argument; [None] is [NaN].  An absent
    parameter is converted to the text [undefined], which has no digits.
    The result is the integer that the digits denote; JavaScript holds the
    binary64 nearest to it, which is the same number up to [2^53]. *)
Definition parseInt (arg : option string) : option Z :=
  match arg with
  | None => None
  | Some s =>
      let '(sign, s1) := strip_sign (trimStart s) in
      let '(k, v, _) :=
        match strip_hex_prefix s1 with
        | Some s2 => read_digits hex_digit_value 16 0 s2
        | None => read_digits digit_value 10 0 s1
        end in
      match k with
      | O => None
      | S _ => Some (sign * v)
      end
  end.

(** [parseInt(s) || dflt]: [NaN] and [0] are falsy. *)
Definition parseInt_or (arg : option string) (dflt : Z) : Z :=
  match parseInt arg with
  | None => dflt
  | Some n => if n =? 0 then dflt else n
  end.

Definition pow10 (e : Z) : Qc :=
  if 0 <=? e then Q2Qc (inject_Z (10 ^ e))
  else (/ Q2Qc (inject_Z (10 ^ (- e))))%Qc.

Definition starts_with_Infinity (s : string) : bool :=
  String.prefix "Infinity" s.

(** The exponent part, when one is present with at least one digit. *)
Definition read_exponent (s : string) : Z :=
  match s with
  | String c s' =>
      if (Ascii.eqb c "e" || Ascii.eqb c "E")%char then
        let '(sign, s1) := strip_sign s' in
        let '(k, v, _) := read_digits digit_value 10 0 s1 in
        match k with
        | O => 0
        | S _ => sign * v
        end
      else 0
  | EmptyString => 0
  end.

(** [parseFloat(s)]: the binary64 nearest to the longest prefix that is a
    decimal literal, [NaN] when there is none. *)
Definition parseFloat (s : string) : xnum :=
  let '(sign, s1) := strip_sign (trimStart s) in
  if starts_with_Infinity s1 then (if sign <? 0 then XNegInf else XPosInf)
  else
    let '(k1, v1, r1) := read_digits digit_value 10 0 s1 in
    let '(k2, v2, r2) :=
      match r1 with
      | String "." r => read_digits digit_value 10 0 r
      | _ => (0%nat, 0, r1)
      end in
    match (k1 + k2)%nat with
    | O => XNaN
    | S _ =>
        let mantissa :=
          (Q2Qc (inject_Z v1) + Q2Qc (inject_Z v2) * pow10 (- Z.of_nat k2))%Qc in
        round64 (Q2Qc (inject_Z sign) * mantissa * pow10 (read_exponent r2))%Qc
    end.

(** *** Searching a text up to the case of letters *)

(** [Canonicalize] under the [i] flag, on code units below U+0100: the
    letters a-z and the letters U+00E0..U+00FE other than the division
    sign have an upper-case partner 32 places lower. *)
Definition canonicalize (c : ascii) : ascii :=
  let n := N_of_ascii c in
  if ((97 <=? n) && (n <=? 122) || (224 <=? n) && (n <=? 254) && negb (n =? 247))%N
  then ascii_of_N (n - 32)
  else c.

Definition char_eq_i (c d : ascii) : bool :=
  Ascii.eqb (canonicalize c) (canonicalize d).

Fixpoint prefix_i (pat s : string) : bool :=
  match pat, s with
  | EmptyString, _ => true
  | String c pat', String d s' => char_eq_i c d && prefix_i pat' s'
  | String _ _, EmptyString => false
  end.

(** [pat] occurs in [s], up to the case of letters. *)
Fixpoint search_i (pat s : string) : bool :=
  prefix_i pat s ||
  match s with
  | EmptyString => false
  | String _ s' => search_i pat s'
  end.

(** The characters with a meaning of their own in a pattern. *)
Definition isSyntaxChar (c : ascii) : bool :=
  existsb (Ascii.eqb c)
    ["^"; "$"; "\"; "."; "*"; "+"; "?"; "("; ")"; "["; "]"; "{"; "}"; "|"]%char.

Definition has_syntax_char (s : string) : bool := existsb isSyntaxChar (chars s).

(** *** A platform for the concrete requests

    One instance of each parameter of the development, at which the
    theorems are applied to concrete requests. *)

Definition is_hex_digit (c : ascii) : bool :=
  match hex_digit_value c with Some _ => true | None => false end.

(** A text of 24 hexadecimal digits: the one form of identifier that
    every version of the driver accepts. *)
Definition hex24 (s : string) : bool :=
  (length (chars s) =? 24)%nat && forallb is_hex_digit (chars s).

Definition lower_hex_digit (c : ascii) : ascii :=
  let n := N_of_ascii c in
  if ((65 <=? n) && (n <=? 70))%N then ascii_of_N (n + 32) else c.

(** The text of the ObjectId that 24 hexadecimal digits denote: the same
    digits in lower case. *)
Fixpoint lower_hex (s : string) : string :=
  match s with
  | EmptyString => EmptyString
  | String c s' => String (lower_hex_digit c) (lower_hex s')
  end.

(** The text of an integer, and of the three numbers that are not
    finite. *)
Definition show_integer (n : xnum) : string :=
  match n with
  | XNaN => "NaN"
  | XNegInf => "-Infinity"
  | XFin q => pretty (Qfloor q)
  | XPosInf => "Infinity"
  end.

(** An engine that compiles the patterns without a syntax character (the
    search for the text, up to case) and such a pattern after [^] (the
    search at the start), and refuses every other pattern. *)
Definition literal_RegExp (src : string) : option (string → bool) :=
  match src with
  | String c rest =>
      if Ascii.eqb c "^" then
        if has_syntax_char rest then None else Some (prefix_i rest)
      else
        if has_syntax_char src then None else Some (search_i src)
  | EmptyString => Some (search_i EmptyString)
  end.

End JS.
Import JS.

(** ** The product model: [models/product.ts] *)

(** A stored product document.  [_id] is the text of its ObjectId.
    [description] and [category] are [null] when a partial update stored
    [null] there. *)
Record product : Type := {
  _id : string;
  name : string;
  price : xnum;
  description : option string;
  category : option string;
  stock : xnum;
  createdAt : Z;
  updatedAt : Z;
}.

(** The collection, in insertion order. *)
Definition store : Type := list product.

(** What the driver and the clock supply while a request is served. *)
Record driver : Type := { fresh_id : string; now : Z }.

(** The result of a store request that can throw. *)
Inductive outcome (A : Type) : Type :=
| Returned (a : A)
| Threw.
Arguments Returned {A} a.
Arguments Threw {A}.

Inductive direction : Type := Asc | Desc.

(** One group of the breakdown that [GET /stats] returns. *)
Record category_stat : Type := {
  group_id : option string;
  count : Z;
  group_avgPrice : xnum;
}.

(** ** The gateway: [proxyRequest] *)

Module Gateway.
Section Proxy.

(** The JSON data of an upstream response. *)
Variable data : Type.

(** What the upstream answered: any status, relayed as it is. *)
Record upstream_response : Type := { up_status : Z; up_data : data }.

(** The value caught by the handler. *)
Record error : Type := {
  isAxiosError : bool;
  code : option string;
  response : option upstream_response;
}.

Inductive payload : Type :=
| Message (error message : string)
| Minimal (error : string)
| Relayed (d : data).

(** The response object of the inbound request. *)
Record res : Type := {
  headersSent : bool;
  statusCode : Z;
  sent : option payload;
}.

Definition fresh_res : res :=
  {| headersSent := false; statusCode := 200; sent := None |}.

(** [res.status(st).json(p)]: a response that has been sent cannot be
    written again, the attempt throws. *)
Definition status_json (st : Z) (p : payload) (r : res) : option res :=
  if headersSent r then None
  else Some {| headersSent := true; statusCode := st; sent := Some p |}.

Definition headers_sent_error : error :=
  {| isAxiosError := false; code := Some "ERR_HTTP_HEADERS_SENT"; response := None |}.

Inductive result : Type :=
| Responded (r : res)
| Escalated (e : error) (r : res)
| Unhandled.

Definition write (st : Z) (p : payload) (r : res) : result :=
  match status_json st p r with
  | Some r' => Responded r'
  | None => Unhandled
  end.

Definition code_is (e : error) (c : string) : bool :=
  bool_decide (code e = Some c).

(** The [catch] block. *)
Definition on_error (e : error) (r : res) : result :=
  let fallback :=
    if negb (headersSent r) then write 502 (Minimal "bad gateway") r
    else Escalated e r in
  if isAxiosError e then
    if code_is e "ECONNREFUSED" then
      write 503
        (Message "Backend service unavailable"
           "The backend service is currently unavailable. Please try again later.") r
    else if code_is e "ETIMEDOUT" || code_is e "ECONNABORTED" then
      write 504
        (Message "Backend service timeout"
           "The backend service did not respond in time. Please try again later.") r
    else
      match response e with
      | Some up => write (up_status up) (Relayed (up_data up)) r
      | None => fallback
      end
  else fallback.

(** [proxyRequest], given what the upstream call produced: a response,
    whatever its status, or a thrown error. *)
Definition proxyRequest (upstream : upstream_response + error) (r : res) : result :=
  match upstream with
  | inl up =>
      match status_json (up_status up) (Relayed (up_data up)) r with
      | Some r' => Responded r'
      | None => on_error headers_sent_error r
      end
  | inr e => on_error e r
  end.

(** The failures that the first three rules name. *)
Definition refused (e : error) : bool :=
  isAxiosError e && code_is e "ECONNREFUSED".

Definition timed_out (e : error) : bool :=
  isAxiosError e && (code_is e "ETIMEDOUT" || code_is e "ECONNABORTED").

Definition carries_response (e : error) : bool :=
  isAxiosError e && bool_decide (is_Some (response e)).

End Proxy.

Arguments Build_upstream_response {data}.
Arguments up_status {data}.
Arguments up_data {data}.
Arguments Build_error {data}.
Arguments isAxiosError {data}.
Arguments code {data}.
Arguments response {data}.
Arguments Build_res {data}.
Arguments headersSent {data}.
Arguments statusCode {data}.
Arguments sent {data}.
Arguments status_json {data}.
Arguments headers_sent_error {data}.
Arguments write {data}.
Arguments code_is {data}.
Arguments on_error {data}.
Arguments proxyRequest {data}.
Arguments refused {data}.
Arguments timed_out {data}.
Arguments carries_response {data}.
Arguments Message {data}.
Arguments Minimal {data}.
Arguments Relayed {data}.
Arguments Responded {data}.
Arguments Escalated {data}.
Arguments Unhandled {data}.
Arguments fresh_res {data}.

(** *** The call of the HTTP client *)

Section Forward.

(** The parsed query string: it is passed on as it is. *)
Variable params : Type.

(** [BACKEND_URL]. *)
Variable backendUrl : string.

(** The inbound request, as far as the handler reads it.  A header, and
    each of the three places where the address of the peer is looked up,
    is absent or a text.  The body is the object that [express.json()]
    leaves in [req.body], empty when the request has none.  The framework
    is set up with its defaults: [req.ip] is the address of the socket and
    owes nothing to the headers. *)
Record inbound : Type := {
  method : string;
  path : string;
  query : params;
  body : gmap string value;
  headers : gmap string string;
  ip : option string;
  connection_remoteAddress : option string;
  socket_remoteAddress : option string;
  protocol : string;
}.

(** The options handed to the HTTP client.  A header whose value is
    [None] has been assigned [undefined].  What the client sends is its
    own affair: it always sends the data, and adds headers of its own to
    those of the options. *)
Record outbound : Type := {
  out_method : string;
  out_url : string;
  out_params : params;
  out_data : gmap string value;
  out_headers : gmap string (option string);
  out_timeout : Z;
  out_maxContentLength : Z;
  out_maxBodyLength : Z;
}.

(** [a || b] on texts that may be absent: the empty text is falsy. *)
Definition or_else (a b : option string) : option string :=
  match a with
  | Some s => if String.eqb s "" then b else a
  | None => b
  end.

(** The [headers] option: the headers that the handler sets. *)
Definition forward_headers (req : inbound) : gmap string (option string) :=
  let headers0 : gmap string (option string) := ∅ in
  let headers1 :=
    if bool_decide (body req ≠ ∅)
    then <["Content-Type" :=
             or_else (headers req !! "content-type") (Some "application/json")]> headers0
    else headers0 in
  let headers2 :=
    <["X-Forwarded-For" :=
        or_else (or_else (ip req) (connection_remoteAddress req))
          (socket_remoteAddress req)]> headers1 in
  <["X-Forwarded-Proto" := Some (protocol req)]> headers2.

(** The options of the upstream call of [proxyRequest]. *)
Definition forward (req : inbound) : outbound :=
  {| out_method := method req;
     out_url := backendUrl ++ path req;
     out_params := query req;
     out_data := body req;
     out_headers := forward_headers req;
     out_timeout := 30000;
     out_maxContentLength := 50 * 1024 * 1024;
     out_maxBodyLength := 50 * 1024 * 1024 |}.

(** The request with other headers. *)
Definition with_headers (h : gmap string string) (req : inbound) : inbound :=
  {| method := method req; path := path req; query := query req;
     body := body req; headers := h; ip := ip req;
     connection_remoteAddress := connection_remoteAddress req;
     socket_remoteAddress := socket_remoteAddress req;
     protocol := protocol req |}.

End Forward.

Arguments Build_inbound {params}.
Arguments method {params}.
Arguments path {params}.
Arguments query {params}.
Arguments body {params}.
Arguments headers {params}.
Arguments ip {params}.
Arguments connection_remoteAddress {params}.
Arguments socket_remoteAddress {params}.
Arguments protocol {params}.
Arguments Build_outbound {params}.
Arguments out_method {params}.
Arguments out_url {params}.
Arguments out_params {params}.
Arguments out_data {params}.
Arguments out_headers {params}.
Arguments out_timeout {params}.
Arguments out_maxContentLength {params}.
Arguments out_maxBodyLength {params}.
Arguments forward_headers {params}.
Arguments forward {params}.
Arguments with_headers {params}.


End Gateway.
(** ** Sample data *)

Definition sample_id : string := "507f1f77bcf86cd799439011".

Definition sample_driver : driver := {| fresh_id := sample_id; now := 0 |}.

(** A product as creation stores it, with the given name and stock. *)
Definition sample_product (nm : string) (st : xnum) : product :=
  {| _id := sample_id; name := nm; price := int 1;
     description := Some ""; category := Some "uncategorized";
     stock := st; createdAt := 0; updatedAt := 0 |}.

(** Another product, with another identifier. *)
Definition other_id : string := "507f1f77bcf86cd799439012".

Definition other_product : product :=
  {| _id := other_id; name := "Mouse"; price := int 2;
     description := Some ""; category := Some "Electronics";
     stock := int 3; createdAt := 1; updatedAt := 1 |}.

(** The identifier of the first sample product, in upper case. *)
Definition sample_id_upper : string := "507F1F77BCF86CD799439011".

Definition half : xnum := XFin (Q2Qc (1 # 2)).

(** A name of 201 characters. *)
Definition long_name : string := string_of_list_ascii (repeat "a"%char 201).

(** *** An order in which a store can return documents

    Insertion sort on the sort path: the documents whose keys are equal
    keep their insertion order.  It is one of the orders that a store may
    choose, used at the concrete requests. *)

Definition opt_string_leb (a b : option string) : bool :=
  match a, b with
  | None, _ => true
  | Some _, None => false
  | Some x, Some y => String.leb x y
  end.

(** Ascending order on the named path.  A path that no document has
    orders nothing. *)
Definition key_leb (field : string) (a b : product) : bool :=
  if String.eqb field "createdAt" then createdAt a <=? createdAt b
  else if String.eqb field "updatedAt" then updatedAt a <=? updatedAt b
  else if String.eqb field "price" then bson_le (price a) (price b)
  else if String.eqb field "stock" then bson_le (stock a) (stock b)
  else if String.eqb field "name" then String.leb (name a) (name b)
  else if String.eqb field "_id" then String.leb (_id a) (_id b)
  else if String.eqb field "description"
    then opt_string_leb (description a) (description b)
  else if String.eqb field "category"
    then opt_string_leb (category a) (category b)
  else true.

Definition sort_leb (field : string) (dir : direction) (a b : product) : bool :=
  match dir with
  | Asc => key_leb field a b
  | Desc => key_leb field b a
  end.

Fixpoint insert_sorted (leb : product → product → bool) (x : product) (l : list product)
  : list product :=
  match l with
  | [] => [x]
  | y :: t => if leb x y then x :: y :: t else y :: insert_sorted leb x t
  end.

Definition sort_docs (field : string) (dir : direction) (l : list product)
  : list product :=
  foldr (insert_sorted (sort_leb field dir)) [] l.

(** A store that sorts on every path. *)
Definition sample_sort (field : string) (dir : direction)
  : option (list product → list product) :=
  Some (sort_docs field dir).

(** The groups of a breakdown with the largest count first, groups with
    the same count in the order given. *)
Fixpoint insert_stat (x : category_stat) (l : list category_stat) : list category_stat :=
  match l with
  | [] => [x]
  | y :: t => if count y <=? count x then x :: y :: t else y :: insert_stat x t
  end.

Definition sort_by_count (l : list category_stat) : list category_stat :=
  foldr insert_stat [] l.

(** Two accumulators for the concrete collections: the sum of binary64
    values from left to right, and that sum over their number.  What the
    store accumulates is a parameter of the development. *)
Definition sum_left (l : list xnum) : xnum := foldl x_add (XFin 0%Qc) l.

Definition avg_left (l : list xnum) : xnum :=
  match l with
  | [] => XNaN
  | _ :: _ =>
      match sum_left l with
      | XFin s => round64 (s / num (Z.of_nat (List.length l)))%Qc
      | x => x
      end
  end.

Section Engine.

(** *** The platform *)

(** [mongoose.Types.ObjectId.isValid], of the driver. *)
Variable isValidObjectId : string → bool.

(** The cast of an identifier to an ObjectId, of the driver, given as the
    text of that ObjectId.  Two identifiers denote one ObjectId exactly
    when their casts are one text: the driver reads hexadecimal digits in
    either case. *)
Variable ObjectId : string → string.

(** [Number::toString], the text the model writes when a number is
    assigned to a String path. *)
Variable Number_toString : xnum → string.

(** [new RegExp(src, "i")] as a condition of a filter: the test that the
    store runs on a text for the pattern, and [None] when the pattern is
    refused, by the constructor, which throws, or by the store.  The
    handler answers both refusals alike. *)
Variable RegExp_i : string → option (string → bool).

(** The order in which the store returns the documents it has sorted on a
    path: [None] when the store refuses the path, and otherwise a
    rearrangement of the documents; which one it is among documents whose
    keys are equal is left to the store.  The store sorts on
    [createdAt]. *)
Variable store_sort : string → direction → option (list product → list product).

Hypothesis store_sort_perm :
  ∀ field dir f l, store_sort field dir = Some f → Permutation (f l) l.

Hypothesis store_sort_createdAt :
  ∀ dir, is_Some (store_sort "createdAt" dir).

(** The accumulators [$sum] and [$avg] of the store, on the values of a
    group in the order of the collection. *)
Variable store_sum : list xnum → xnum.
Variable store_avg : list xnum → xnum.

(** The order in which the store returns the groups of the breakdown: a
    rearrangement with the largest count first. *)
Variable store_sort_groups : list category_stat → list category_stat.

Hypothesis store_sort_groups_perm :
  ∀ l, Permutation (store_sort_groups l) l.

Hypothesis store_sort_groups_sorted :
  ∀ l, StronglySorted (λ a b, count b ≤ count a) (store_sort_groups l).

(** *** Schema: casts, setters, defaults and validators *)

(** A String path with [trim: true]; [None] is a cast error.  The setter
    casts a value that is no string and trims the text.  The cast takes a
    number and a boolean to their text, an object whose [_id] is a string
    that is not empty to that string, and refuses an array and every other
    object.  A handler never assigns [undefined]. *)
Definition castString (v : value) : option (option string) :=
  match v with
  | VStr s => Some (Some (trim s))
  | VNum n => Some (Some (trim (Number_toString n)))
  | VBool b => Some (Some (if b then "true" else "false"))
  | VNull | VUndefined => Some None
  | VArr _ => None
  | VObj o =>
      match o !! "_id" with
      | Some (VStr s) => if String.eqb s "" then None else Some (Some (trim s))
      | _ => None
      end
  end.

(** A Number path.  The cast refuses [NaN].  Both handlers that assign a
    number admit only values whose [typeof] is [number]; every other value
    is a cast error here. *)
Definition castNumber (v : value) : option xnum :=
  match v with
  | VNum XNaN => None
  | VNum n => Some n
  | _ => None
  end.

Definition str_length (s : string) : Z := Z.of_nat (String.length s).

(** [required: true, maxlength: 200]. *)
Definition valid_name (s : option string) : bool :=
  match s with
  | Some s => negb (String.eqb s "") && (str_length s <=? 200)
  | None => false
  end.

(** [maxlength] on an optional String path: [null] passes. *)
Definition valid_maxlength (n : Z) (s : option string) : bool :=
  match s with
  | Some s => str_length s <=? n
  | None => true
  end.

(** [min: 0]. *)
Definition valid_min0 (x : xnum) : bool := num_le (int 0) x.

(** The pre-save middleware. *)
Definition preSave (p : product) : product :=
  if num_lt (stock p) (int 0) then
    {| _id := _id p; name := name p; price := price p;
       description := description p; category := category p;
       stock := int 0; createdAt := createdAt p; updatedAt := updatedAt p |}
  else p.

(** [new ProductModel(data)] followed by [save()]: casts and defaults,
    then validation, then the pre-save middleware (validation is the
    first pre-save hook of every schema), then the insertion, which the
    store refuses for an [_id] it already holds. *)
Definition build (d : driver) (data : gmap string value) : option product :=
  nm ← (match data !! "name" with Some v => castString v | None => Some None end);
  pr ← (match data !! "price" with Some v => Some <$> castNumber v | None => Some None end);
  ds ← (match data !! "description" with Some v => castString v | None => Some (Some "") end);
  ct ← (match data !! "category" with Some v => castString v | None => Some (Some "uncategorized") end);
  st ← (match data !! "stock" with Some v => castNumber v | None => Some (int 0) end);
  match nm, pr with
  | Some nm', Some pr' =>
      if valid_name nm && valid_min0 pr' && valid_maxlength 2000 ds
         && valid_maxlength 100 ct && valid_min0 st
      then Some {| _id := fresh_id d; name := nm'; price := pr';
                   description := ds; category := ct; stock := st;
                   createdAt := now d; updatedAt := now d |}
      else None
  | _, _ => None
  end.

(** The document has the ObjectId that [id] denotes. *)
Definition has_id (id : string) (p : product) : bool :=
  String.eqb (ObjectId (_id p)) (ObjectId id).

Definition save (d : driver) (data : gmap string value) (db : store)
  : store * outcome product :=
  match build d data with
  | Some p =>
      let p' := preSave p in
      if existsb (has_id (_id p')) db then (db, Threw)
      else ((db ++ [p'])%list, Returned p')
  | None => (db, Threw)
  end.

(** *** Queries *)

Definition findById (id : string) (db : store) : option product :=
  List.find (has_id id) db.

(** The first document that satisfies [sel] is replaced by its image. *)
Fixpoint update_first (sel : product → bool) (f : product → product) (db : store)
  : store * option product :=
  match db with
  | [] => ([], None)
  | p :: rest =>
      if sel p then (f p :: rest, Some (f p))
      else let '(rest', r) := update_first sel f rest in (p :: rest', r)
  end.

(** The typed content of a [$set] on the five paths of the schema. *)
Record assignment : Type := {
  set_name : option (option string);
  set_price : option xnum;
  set_description : option (option string);
  set_category : option (option string);
  set_stock : option xnum;
}.

Definition cast_path {A} (cast : value → option A) (upd : gmap string value) (k : string)
  : option (option A) :=
  match upd !! k with
  | Some v => Some <$> cast v
  | None => Some None
  end.

(** Cast of the update document; [None] is a cast error. *)
Definition cast_update (upd : gmap string value) : option assignment :=
  nm ← cast_path castString upd "name";
  pr ← cast_path castNumber upd "price";
  ds ← cast_path castString upd "description";
  ct ← cast_path castString upd "category";
  st ← cast_path castNumber upd "stock";
  Some {| set_name := nm; set_price := pr; set_description := ds;
          set_category := ct; set_stock := st |}.

(** [runValidators: true]: the validators of the paths that are set. *)
Definition validate_update (a : assignment) : bool :=
  from_option valid_name true (set_name a)
  && from_option valid_min0 true (set_price a)
  && from_option (valid_maxlength 2000) true (set_description a)
  && from_option (valid_maxlength 100) true (set_category a)
  && from_option valid_min0 true (set_stock a).

Definition apply_set (t : Z) (a : assignment) (p : product) : product :=
  {| _id := _id p;
     name := match set_name a with Some (Some s) => s | _ => name p end;
     price := default (price p) (set_price a);
     description := default (description p) (set_description a);
     category := default (category p) (set_category a);
     stock := default (stock p) (set_stock a);
     createdAt := createdAt p;
     updatedAt := t |}.

(** [findByIdAndUpdate(id, {$set: upd}, {new: true, runValidators: true})]. *)
Definition findByIdAndUpdate (t : Z) (id : string) (upd : gmap string value) (db : store)
  : store * outcome (option product) :=
  match cast_update upd with
  | Some a =>
      if validate_update a then
        let '(db', r) := update_first (has_id id) (apply_set t a) db in
        (db', Returned r)
      else (db, Threw)
  | None => (db, Threw)
  end.

(** [$inc: {stock: delta}]: the binary64 sum. *)
Definition apply_inc (t : Z) (delta : xnum) (p : product) : product :=
  {| _id := _id p; name := name p; price := price p;
     description := description p; category := category p;
     stock := x_add (stock p) delta;
     createdAt := createdAt p; updatedAt := t |}.

(** The filter [{_id: id}] with, when [guard] is present, the condition
    [stock: {$gte: guard}]. *)
Definition stock_filter (id : string) (guard : option xnum) (p : product) : bool :=
  has_id id p &&
  match guard with
  | Some q => num_le q (stock p)
  | None => true
  end.

Definition is_NaN (x : xnum) : bool :=
  match x with XNaN => true | _ => false end.

(** [findOneAndUpdate(filter, {$inc: {stock: delta}}, {new: true})]:
    condition and increment are one request.  The cast of the filter and
    of the update refuses [NaN].  Update validators do not run on
    [$inc]. *)
Definition findOneAndUpdate (t : Z) (id : string) (guard : option xnum) (delta : xnum)
    (db : store) : store * outcome (option product) :=
  if is_NaN delta || from_option is_NaN false guard then (db, Threw)
  else
    let '(db', r) := update_first (stock_filter id guard) (apply_inc t delta) db in
    (db', Returned r).

(** The filter documents that the handlers build. *)
Inductive query : Type :=
| ByFields (category : option string) (price_gte price_lte : option xnum)
    (stock_gt0 : bool)
| ByRegex (r : string → bool).

(** The cast of a filter: the category goes through the [trim] setter of
    its path, and a bound on the price that is [NaN] is refused. *)
Definition cast_bound (x : option xnum) : option (option xnum) :=
  match x with
  | Some XNaN => None
  | _ => Some x
  end.

Definition cast_query (q : query) : option query :=
  match q with
  | ByFields cat lo hi instock =>
      lo' ← cast_bound lo;
      hi' ← cast_bound hi;
      Some (ByFields (trim <$> cat) lo' hi' instock)
  | ByRegex r => Some q
  end.

Definition regexp_matches (r : string → bool) (field : option string) : bool :=
  match field with
  | Some s => r s
  | None => false
  end.

(** A document against a filter that has been cast. *)
Definition matches (q : query) (p : product) : bool :=
  match q with
  | ByFields cat lo hi instock =>
      from_option (λ c, bool_decide (category p = Some c)) true cat
      && from_option (λ x, num_le x (price p)) true lo
      && from_option (λ x, num_le (price p) x) true hi
      && (if instock then num_lt (int 0) (stock p) else true)
  | ByRegex r =>
      regexp_matches r (Some (name p))
      || regexp_matches r (description p)
      || regexp_matches r (category p)
  end.

(** [find(q).sort({[field]: dir}).skip(skip).limit(limit)]. *)
Definition find (q : query) (field : string) (dir : direction) (skip limit : Z)
    (db : store) : outcome (list product) :=
  match cast_query q, store_sort field dir with
  | Some q', Some sorted =>
      Returned
        (firstn (Z.to_nat limit)
           (skipn (Z.to_nat skip) (sorted (List.filter (matches q') db))))
  | _, _ => Threw
  end.

Definition countDocuments (q : query) (db : store) : outcome Z :=
  match cast_query q with
  | Some q' => Returned (Z.of_nat (List.length (List.filter (matches q') db)))
  | None => Threw
  end.

Fixpoint remove_first (sel : product → bool) (db : store) : store * option product :=
  match db with
  | [] => ([], None)
  | p :: rest =>
      if sel p then (rest, Some p)
      else let '(rest', r) := remove_first sel rest in (p :: rest', r)
  end.

Definition findByIdAndDelete (id : string) (db : store) : store * option product :=
  remove_first (has_id id) db.

(** *** Store requests and handler programs *)

(** The requests a handler sends to the store, indexed by what the store
    answers.  The store is taken to be available: a request fails only
    by a cast error, a validation error or a duplicate [_id]. *)
Inductive cmd : Type → Type :=
| Save (d : driver) (data : gmap string value) : cmd (outcome product)
| Find (q : query) (field : string) (dir : direction) (skip limit : Z)
  : cmd (outcome (list product))
| CountDocuments (q : query) : cmd (outcome Z)
| FindById (id : string) : cmd (option product)
| FindByIdAndUpdate (t : Z) (id : string) (upd : gmap string value)
  : cmd (outcome (option product))
| FindOneAndUpdate (t : Z) (id : string) (guard : option xnum) (delta : xnum)
  : cmd (outcome (option product))
| FindByIdAndDelete (id : string) : cmd (option product).

(** One request, executed atomically. *)
Definition exec {R : Type} (c : cmd R) (db : store) : store * R :=
  match c in cmd R return store * R with
  | Save d data => save d data db
  | Find q field dir skip limit => (db, find q field dir skip limit db)
  | CountDocuments q => (db, countDocuments q db)
  | FindById id => (db, findById id db)
  | FindByIdAndUpdate t id upd => findByIdAndUpdate t id upd db
  | FindOneAndUpdate t id guard delta => findOneAndUpdate t id guard delta db
  | FindByIdAndDelete id => findByIdAndDelete id db
  end.

(** A handler: it answers, or it sends a request and goes on with the
    store's answer. *)
Inductive prog (A : Type) : Type :=
| Ret (a : A)
| Call (R : Type) (c : cmd R) (k : R → prog A).
Arguments Ret {A} a.
Arguments Call {A R} c k.

(** A handler served alone, with no other request in between. *)
Fixpoint run {A : Type} (m : prog A) (db : store) : store * A :=
  match m with
  | Ret a => (db, a)
  | Call c k => let '(db', r) := exec c db in run (k r) db'
  end.

(** A request that never changes the collection. *)
Definition read_only {R : Type} (c : cmd R) : bool :=
  match c with
  | Find _ _ _ _ _ | CountDocuments _ | FindById _ => true
  | _ => false
  end.

(** *** Responses *)

Record pagination : Type := {
  page : Z;
  limit : Z;
  total : Z;
  pages : xnum;
  hasNext : bool;
  hasPrev : bool;
}.

Inductive json : Type :=
| JProduct (p : product)
| JError (error message : string)
| JPage (products : list product) (pg : pagination)
| JSearch (products : list product) (count : nat)
| JDeleted (message : string) (p : product).

Record response : Type := { status : Z; payload : json }.

Definition respond (st : Z) (b : json) : response :=
  {| status := st; payload := b |}.

(** *** The router *)

(** [body[k]], [undefined] when the property is absent. *)
Definition prop (body : gmap string value) (k : string) : value :=
  default VUndefined (body !! k).

(** The string and the number behind a value whose [typeof] has been
    tested. *)
Definition str_of (v : value) : string :=
  match v with VStr s => s | _ => "" end.

Definition num_of (v : value) : xnum :=
  match v with VNum n => n | _ => int 0 end.

Definition sanitizeString (str : string) : string := stripAngles (trim str).

(** [v.trim() === ""]. *)
Definition blank (v : value) : bool := String.eqb (trim (str_of v)) "".

(** [v < 0], [v <= 0] and [v >= 0] for a number. *)
Definition lt0 (v : value) : bool := num_lt (num_of v) (int 0).
Definition le0 (v : value) : bool := num_le (num_of v) (int 0).
Definition ge0 (v : value) : bool := num_le (int 0) (num_of v).

Definition invalid_id : response :=
  respond 400 (JError "Invalid ID" "Product ID is not valid").

Definition not_found : response :=
  respond 404 (JError "Not found" "Product not found").

Definition no_data : response :=
  respond 400 (JError "No data" "No valid fields to update").

Definition server_error (message : string) : response :=
  respond 500 (JError "Server error" message).

(** The document that [POST /] builds from a body whose name and price
    have been accepted. *)
Definition post_productData (body : gmap string value) : gmap string value :=
  let name := prop body "name" in
  let price := prop body "price" in
  let description := prop body "description" in
  let category := prop body "category" in
  let stock := prop body "stock" in
  let productData : gmap string value :=
    <["price" := price]> {["name" := VStr (sanitizeString (str_of name))]} in
  let productData :=
    if truthy description && is_string description
    then <["description" := VStr (sanitizeString (str_of description))]> productData
    else productData in
  let productData :=
    if truthy category && is_string category
    then <["category" := VStr (sanitizeString (str_of category))]> productData
    else productData in
  let productData :=
    if is_number stock && ge0 stock
    then <["stock" := VNum (Math_floor (num_of stock))]> productData
    else productData in
  productData.

Definition invalid_name_required : response :=
  respond 400 (JError "Invalid name" "Name is required and must be a non-empty string").

Definition invalid_name : response :=
  respond 400 (JError "Invalid name" "Name must be a non-empty string").

Definition invalid_price : response :=
  respond 400 (JError "Invalid price" "Price must be a non-negative number").

Definition invalid_stock : response :=
  respond 400 (JError "Invalid stock" "Stock must be a non-negative number").

(** [POST /]. *)
Definition post_root (d : driver) (body : gmap string value) : prog response :=
  let name := prop body "name" in
  let price := prop body "price" in
  if negb (truthy name) || negb (is_string name) || blank name then
    Ret invalid_name_required
  else if negb (is_number price) || Number_isNaN price || lt0 price then
    Ret invalid_price
  else
    Call (Save d (post_productData body)) (λ r,
      match r with
      | Returned saved => Ret (respond 201 (JProduct saved))
      | Threw => Ret (server_error "Failed to create product")
      end).

(** The query string of [GET /].  Each parameter is absent or one text. *)
Record list_query : Type := {
  q_page : option string;
  q_limit : option string;
  q_sortBy : option string;
  q_order : option string;
  q_category : option string;
  q_minPrice : option string;
  q_maxPrice : option string;
  q_inStock : option string;
}.

(** A parameter that is present and not the empty text. *)
Definition given (p : option string) : option string :=
  match p with
  | Some s => if String.eqb s "" then None else Some s
  | None => None
  end.

Definition list_page (q : list_query) : Z := Z.max 1 (parseInt_or (q_page q) 1).

Definition list_limit (q : list_query) : Z :=
  Z.min 100 (Z.max 1 (parseInt_or (q_limit q) 10)).

Definition list_skip (q : list_query) : Z := (list_page q - 1) * list_limit q.

Definition list_filter (q : list_query) : query :=
  ByFields (given (q_category q))
    (parseFloat <$> given (q_minPrice q))
    (parseFloat <$> given (q_maxPrice q))
    (bool_decide (q_inStock q = Some "true")).

(** [Math.ceil(total / limit)], for a limit that is not zero: the
    quotient of the two integers, rounded to a binary64, and the least
    integer that is not below it. *)
Definition page_count (total limit : Z) : xnum :=
  Math_ceil (round64 (num total / num limit)%Qc).

(** [GET /]: the two requests of [Promise.all], and the answer of the
    [catch] block when one of them fails. *)
Definition get_root (q : list_query) : prog response :=
  let page := list_page q in
  let limit := list_limit q in
  let skip := list_skip q in
  let sortField := default "createdAt" (given (q_sortBy q)) in
  let sortOrder := if bool_decide (q_order q = Some "asc") then Asc else Desc in
  let filter := list_filter q in
  Call (Find filter sortField sortOrder skip limit) (λ found,
  Call (CountDocuments filter) (λ counted,
    match found, counted with
    | Returned products, Returned total =>
        Ret (respond 200
               (JPage products
                  {| page := page; limit := limit; total := total;
                     pages := page_count total limit;
                     hasNext := page * limit <? total;
                     hasPrev := 1 <? page |}))
    | _, _ => Ret (server_error "Failed to fetch products")
    end)).

(** [GET /search]. *)
Definition get_search (q : value) : prog response :=
  if negb (truthy q) || negb (is_string q) || blank q then
    Ret (respond 400 (JError "Invalid query" "Search query is required"))
  else
    match RegExp_i (sanitizeString (str_of q)) with
    | None => Ret (server_error "Failed to search products")
    | Some searchRegex =>
        Call (Find (ByRegex searchRegex) "createdAt" Desc 0 50) (λ found,
          match found with
          | Returned products =>
              Ret (respond 200 (JSearch products (List.length products)))
          | Threw => Ret (server_error "Failed to search products")
          end)
    end.

(** [GET /:id]. *)
Definition get_id (id : string) : prog response :=
  if negb (isValidObjectId id) then Ret invalid_id
  else
    Call (FindById id) (λ product,
      match product with
      | None => Ret not_found
      | Some p => Ret (respond 200 (JProduct p))
      end).

(** The answer to an update by identifier. *)
Definition after_update (what : string) (r : outcome (option product)) : prog response :=
  match r with
  | Returned None => Ret not_found
  | Returned (Some updated) => Ret (respond 200 (JProduct updated))
  | Threw => Ret (server_error what)
  end.

(** [PUT /:id]: the checks, in the order of the handler.  Each one
    answers 400 or extends the update document. *)
Definition put_checks (body : gmap string value) : response + gmap string value :=
  let name := prop body "name" in
  let price := prop body "price" in
  let description := prop body "description" in
  let category := prop body "category" in
  let stock := prop body "stock" in
  let updateData : gmap string value := ∅ in
  if negb (is_undefined name) && (negb (is_string name) || blank name) then
    inl invalid_name
  else
  let updateData :=
    if negb (is_undefined name)
    then <["name" := VStr (sanitizeString (str_of name))]> updateData
    else updateData in
  if negb (is_undefined price)
     && (negb (is_number price) || Number_isNaN price || lt0 price) then
    inl invalid_price
  else
  let updateData :=
    if negb (is_undefined price) then <["price" := price]> updateData
    else updateData in
  let updateData :=
    if negb (is_undefined description)
    then <["description" :=
             if is_string description
             then VStr (sanitizeString (str_of description)) else VStr ""]> updateData
    else updateData in
  let updateData :=
    if negb (is_undefined category)
    then <["category" :=
             if is_string category
             then VStr (sanitizeString (str_of category)) else VStr ""]> updateData
    else updateData in
  if negb (is_undefined stock) && (negb (is_number stock) || lt0 stock) then
    inl invalid_stock
  else
  let updateData :=
    if negb (is_undefined stock)
    then <["stock" := VNum (Math_floor (num_of stock))]> updateData
    else updateData in
  inr updateData.

Definition put_id (t : Z) (id : string) (body : gmap string value) : prog response :=
  if negb (isValidObjectId id) then Ret invalid_id
  else
    match put_checks body with
    | inl bad => Ret bad
    | inr updateData =>
        if bool_decide (updateData = ∅) then Ret no_data
        else Call (FindByIdAndUpdate t id updateData)
               (after_update "Failed to update product")
    end.

Definition allowedFields : list string :=
  ["name"; "price"; "description"; "category"; "stock"].

(** One turn of the loop of [PATCH /:id]. *)
Definition patch_step (updates : gmap string value) (updateData : gmap string value)
    (field : string) : gmap string value :=
  if negb (is_undefined (prop updates field)) then
    if String.eqb field "name"
       && (negb (is_string (prop updates "name")) || blank (prop updates "name"))
    then updateData
    else if String.eqb field "price"
       && (negb (is_number (prop updates "price")) || lt0 (prop updates "price"))
    then updateData
    else if String.eqb field "stock"
       && (negb (is_number (prop updates "stock")) || lt0 (prop updates "stock"))
    then updateData
    else if is_string (prop updates field)
    then <[field := VStr (sanitizeString (str_of (prop updates field)))]> updateData
    else <[field := prop updates field]> updateData
  else updateData.

Definition patch_updateData (updates : gmap string value) : gmap string value :=
  foldl (patch_step updates) ∅ allowedFields.

(** [PATCH /:id]. *)
Definition patch_id (t : Z) (id : string) (updates : gmap string value)
  : prog response :=
  if negb (isValidObjectId id) then Ret invalid_id
  else
    let updateData := patch_updateData updates in
    if bool_decide (updateData = ∅) then Ret no_data
    else Call (FindByIdAndUpdate t id updateData)
           (after_update "Failed to update product").

(** [DELETE /:id]. *)
Definition delete_id (id : string) : prog response :=
  if negb (isValidObjectId id) then Ret invalid_id
  else
    Call (FindByIdAndDelete id) (λ deleted,
      match deleted with
      | None => Ret not_found
      | Some p => Ret (respond 200 (JDeleted "Product deleted successfully" p))
      end).

Definition invalid_quantity : response :=
  respond 400 (JError "Invalid quantity" "Quantity must be a positive number").

Definition insufficient_stock : response :=
  respond 400 (JError "Insufficient stock" "Not enough stock to decrement").

(** [operation === "decrement"]. *)
Definition is_decrement (operation : value) : bool :=
  match operation with
  | VStr s => String.eqb s "decrement"
  | _ => false
  end.

(** [PATCH /:id/stock]. *)
Definition patch_id_stock (t : Z) (id : string) (body : gmap string value)
  : prog response :=
  let quantity := prop body "quantity" in
  let operation := prop body "operation" in
  if negb (isValidObjectId id) then Ret invalid_id
  else if negb (is_number quantity) || le0 quantity then
    Ret invalid_quantity
  else
    let increment :=
      if is_decrement operation then x_neg (num_of quantity) else num_of quantity in
    Call (FindOneAndUpdate t id
            (if is_decrement operation then Some (num_of quantity) else None)
            increment) (λ updated,
      match updated with
      | Returned None =>
          Call (FindById id) (λ product,
            match product with
            | None => Ret not_found
            | Some _ =>
                Ret insufficient_stock
            end)
      | Returned (Some u) => Ret (respond 200 (JProduct u))
      | Threw => Ret (server_error "Failed to update stock")
      end).

(** *** The server: handlers for several requests in flight *)

Inductive request : Type :=
| PostRoot (d : driver) (body : gmap string value)
| GetRoot (q : list_query)
| GetSearch (q : value)
| GetId (id : string)
| PutId (t : Z) (id : string) (body : gmap string value)
| PatchId (t : Z) (id : string) (updates : gmap string value)
| DeleteId (id : string)
| PatchIdStock (t : Z) (id : string) (body : gmap string value).

(** The handler of a request. *)
Definition handler (r : request) : prog response :=
  match r with
  | PostRoot d body => post_root d body
  | GetRoot q => get_root q
  | GetSearch q => get_search q
  | GetId id => get_id id
  | PutId t id body => put_id t id body
  | PatchId t id updates => patch_id t id updates
  | DeleteId id => delete_id id
  | PatchIdStock t id body => patch_id_stock t id body
  end.

(** The collection and the handlers that have not answered yet. *)
Definition server : Type := store * list (prog response).

(** A request arrives; or one handler in flight has its next store
    request executed; or a handler answers. *)
Inductive step : server → server → Prop :=
| step_accept db pool r :
    step (db, pool) (db, handler r :: pool)
| step_call db db' l1 l2 (R : Type) (c : cmd R) (k : R → prog response) a :
    exec c db = (db', a) →
    step (db, (l1 ++ Call c k :: l2)%list) (db', (l1 ++ k a :: l2)%list)
| step_answer db l1 l2 a :
    step (db, (l1 ++ Ret a :: l2)%list) (db, (l1 ++ l2)%list).

(** What the server can come to, from a collection [db0] and no request
    in flight. *)
Inductive reachable (db0 : store) : server → Prop :=
| reach_init : reachable db0 (db0, [])
| reach_step s s' : reachable db0 s → step s s' → reachable db0 s'.

(** Requests served one after the other. *)
Fixpoint serve (rs : list request) (db : store) : store * list response :=
  match rs with
  | [] => (db, [])
  | r :: rs' =>
      let '(db1, a) := run (handler r) db in
      let '(db2, answers) := serve rs' db1 in
      (db2, a :: answers)
  end.

(** *** Bulk deletion *)

Definition id_in (ids : list string) (p : product) : bool :=
  existsb (λ id, has_id id p) ids.

(** [deleteMany({_id: {$in: ids}})], with the number of documents deleted. *)
Definition deleteMany (ids : list string) (db : store) : store * nat :=
  (List.filter (λ p, negb (id_in ids p)) db,
   List.length (List.filter (id_in ids) db)).

Inductive bulk_answer : Type :=
| BulkError (st : Z) (error message : string)
| BulkDeleted (st : Z) (message : string)
    (deletedCount requestedCount validIdsCount : nat).

(** [POST /bulk-delete].  [ids] is [None] when the property is not an
    array; the elements of an array are taken to be texts. *)
Definition post_bulk_delete (ids : option (list string)) (db : store)
  : store * bulk_answer :=
  match ids with
  | None => (db, BulkError 400 "Invalid request" "IDs array is required")
  | Some ids =>
      if (List.length ids =? 0)%nat then
        (db, BulkError 400 "Invalid request" "IDs array is required")
      else
        let validIds := List.filter isValidObjectId ids in
        if (List.length validIds =? 0)%nat then
          (db, BulkError 400 "Invalid IDs" "No valid product IDs provided")
        else
          let '(db', deleted) := deleteMany validIds db in
          (db', BulkDeleted 200 "Products deleted successfully"
                  deleted (List.length ids) (List.length validIds))
  end.

(** *** Statistics *)

Record overview : Type := {
  totalProducts : Z;
  avgPrice : xnum;
  minPrice : xnum;
  maxPrice : xnum;
  totalStock : xnum;
}.

Record stats : Type := {
  stats_overview : overview;
  byCategory : list category_stat;
}.

(** [$min] and [$max] of two values. *)
Definition num_min (x y : xnum) : xnum := if bson_le x y then x else y.
Definition num_max (x y : xnum) : xnum := if bson_le x y then y else x.

(** [$group] with [_id: null]: one group for the whole collection, and no
    group at all for an empty collection. *)
Definition group_all (db : store) : list overview :=
  match db with
  | [] => []
  | p :: rest =>
      [{| totalProducts := Z.of_nat (List.length db);
          avgPrice := store_avg (map price db);
          minPrice := foldr num_min (price p) (map price rest);
          maxPrice := foldr num_max (price p) (map price rest);
          totalStock := store_sum (map stock db) |}]
  end.

(** The groups by category: for each category met so far, the number of
    its products and their prices, in the order of the collection. *)
Fixpoint bump (k : option string) (x : xnum)
    (groups : list (option string * (Z * list xnum)))
  : list (option string * (Z * list xnum)) :=
  match groups with
  | [] => [(k, (1, [x]))]
  | (k', (n, prices)) :: rest =>
      if bool_decide (k' = k) then (k', (n + 1, (prices ++ [x])%list)) :: rest
      else (k', (n, prices)) :: bump k x rest
  end.

Definition accumulate (db : store) : list (option string * (Z * list xnum)) :=
  foldl (λ groups p, bump (category p) (price p) groups) [] db.

(** [$group] with [_id: "$category"]. *)
Definition group_by_category (db : store) : list category_stat :=
  map (λ g, {| group_id := g.1; count := g.2.1; group_avgPrice := store_avg g.2.2 |})
    (accumulate db).

Definition no_products : overview :=
  {| totalProducts := 0; avgPrice := int 0; minPrice := int 0; maxPrice := int 0;
     totalStock := int 0 |}.

(** [GET /stats]: the body of the answer, whose status is 200. *)
Definition get_stats (db : store) : stats :=
  {| stats_overview := default no_products (head (group_all db));
     byCategory := store_sort_groups (group_by_category db) |}.

(** *** Notions used in the statements *)

(** No document has a stock below zero. *)
Definition stock_ok (db : store) : Prop :=
  Forall (λ p, num_lt (stock p) (int 0) = false) db.

(** The document has the ObjectId that [id] denotes. *)
Definition same_id (id : string) (p : product) : Prop :=
  ObjectId (_id p) = ObjectId id.

(** No two documents have the same identifier, as a text and as an
    ObjectId. *)
Definition unique_ids (db : store) : Prop := NoDup (map _id db).

Definition distinct_ids (db : store) : Prop :=
  NoDup (map (λ p, ObjectId (_id p)) db).

(** [db'] has the documents of [db] in place: the same identifiers and
    creation times in the same order, and every document of [db] with
    another ObjectId than the one of [id] as it was. *)
Definition kept_in_place (id : string) (db db' : store) : Prop :=
  map _id db' = map _id db ∧
  map createdAt db' = map createdAt db ∧
  ∀ p, p ∈ db → ¬ same_id id p → p ∈ db'.

(** The constraints of the schema on the name, the price, the
    description and the category of a document. *)
Definition schema_valid (p : product) : Prop :=
  valid_name (Some (name p)) = true ∧ valid_min0 (price p) = true ∧
  valid_maxlength 2000 (description p) = true ∧
  valid_maxlength 100 (category p) = true.

(** [p'] is [p] updated at time [t] with nothing changed that the body
    leaves out. *)
Definition keeps_absent (body : gmap string value) (t : Z) (p p' : product) : Prop :=
  _id p' = _id p ∧ createdAt p' = createdAt p ∧ updatedAt p' = t ∧
  (prop body "name" = VUndefined → name p' = name p) ∧
  (prop body "price" = VUndefined → price p' = price p) ∧
  (prop body "description" = VUndefined → description p' = description p) ∧
  (prop body "category" = VUndefined → category p' = category p) ∧
  (prop body "stock" = VUndefined → stock p' = stock p).

(** The products of a category, and the sum of the counts of a
    breakdown. *)
Definition in_category (k : option string) (p : product) : bool :=
  bool_decide (category p = k).

Definition total_count (l : list category_stat) : Z := foldr Z.add 0 (map count l).



(** The sort path and the direction of a list request. *)
Definition list_sortField (q : list_query) : string :=
  default "createdAt" (given (q_sortBy q)).

Definition list_sortOrder (q : list_query) : direction :=
  if bool_decide (q_order q = Some "asc") then Asc else Desc.




(** The test under which [PATCH /:id] keeps a property that is present,
    and the value it then assigns. *)
Definition patch_valid (field : string) (v : value) : bool :=
  if String.eqb field "name" then is_string v && negb (blank v)
  else if String.eqb field "price" then is_number v && negb (lt0 v)
  else if String.eqb field "stock" then is_number v && negb (lt0 v)
  else true.

Definition patch_clean (v : value) : value :=
  if is_string v then VStr (sanitizeString (str_of v)) else v.

Definition patch_kept (updates : gmap string value) (k : string) : bool :=
  bool_decide (k ∈ allowedFields)
  && negb (is_undefined (prop updates k))
  && patch_valid k (prop updates k).

(** The value that [PUT /:id] assigns to a property that is present and
    has passed its check. *)
Definition put_value (field : string) (v : value) : value :=
  if String.eqb field "name" then VStr (sanitizeString (str_of v))
  else if String.eqb field "price" then v
  else if String.eqb field "stock" then VNum (Math_floor (num_of v))
  else if is_string v then VStr (sanitizeString (str_of v))
  else VStr "".

Definition put_present (body : gmap string value) (k : string) : bool :=
  bool_decide (k ∈ allowedFields) && negb (is_undefined (prop body k)).

Definition put_set (body : gmap string value) (k : string) (u : gmap string value)
  : gmap string value :=
  if negb (is_undefined (prop body k)) then <[k := put_value k (prop body k)]> u
  else u.

(** The guard and the increment that [PATCH /:id/stock] sends for a
    quantity [q]. *)
Definition stock_guard (q : xnum) (operation : value) : option xnum :=
  if is_decrement operation then Some q else None.

Definition stock_delta (q : xnum) (operation : value) : xnum :=
  if is_decrement operation then x_neg q else q.

(** An increment that cannot take a stock below zero: without a guard
    it is not negative, with the guard [stock >= q] it takes away at
    most [q]. *)
Definition inc_safe (guard : option xnum) (delta : xnum) : Prop :=
  match guard with
  | Some q => num_le (x_neg q) delta = true
  | None => num_le (int 0) delta = true
  end.

Definition cmd_safe {R : Type} (c : cmd R) : Prop :=
  match c with
  | FindOneAndUpdate _ _ guard delta =>
      is_NaN delta || from_option is_NaN false guard = true ∨ inc_safe guard delta
  | _ => True
  end.

(** Every request that the program can send is safe, whatever the store
    answers. *)
Fixpoint prog_safe {A : Type} (m : prog A) : Prop :=
  match m with
  | Ret _ => True
  | Call c k => cmd_safe c ∧ ∀ r, prog_safe (k r)
  end.

(** The program sends only requests that leave the collection as it is. *)
Fixpoint prog_reads {A : Type} (m : prog A) : Prop :=
  match m with
  | Ret _ => True
  | Call c k => read_only c = true ∧ ∀ r, prog_reads (k r)
  end.

(** ** Properties *)

(** Case analysis on the condition of a conditional in the goal. *)
Ltac case_if :=
  match goal with
  | |- context [if ?b then _ else _] => destruct b
  end.

(** *** Trimming and sanitizing *)

Lemma first_char_trimStart s c :
  first_char (trimStart s) = Some c → isWhiteSpace c = false.
Proof.
  induction s as [|a s IH]; simpl; [discriminate|].
  destruct (isWhiteSpace a) eqn:Ha; [exact IH|].
  simpl. intros [= <-]. exact Ha.
Qed.

Lemma trimEnd_cons a s :
  trimEnd (String a s) =
    if String.eqb (trimEnd s) "" && isWhiteSpace a then EmptyString
    else String a (trimEnd s).
Proof.
  simpl. destruct (trimEnd s) as [|b t]; simpl; [|reflexivity].
  destruct (isWhiteSpace a); reflexivity.
Qed.

Lemma last_char_cons a s :
  last_char (String a s) = match last_char s with Some c => Some c | None => Some a end.
Proof.
  destruct s as [|b s]; [reflexivity|].
  change (last_char (String a (String b s))) with (last_char (String b s)).
  destruct (last_char (String b s)) eqn:E; [reflexivity|].
  exfalso. clear a. revert b E. induction s as [|b' s IH]; intros b E; [discriminate|].
  apply (IH b'). exact E.
Qed.

Lemma last_char_None s : last_char s = None → s = EmptyString.
Proof.
  destruct s as [|a s]; [reflexivity|]. rewrite last_char_cons.
  destruct (last_char s); discriminate.
Qed.

Lemma last_char_trimEnd s c :
  last_char (trimEnd s) = Some c → isWhiteSpace c = false.
Proof.
  induction s as [|a s IH]; [discriminate|].
  rewrite trimEnd_cons.
  destruct (String.eqb (trimEnd s) "") eqn:E.
  - apply String.eqb_eq in E. rewrite E. simpl.
    destruct (isWhiteSpace a) eqn:Ha; [discriminate|].
    intros [= <-]. exact Ha.
  - cbn [andb]. rewrite last_char_cons.
    destruct (last_char (trimEnd s)) as [d|] eqn:Hd.
    + intros [= <-]. apply IH. reflexivity.
    + apply last_char_None in Hd. rewrite Hd in E. discriminate.
Qed.

Lemma first_char_trimEnd s c :
  first_char s = Some c → isWhiteSpace c = false → first_char (trimEnd s) = Some c.
Proof.
  destruct s as [|a s]; [discriminate|]. intros H Hc.
  simpl in H. injection H as ->.
  rewrite trimEnd_cons, Hc, andb_false_r. reflexivity.
Qed.

Lemma trimmed_trim s : trimmed (trim s).
Proof.
  split; intros c Hc.
  - unfold trim in Hc.
    destruct (first_char (trimStart s)) as [d|] eqn:Hd.
    + pose proof (first_char_trimStart _ _ Hd) as Hw.
      rewrite (first_char_trimEnd _ _ Hd Hw) in Hc. congruence.
    + destruct (trimStart s); [discriminate Hc|discriminate Hd].
  - exact (last_char_trimEnd _ _ Hc).
Qed.

Lemma chars_trimStart s c : c ∈ chars (trimStart s) → c ∈ chars s.
Proof.
  induction s as [|a s IH]; simpl; [done|].
  destruct (isWhiteSpace a); simpl; [|done].
  intros H. apply elem_of_cons. right. auto.
Qed.

Lemma chars_trimEnd s c : c ∈ chars (trimEnd s) → c ∈ chars s.
Proof.
  induction s as [|a s IH]; [done|].
  rewrite trimEnd_cons.
  destruct (String.eqb (trimEnd s) "" && isWhiteSpace a); simpl.
  - intros H. by apply elem_of_nil in H.
  - rewrite !elem_of_cons. intros [->|H]; auto.
Qed.

Lemma no_angles_trim s : no_angles s → no_angles (trim s).
Proof.
  intros H c Hc. apply H. by apply chars_trimStart, chars_trimEnd.
Qed.

Lemma no_angles_stripAngles s : no_angles (stripAngles s).
Proof.
  induction s as [|a s IH]; intros c Hc; simpl in Hc.
  - by apply elem_of_nil in Hc.
  - destruct (isAngle a) eqn:Ha; [by apply IH|].
    simpl in Hc. apply elem_of_cons in Hc as [->|Hc]; [done|by apply IH].
Qed.

Lemma first_char_stripAngles s c :
  first_char s = Some c → isAngle c = false → first_char (stripAngles s) = Some c.
Proof.
  destruct s as [|a s]; [discriminate|]. intros H Hc.
  simpl in H. injection H as ->.
  simpl. by rewrite Hc.
Qed.

Lemma last_char_stripAngles s c :
  last_char s = Some c → isAngle c = false → last_char (stripAngles s) = Some c.
Proof.
  induction s as [|a s IH]; [discriminate|].
  rewrite last_char_cons. intros H Hc.
  destruct (last_char s) as [d|] eqn:Hd.
  - injection H as ->. specialize (IH eq_refl Hc).
    cbn [stripAngles]. destruct (isAngle a); [exact IH|].
    rewrite last_char_cons, IH. reflexivity.
  - injection H as ->. apply last_char_None in Hd. subst s.
    simpl. by rewrite Hc.
Qed.


(** *** Numbers *)

Lemma Q2Qc_le q r : (q <= r)%Q → (Q2Qc q ≤ Q2Qc r)%Qc.
Proof. intros H. unfold Qcle. simpl. rewrite !Qred_correct. exact H. Qed.

Lemma num_le_fin a b : num_le (XFin a) (XFin b) = true ↔ (a ≤ b)%Qc.
Proof. simpl. apply bool_decide_eq_true. Qed.

Lemma num_lt_fin a b : num_lt (XFin a) (XFin b) = true ↔ (a < b)%Qc.
Proof. simpl. apply bool_decide_eq_true. Qed.

Lemma num_lt_fin_false a b : num_lt (XFin a) (XFin b) = false ↔ (b ≤ a)%Qc.
Proof.
  simpl. rewrite bool_decide_eq_false. split.
  - apply Qcnot_lt_le.
  - apply Qcle_not_lt.
Qed.

Lemma num_le_fin_false a b : num_le (XFin a) (XFin b) = false ↔ (b < a)%Qc.
Proof.
  simpl. rewrite bool_decide_eq_false. split.
  - apply Qcnot_le_lt.
  - apply Qclt_not_le.
Qed.

(** A number that is at least another one is not below it. *)
Lemma num_le_not_lt x y : num_le x y = true → num_lt y x = false.
Proof.
  destruct x as [| |a|], y as [| |b|]; simpl; try done.
  rewrite bool_decide_eq_true, bool_decide_eq_false. apply Qcle_not_lt.
Qed.

Lemma num_lt_le x y : num_lt x y = true → num_le x y = true.
Proof.
  destruct x as [| |a|], y as [| |b|]; simpl; try done.
  rewrite !bool_decide_eq_true. apply Qclt_le_weak.
Qed.

Lemma num_lt_not_le x y : num_lt x y = true → num_le y x = false.
Proof.
  destruct x as [| |a|], y as [| |b|]; simpl; try done.
  rewrite bool_decide_eq_true, bool_decide_eq_false. apply Qclt_not_le.
Qed.

Lemma pow2_pos k : (0 < pow2 k)%Q.
Proof. unfold pow2. apply Qpower_0_lt. reflexivity. Qed.

Lemma round_half_even_nonneg x : (0 <= x)%Q → 0 ≤ round_half_even x.
Proof.
  intros H. unfold round_half_even. cbv zeta.
  assert (0 ≤ Qfloor x) as Hf.
  { change 0 with (Qfloor (inject_Z 0)). apply Qfloor_resp_le. exact H. }
  destruct (Qcompare _ _); [destruct (Z.even _)| |]; lia.
Qed.

Lemma round64_pos_nonneg x : (0 < x)%Q → num_lt (round64_pos x) (int 0) = false.
Proof.
  intros H. unfold round64_pos. cbv zeta.
  destruct (Qle_bool _ _); [reflexivity|].
  apply num_lt_fin_false. unfold num. apply Q2Qc_le.
  apply Qmult_le_0_compat.
  - change 0%Q with (inject_Z 0). rewrite <- Zle_Qle.
    apply round_half_even_nonneg. apply Qle_shift_div_l; [apply pow2_pos|].
    rewrite Qmult_0_l. by apply Qlt_le_weak.
  - apply Qlt_le_weak, pow2_pos.
Qed.

(** Rounding keeps the sign: the binary64 nearest to a number that is not
    negative is not negative. *)
Lemma round64_nonneg q : (0 ≤ q)%Qc → num_lt (round64 q) (int 0) = false.
Proof.
  intros H. unfold round64. destruct (q ?= 0)%Qc eqn:E.
  - reflexivity.
  - exfalso. apply (Qcle_not_lt _ _ H). exact E.
  - apply round64_pos_nonneg. apply Qcgt_alt in E. exact E.
Qed.

(** A sum of a number that is not below zero and a number that is at
    least zero is not below zero. *)
Lemma x_add_nonneg s delta :
  num_lt s (int 0) = false → num_le (int 0) delta = true →
  num_lt (x_add s delta) (int 0) = false.
Proof.
  destruct s as [| |a|], delta as [| |b|]; simpl; try done.
  rewrite bool_decide_eq_false, bool_decide_eq_true. intros Ha Hb.
  apply round64_nonneg. apply Qcnot_lt_le in Ha.
  change (num 0) with 0%Qc in *. by apply Qcplus_nonneg_nonneg.
Qed.

(** So is the sum of a number [s >= q] and a number that is at least
    [-q]. *)
Lemma x_add_guarded s q delta :
  num_le q s = true → num_le (x_neg q) delta = true →
  num_lt (x_add s delta) (int 0) = false.
Proof.
  destruct s as [| |a|], q as [| |c|], delta as [| |b|]; simpl; try done.
  rewrite !bool_decide_eq_true. intros Ha Hb.
  apply round64_nonneg.
  apply Qcle_trans with (c + - c)%Qc.
  - rewrite Qcplus_opp_r. apply Qcle_refl.
  - by apply Qcplus_le_compat.
Qed.

Lemma Math_floor_nonneg x : num_le (int 0) x = true → num_le (int 0) (Math_floor x) = true.
Proof.
  destruct x as [| |a|]; simpl; try done.
  rewrite !bool_decide_eq_true. intros H. unfold num. apply Q2Qc_le.
  rewrite <- Zle_Qle. change 0%Z with (Qfloor (inject_Z 0)).
  apply Qfloor_resp_le. exact H.
Qed.

(** The floor of a number is an integer or, of a number that is not
    finite, that number. *)
Lemma Math_floor_integer x :
  is_integer (Math_floor x) ∨ Math_floor x = x ∧ ∀ q, x ≠ XFin q.
Proof.
  destruct x as [| |a|]; simpl; [right|right|left|right]; try done.
  eexists. reflexivity.
Qed.







(** *** The store *)

Lemma update_first_Forall (P : product → Prop) sel f db :
  (∀ p, sel p = true → P p → P (f p)) →
  Forall P db → Forall P (update_first sel f db).1.
Proof.
  intros Hf. induction 1 as [|p db Hp Hdb IH]; simpl; [constructor|].
  destruct (sel p) eqn:Hs; simpl.
  - constructor; auto.
  - destruct (update_first sel f db) as [db' r]. simpl in *. constructor; auto.
Qed.

Lemma update_first_Some sel f db p' :
  (update_first sel f db).2 = Some p' →
  ∃ p, List.find sel db = Some p ∧ p' = f p.
Proof.
  induction db as [|a db IH]; simpl; [discriminate|].
  destruct (sel a) eqn:Hs; simpl.
  - intros [= <-]. eauto.
  - destruct (update_first sel f db) as [db' r]. simpl in *. exact IH.
Qed.

Lemma update_first_None sel f db :
  (update_first sel f db).2 = None ↔ List.find sel db = None.
Proof.
  induction db as [|a db IH]; simpl; [done|].
  destruct (sel a) eqn:Hs; simpl; [done|].
  destruct (update_first sel f db) as [db' r]. simpl in *. exact IH.
Qed.

Lemma update_first_miss sel f db :
  List.find sel db = None → update_first sel f db = (db, None).
Proof.
  induction db as [|a db IH]; simpl; [done|].
  destruct (sel a) eqn:Hs; [discriminate|].
  intros H. rewrite (IH H). reflexivity.
Qed.

Lemma update_first_hit sel f db p :
  List.find sel db = Some p → (update_first sel f db).2 = Some (f p).
Proof.
  induction db as [|a db IH]; simpl; [discriminate|].
  destruct (sel a) eqn:Hs; simpl.
  - intros [= ->]. reflexivity.
  - intros H. specialize (IH H).
    destruct (update_first sel f db) as [db' r]. exact IH.
Qed.

Lemma remove_first_Forall (P : product → Prop) sel db :
  Forall P db → Forall P (remove_first sel db).1.
Proof.
  induction 1 as [|p db Hp Hdb IH]; simpl; [constructor|].
  destruct (sel p); simpl; [exact Hdb|].
  destruct (remove_first sel db) as [db' r]. simpl in *. constructor; auto.
Qed.

Lemma preSave_stock p : num_lt (stock (preSave p)) (int 0) = false.
Proof.
  unfold preSave. destruct (num_lt (stock p) (int 0)) eqn:H; simpl.
  - reflexivity.
  - exact H.
Qed.

Lemma preSave_negative p :
  num_lt (stock p) (int 0) = true → stock (preSave p) = int 0.
Proof. intros H. unfold preSave. rewrite H. reflexivity. Qed.

Lemma preSave_valid p : num_le (int 0) (stock p) = true → preSave p = p.
Proof.
  intros H. unfold preSave. rewrite (num_le_not_lt _ _ H). reflexivity.
Qed.

Lemma save_stock_ok d data db : stock_ok db → stock_ok (save d data db).1.
Proof.
  intros H. unfold save.
  destruct (build d data) as [p|]; simpl; [|exact H].
  destruct (existsb _ db); simpl; [exact H|].
  apply Forall_app. split; [exact H|].
  constructor; [apply preSave_stock|constructor].
Qed.

Lemma validate_update_stock a n :
  validate_update a = true → set_stock a = Some n → num_le (int 0) n = true.
Proof.
  unfold validate_update. intros H Hs. rewrite Hs in H. simpl in H.
  apply andb_prop in H as [_ H]. exact H.
Qed.

Lemma findByIdAndUpdate_stock_ok t id upd db :
  stock_ok db → stock_ok (findByIdAndUpdate t id upd db).1.
Proof.
  intros H. unfold findByIdAndUpdate.
  destruct (cast_update upd) as [a|]; [|exact H].
  destruct (validate_update a) eqn:Hv; [|exact H].
  pose proof (update_first_Forall (λ p, num_lt (stock p) (int 0) = false)
                (has_id id) (apply_set t a) db) as HF.
  destruct (update_first (has_id id) (apply_set t a) db) as [db' r].
  simpl in *. apply HF; [|exact H].
  intros p _ Hp. simpl.
  destruct (set_stock a) as [n|] eqn:Hs; simpl; [|exact Hp].
  apply num_le_not_lt. eapply validate_update_stock; eauto.
Qed.

Lemma findOneAndUpdate_stock_ok t id guard delta db :
  inc_safe guard delta →
  stock_ok db → stock_ok (findOneAndUpdate t id guard delta db).1.
Proof.
  intros Hsafe H. unfold findOneAndUpdate.
  destruct (is_NaN delta || from_option is_NaN false guard); [exact H|].
  pose proof (update_first_Forall (λ p, num_lt (stock p) (int 0) = false)
                (stock_filter id guard) (apply_inc t delta) db) as HF.
  destruct (update_first _ _ db) as [db' r]. simpl in *.
  apply HF; [|exact H].
  intros p Hsel Hp. simpl.
  unfold stock_filter in Hsel. apply andb_prop in Hsel as [_ Hg].
  destruct guard as [q|]; simpl in Hsafe.
  - by apply (x_add_guarded _ q).
  - by apply x_add_nonneg.
Qed.

Lemma findOneAndUpdate_threw t id guard delta db :
  is_NaN delta || from_option is_NaN false guard = true →
  findOneAndUpdate t id guard delta db = (db, Threw).
Proof. intros H. unfold findOneAndUpdate. by rewrite H. Qed.

Lemma exec_stock_ok {R} (c : cmd R) db :
  cmd_safe c → stock_ok db → stock_ok (exec c db).1.
Proof.
  destruct c; simpl; intros Hc H; try exact H.
  - by apply save_stock_ok.
  - by apply findByIdAndUpdate_stock_ok.
  - destruct Hc as [Hc|Hc].
    + by rewrite findOneAndUpdate_threw.
    + by apply findOneAndUpdate_stock_ok.
  - by apply remove_first_Forall.
Qed.

Lemma exec_read_only {R} (c : cmd R) db : read_only c = true → (exec c db).1 = db.
Proof. destruct c; simpl; intros H; done. Qed.

Lemma run_stock_ok {A} (m : prog A) db :
  prog_safe m → stock_ok db → stock_ok (run m db).1.
Proof.
  revert db. induction m as [a|R c k IH]; intros db Hm H; simpl.
  - exact H.
  - destruct Hm as [Hc Hk].
    pose proof (exec_stock_ok c db Hc H) as H1.
    destruct (exec c db) as [db' r]. simpl in H1. apply IH; [apply Hk|exact H1].
Qed.

Lemma run_reads {A} (m : prog A) db : prog_reads m → (run m db).1 = db.
Proof.
  revert db. induction m as [a|R c k IH]; intros db Hm; simpl.
  - reflexivity.
  - destruct Hm as [Hc Hk].
    pose proof (exec_read_only c db Hc) as H1.
    destruct (exec c db) as [db' r]. simpl in H1. subst db'. apply IH, Hk.
Qed.

(** *** Every handler sends safe requests only *)

Lemma after_update_safe what r : prog_safe (after_update what r).
Proof. destruct r as [[p|]|]; constructor. Qed.

Lemma le0_false_cases q :
  num_le q (int 0) = false → is_NaN q = true ∨ num_lt (int 0) q = true.
Proof.
  destruct q as [| |a|]; simpl; try done; [by left| |by right].
  rewrite bool_decide_eq_false. intros H. right.
  apply bool_decide_eq_true. by apply Qcnot_le_lt.
Qed.

Lemma x_neg_NaN q : is_NaN (x_neg q) = is_NaN q.
Proof. by destruct q. Qed.

Lemma num_le_refl_neg q : is_NaN q = false → num_le (x_neg q) (x_neg q) = true.
Proof.
  destruct q as [| |a|]; simpl; try done. intros _.
  apply bool_decide_eq_true. apply Qcle_refl.
Qed.

Lemma patch_id_stock_safe t id body : prog_safe (patch_id_stock t id body).
Proof.
  unfold patch_id_stock.
  destruct (negb (isValidObjectId id)); [constructor|].
  destruct (negb (is_number (prop body "quantity")) || le0 (prop body "quantity"))
    eqn:Hq; [constructor|].
  apply orb_false_elim in Hq as [_ Hq].
  constructor.
  - cbn [cmd_safe]. unfold le0 in Hq.
    destruct (is_NaN (num_of (prop body "quantity"))) eqn:Hn.
    + left. destruct (is_decrement (prop body "operation")); cbn [from_option].
      * by rewrite x_neg_NaN, Hn.
      * by rewrite Hn.
    + right. destruct (is_decrement (prop body "operation")); unfold inc_safe.
      * by apply num_le_refl_neg.
      * destruct (le0_false_cases _ Hq) as [H|H]; [congruence|].
        by apply num_lt_le.
  - intros [[u|]|]; [constructor| |constructor].
    constructor; [exact I|]. intros [p|]; constructor.
Qed.

Lemma handler_safe r : prog_safe (handler r).
Proof.
  destruct r; simpl.
  - unfold post_root.
    repeat (match goal with |- context [if ?b then _ else _] => destruct b end;
            try constructor).
    + exact I.
    + intros [p|]; constructor.
  - unfold get_root.
    constructor; [exact I|]. intros [products|].
    + constructor; [exact I|]. intros [total|]; constructor.
    + constructor; [exact I|]. intros total. constructor.
  - unfold get_search.
    destruct (negb (truthy q) || negb (is_string q) || blank q); [constructor|].
    destruct (RegExp_i (sanitizeString (str_of q))) as [re|]; [|constructor].
    constructor; [exact I|]. intros [products|]; constructor.
  - unfold get_id.
    destruct (negb (isValidObjectId id)); [constructor|].
    constructor; [exact I|]. intros [p|]; constructor.
  - unfold put_id.
    destruct (negb (isValidObjectId id)); [constructor|].
    destruct (put_checks body) as [bad|u]; [constructor|].
    destruct (bool_decide (u = ∅)); [constructor|].
    constructor; [exact I|]. apply after_update_safe.
  - unfold patch_id.
    destruct (negb (isValidObjectId id)); [constructor|].
    destruct (bool_decide (patch_updateData updates = ∅)); [constructor|].
    constructor; [exact I|]. apply after_update_safe.
  - unfold delete_id.
    destruct (negb (isValidObjectId id)); [constructor|].
    constructor; [exact I|]. intros [p|]; constructor.
  - apply patch_id_stock_safe.
Qed.

Lemma step_invariant s s' :
  step s s' →
  stock_ok s.1 ∧ Forall prog_safe s.2 →
  stock_ok s'.1 ∧ Forall prog_safe s'.2.
Proof.
  intros Hstep [Hdb Hpool]. destruct Hstep as
    [db pool r | db db' l1 l2 R c k a Hexec | db l1 l2 a]; simpl in *.
  - split; [exact Hdb|]. constructor; [|exact Hpool].
    apply handler_safe.
  - apply Forall_app in Hpool as [H1 H2].
    apply Forall_cons in H2 as [[Hsafe Hk] H2].
    split.
    + pose proof (exec_stock_ok c db Hsafe Hdb) as H. by rewrite Hexec in H.
    + apply Forall_app. split; [exact H1|]. constructor; [apply Hk|exact H2].
  - apply Forall_app in Hpool as [H1 H2].
    apply Forall_cons in H2 as [_ H2].
    split; [exact Hdb|]. apply Forall_app. by split.
Qed.

Lemma reachable_invariant db0 s :
  stock_ok db0 → reachable db0 s → stock_ok s.1 ∧ Forall prog_safe s.2.
Proof.
  intros H0. induction 1 as [|s s' _ IH Hstep].
  - split; [exact H0|constructor].
  - eapply step_invariant; eauto.
Qed.

Lemma serve_stock_ok rs db : stock_ok db → stock_ok (serve rs db).1.
Proof.
  revert db. induction rs as [|r rs IH]; intros db H; simpl; [exact H|].
  pose proof (run_stock_ok (handler r) db (handler_safe r) H) as H1.
  destruct (run (handler r) db) as [db1 a]. simpl in H1.
  specialize (IH db1 H1). destruct (serve rs db1) as [db2 answers]. exact IH.
Qed.

(** *** The stock handler *)

Lemma patch_id_stock_accepts t id body q :
  isValidObjectId id = true →
  prop body "quantity" = VNum q →
  num_le q (int 0) = false →
  patch_id_stock t id body =
    Call (FindOneAndUpdate t id (stock_guard q (prop body "operation"))
            (stock_delta q (prop body "operation")))
      (λ updated,
         match updated with
         | Returned None =>
             Call (FindById id) (λ product,
               match product with
               | None => Ret not_found
               | Some _ => Ret insufficient_stock
               end)
         | Returned (Some u) => Ret (respond 200 (JProduct u))
         | Threw => Ret (server_error "Failed to update stock")
         end).
Proof.
  intros Hid Hq Hpos. unfold patch_id_stock. rewrite Hid, Hq.
  cbn [negb is_number typeof orb num_of]. unfold le0. cbn [num_of].
  rewrite Hpos. reflexivity.
Qed.

Lemma patch_id_stock_run t id body q db :
  isValidObjectId id = true →
  prop body "quantity" = VNum q →
  num_le q (int 0) = false →
  run (patch_id_stock t id body) db =
    match findOneAndUpdate t id (stock_guard q (prop body "operation"))
            (stock_delta q (prop body "operation")) db with
    | (db', Returned (Some u)) => (db', respond 200 (JProduct u))
    | (db', Returned None) =>
        (db', match findById id db' with
              | None => not_found
              | Some _ => insufficient_stock
              end)
    | (db', Threw) => (db', server_error "Failed to update stock")
    end.
Proof.
  intros Hid Hq Hpos. rewrite (patch_id_stock_accepts t id body q Hid Hq Hpos).
  cbn [run exec].
  destruct (findOneAndUpdate t id _ _ db) as [db' [[u|]|]]; cbn [run exec];
    [reflexivity| |reflexivity].
  destruct (findById id db'); reflexivity.
Qed.

Lemma positive_not_NaN q : num_lt (int 0) q = true → is_NaN q = false.
Proof. by destruct q. Qed.

Lemma findOneAndUpdate_positive t id q op db :
  num_lt (int 0) q = true →
  findOneAndUpdate t id (stock_guard q op) (stock_delta q op) db =
    let '(db', r) :=
      update_first (stock_filter id (stock_guard q op))
        (apply_inc t (stock_delta q op)) db in
    (db', Returned r).
Proof.
  intros Hq. unfold findOneAndUpdate, stock_guard, stock_delta.
  pose proof (positive_not_NaN _ Hq) as Hn.
  destruct (is_decrement op); cbn [from_option].
  - by rewrite x_neg_NaN, Hn.
  - by rewrite Hn.
Qed.


Lemma find_some_sel (f : product → bool) db p :
  List.find f db = Some p → f p = true ∧ p ∈ db.
Proof.
  intros H. apply List.find_some in H as [Hin Hf].
  split; [exact Hf|]. by apply list_elem_of_In.
Qed.

Lemma find_update_first sel f db p :
  List.find sel db = Some p → sel (f p) = true →
  List.find sel (update_first sel f db).1 = Some (f p).
Proof.
  induction db as [|a db IH]; simpl; [discriminate|].
  destruct (sel a) eqn:Hs; simpl.
  - intros [= ->] Hf. by rewrite Hf.
  - intros H Hf. specialize (IH H Hf).
    destruct (update_first sel f db) as [db' r]. simpl in *. by rewrite Hs.
Qed.

Lemma update_first_elem sel f db p :
  List.find sel db = Some p → f p ∈ (update_first sel f db).1.
Proof.
  induction db as [|a db IH]; simpl; [discriminate|].
  destruct (sel a) eqn:Hs; simpl.
  - intros [= ->]. apply elem_of_cons. by left.
  - intros H. specialize (IH H).
    destruct (update_first sel f db) as [db' r]. simpl in *.
    apply elem_of_cons. by right.
Qed.

Lemma has_id_same_id id p : has_id id p = true ↔ same_id id p.
Proof. unfold has_id, same_id. apply String.eqb_eq. Qed.

Lemma findById_Some id db p : findById id db = Some p → p ∈ db ∧ same_id id p.
Proof.
  intros H. apply find_some_sel in H as [Hs Hin].
  split; [exact Hin|]. by apply has_id_same_id.
Qed.

Lemma findById_None id db :
  findById id db = None ↔ ¬ ∃ p, p ∈ db ∧ same_id id p.
Proof.
  unfold findById. split.
  - intros H (p & Hin & Hp). apply list_elem_of_In in Hin.
    pose proof (List.find_none _ _ H p Hin) as Hf.
    apply has_id_same_id in Hp. congruence.
  - intros H. destruct (List.find (has_id id) db) as [p|] eqn:E; [|reflexivity].
    exfalso. apply H. exists p. by apply findById_Some.
Qed.

(** *** Creation *)

Lemma post_productData_stock body :
  post_productData body !! "stock" =
    if is_number (prop body "stock") && ge0 (prop body "stock")
    then Some (VNum (Math_floor (num_of (prop body "stock"))))
    else None.
Proof.
  unfold post_productData.
  repeat case_if;
    by simplify_map_eq.
Qed.

Lemma castNumber_Some v n : castNumber v = Some n → v = VNum n ∧ is_NaN n = false.
Proof.
  destruct v as [| |b|[| |a|]|s|l|o]; simpl; try discriminate;
    intros [= <-]; done.
Qed.

Lemma build_stock d data p :
  build d data = Some p →
  match data !! "stock" with
  | Some v => castNumber v = Some (stock p)
  | None => stock p = int 0
  end ∧ num_le (int 0) (stock p) = true.
Proof.
  unfold build. intros H.
  destruct (match data !! "name" with Some v => castString v | None => Some None end)
    as [nm|]; simpl in H; [|discriminate].
  destruct (match data !! "price" with Some v => Some <$> castNumber v | None => Some None end)
    as [pr|]; simpl in H; [|discriminate].
  destruct (match data !! "description" with Some v => castString v | None => Some (Some "") end)
    as [ds|]; simpl in H; [|discriminate].
  destruct (match data !! "category" with Some v => castString v | None => Some (Some "uncategorized") end)
    as [ct|]; simpl in H; [|discriminate].
  destruct (match data !! "stock" with Some v => castNumber v | None => Some (int 0) end)
    as [st|] eqn:Hst; simpl in H; [|discriminate].
  destruct nm as [nm|]; [|discriminate]. destruct pr as [pr|]; [|discriminate].
  destruct (valid_name (Some nm) && valid_min0 pr && valid_maxlength 2000 ds
            && valid_maxlength 100 ct && valid_min0 st) eqn:Hv; [|discriminate].
  injection H as <-. cbn [stock].
  apply andb_prop in Hv as [_ Hv].
  split; [|exact Hv].
  destruct (data !! "stock"); [exact Hst|congruence].
Qed.

Lemma post_root_created d body db db' p :
  run (post_root d body) db = (db', respond 201 (JProduct p)) →
  ∃ p0, build d (post_productData body) = Some p0 ∧ p = preSave p0
        ∧ db' = (db ++ [p])%list.
Proof.
  unfold post_root.
  destruct (negb (truthy (prop body "name")) || negb (is_string (prop body "name"))
            || blank (prop body "name")); [discriminate|].
  destruct (negb (is_number (prop body "price")) || Number_isNaN (prop body "price")
            || lt0 (prop body "price")); [discriminate|].
  cbn [run exec]. unfold save.
  destruct (build d (post_productData body)) as [p0|]; [|discriminate].
  destruct (existsb _ db); [discriminate|].
  cbn [run]. intros [= <- <-]. eauto.
Qed.

Lemma post_root_stock d body db db' p :
  run (post_root d body) db = (db', respond 201 (JProduct p)) →
  stock p =
    if is_number (prop body "stock") && ge0 (prop body "stock")
    then Math_floor (num_of (prop body "stock")) else int 0.
Proof.
  intros H. apply post_root_created in H as (p0 & Hb & -> & _).
  apply build_stock in Hb as [Hs Hge]. rewrite (preSave_valid _ Hge).
  rewrite post_productData_stock in Hs.
  destruct (is_number (prop body "stock") && ge0 (prop body "stock")).
  - apply castNumber_Some in Hs as [Hs _]. congruence.
  - exact Hs.
Qed.


Lemma is_decrement_true op : is_decrement op = true → op = VStr "decrement".
Proof.
  destruct op as [| |b|n|s|l|o]; simpl; try discriminate.
  intros H. apply String.eqb_eq in H. by subst.
Qed.

Lemma ge0_cases n :
  num_le (int 0) n = true → (∃ q, n = XFin q) ∨ n = XPosInf.
Proof. destruct n as [| |a|]; simpl; try done; eauto. Qed.


(** C1, as amended.  From a collection without a stock below zero (the
    empty one, say), no document of a reachable collection has a stock
    below zero, whatever requests are served and however their handlers
    are interleaved, and the same holds for requests served one after the
    other.  A decrement by [q] is one store request that carries both the
    guard [stock >= q] and the increment [-q], followed by reads only, and
    it answers 200 only for a stored document with that ObjectId whose
    stock was at least [q], and with the binary64 sum of that stock and
    [-q] as the new stock.  A product that has been created has a stock
    that is at least zero: an integer or [Infinity]; a stock below zero in
    the body gives the stock 0; and the pre-save middleware turns a stock
    below zero into 0. *)
Theorem stock_never_negative :
  (∀ db0 s, stock_ok db0 → reachable db0 s → stock_ok s.1) ∧
  (∀ rs db, stock_ok db → stock_ok (serve rs db).1) ∧
  (∀ t id body q,
     isValidObjectId id = true →
     prop body "quantity" = VNum q →
     num_lt (int 0) q = true →
     prop body "operation" = VStr "decrement" →
     (∃ k, patch_id_stock t id body =
             Call (FindOneAndUpdate t id (Some q) (x_neg q)) k
           ∧ ∀ r, prog_reads (k r)) ∧
     (∀ db db' r,
        run (patch_id_stock t id body) db = (db', r) →
        status r = 200 →
        ∃ p p', payload r = JProduct p' ∧ p ∈ db ∧ same_id id p
                ∧ num_le q (stock p) = true
                ∧ stock p' = x_add (stock p) (x_neg q)
                ∧ _id p' = _id p ∧ p' ∈ db')) ∧
  (∀ d body db db' p,
     run (post_root d body) db = (db', {| status := 201; payload := JProduct p |}) →
     num_le (int 0) (stock p) = true ∧
     (is_integer (stock p) ∨ stock p = XPosInf) ∧
     (∀ n, prop body "stock" = VNum n → num_lt n (int 0) = true → stock p = int 0)) ∧
  (∀ p, num_lt (stock (preSave p)) (int 0) = false ∧
        (num_lt (stock p) (int 0) = true → stock (preSave p) = int 0)).
Proof.
  split; [|split; [|split; [|split]]].
  - intros db0 s H0 Hs. by apply (reachable_invariant db0).
  - intros rs db. apply serve_stock_ok.
  - intros t id body q Hid Hq Hpos Hop.
    pose proof (num_lt_not_le _ _ Hpos) as Hle. split.
    + eexists. split.
      * rewrite (patch_id_stock_accepts t id body q Hid Hq Hle).
        unfold stock_guard, stock_delta. rewrite Hop. cbn [is_decrement String.eqb].
        reflexivity.
      * intros [[u|]|]; cbn [prog_reads]; [exact I| |exact I].
        split; [reflexivity|]. intros [p|]; exact I.
    + intros db db' r. rewrite (patch_id_stock_run t id body q db Hid Hq Hle).
      rewrite (findOneAndUpdate_positive _ _ _ _ _ Hpos).
      unfold stock_guard, stock_delta. rewrite Hop.
      change (is_decrement (VStr "decrement")) with true. cbv iota.
      pose proof (update_first_Some (stock_filter id (Some q))
                    (apply_inc t (x_neg q)) db) as HS.
      pose proof (update_first_elem (stock_filter id (Some q))
                    (apply_inc t (x_neg q)) db) as HE.
      destruct (update_first _ _ db) as [db1 [u|]]; simpl in HS, HE.
      * intros [= -> <-] _. destruct (HS _ eq_refl) as (p & Hfind & ->).
        specialize (HE _ Hfind).
        apply find_some_sel in Hfind as [Hsel Hin].
        unfold stock_filter in Hsel. apply andb_prop in Hsel as [Hi Hg].
        exists p, (apply_inc t (x_neg q) p).
        split; [reflexivity|]. split; [exact Hin|].
        split; [by apply has_id_same_id|]. split; [exact Hg|].
        split; [reflexivity|]. split; [reflexivity|exact HE].
      * destruct (findById id db1); intros [= _ <-]; discriminate.
  - intros d body db db' p H.
    pose proof (post_root_stock _ _ _ _ _ H) as Hs.
    split; [|split].
    + rewrite Hs.
      destruct (is_number (prop body "stock") && ge0 (prop body "stock")) eqn:E.
      * apply andb_prop in E as [_ E]. by apply Math_floor_nonneg.
      * reflexivity.
    + rewrite Hs.
      destruct (is_number (prop body "stock") && ge0 (prop body "stock")) eqn:E.
      * apply andb_prop in E as [_ E]. unfold ge0 in E.
        destruct (ge0_cases _ E) as [[a Ha]| Ha]; rewrite Ha.
        -- left. eexists. reflexivity.
        -- by right.
      * left. exists 0. reflexivity.
    + intros n Hn Hneg. rewrite Hs, Hn. cbn [is_number typeof andb].
      assert (ge0 (VNum n) = false) as ->; [|reflexivity].
      unfold ge0. cbn [num_of]. by apply num_lt_not_le.
  - intros p. split; [apply preSave_stock|apply preSave_negative].
Qed.

(** C3.  A stock request with a valid identifier and a positive quantity
    sends the conditional update and, when that matches no document, a
    lookup of the identifier; it answers 404 "Not found" when the lookup
    finds nothing and 400 "Insufficient stock" when it finds a document.
    The lookup leaves the collection as it is and finds nothing exactly
    when no stored document has the ObjectId of the identifier.  Served
    with no other request in between, a stock request whose update
    matches no document leaves the collection as it is and answers 404
    when no document has that ObjectId, and 400 when one has it, in which
    case the request was a decrement that the stock of no such document
    covered. *)
Theorem stock_update_miss t id body q :
  isValidObjectId id = true →
  prop body "quantity" = VNum q →
  num_lt (int 0) q = true →
  (∃ k k',
     patch_id_stock t id body =
       Call (FindOneAndUpdate t id (stock_guard q (prop body "operation"))
               (stock_delta q (prop body "operation"))) k
     ∧ k (Returned None) = Call (FindById id) k'
     ∧ k' None =
         Ret {| status := 404; payload := JError "Not found" "Product not found" |}
     ∧ ∀ p, k' (Some p) =
         Ret {| status := 400;
                payload := JError "Insufficient stock" "Not enough stock to decrement" |}) ∧
  (∀ db, exec (FindById id) db = (db, findById id db) ∧
         (findById id db = None ↔ ¬ ∃ p, p ∈ db ∧ same_id id p)) ∧
  ∀ db,
    (findOneAndUpdate t id (stock_guard q (prop body "operation"))
       (stock_delta q (prop body "operation")) db).2 = Returned None →
    ∃ r, run (patch_id_stock t id body) db = (db, r) ∧
      ((r = {| status := 404; payload := JError "Not found" "Product not found" |}
        ∧ ¬ ∃ p, p ∈ db ∧ same_id id p)
       ∨
       (r = {| status := 400;
               payload := JError "Insufficient stock" "Not enough stock to decrement" |}
        ∧ (∃ p, p ∈ db ∧ same_id id p)
        ∧ prop body "operation" = VStr "decrement"
        ∧ ∀ p, p ∈ db → same_id id p → num_le q (stock p) = false)).
Proof.
  intros Hid Hq Hpos.
  pose proof (num_lt_not_le _ _ Hpos) as Hle.
  split; [|split].
  - rewrite (patch_id_stock_accepts t id body q Hid Hq Hle).
    eexists _, _. split; [reflexivity|]. split; [reflexivity|].
    split; [reflexivity|]. intros p. reflexivity.
  - intros db. split; [reflexivity|apply findById_None].
  - intros db Hmiss.
    rewrite (patch_id_stock_run t id body q db Hid Hq Hle).
    rewrite (findOneAndUpdate_positive _ _ _ _ _ Hpos) in *.
    pose proof (update_first_None (stock_filter id (stock_guard q (prop body "operation")))
                  (apply_inc t (stock_delta q (prop body "operation"))) db) as HN.
    destruct (update_first _ _ db) as [db1 r1] eqn:HU. simpl in Hmiss, HN.
    injection Hmiss as ->. destruct HN as [HN _]. specialize (HN eq_refl).
    rewrite (update_first_miss _ _ _ HN) in HU. injection HU as <-.
    destruct (findById id db) as [p|] eqn:Hfind.
    + eexists. split; [reflexivity|]. right. split; [reflexivity|].
      pose proof (findById_Some _ _ _ Hfind) as [Hin Hp].
      split; [by exists p|].
      assert (∀ x, x ∈ db → same_id id x →
                is_decrement (prop body "operation") = true
                ∧ num_le q (stock x) = false) as Hall.
      { intros x Hx Hsame. apply list_elem_of_In in Hx.
        pose proof (List.find_none _ _ HN x Hx) as Hf.
        apply has_id_same_id in Hsame.
        unfold stock_filter, stock_guard in Hf. rewrite Hsame in Hf.
        destruct (is_decrement (prop body "operation")); [|discriminate].
        by split. }
      split.
      * apply is_decrement_true. by apply (Hall p).
      * intros x Hx Hsame. by apply (Hall x).
    + eexists. split; [reflexivity|]. left. split; [reflexivity|].
      by apply findById_None.
Qed.


(** *** Partial update *)

Lemma patch_step_lookup updates u f k :
  patch_step updates u f !! k =
    if bool_decide (k = f)
       && negb (is_undefined (prop updates f)) && patch_valid f (prop updates f)
    then Some (patch_clean (prop updates f))
    else u !! k.
Proof.
  unfold patch_step, patch_valid, patch_clean.
  destruct (negb (is_undefined (prop updates f))); simpl;
    [|by rewrite andb_false_r].
  rewrite andb_true_r.
  destruct (String.eqb_spec f "name") as [->|Hn].
  { destruct (is_string (prop updates "name")) eqn:Hs; simpl;
      [|by rewrite andb_false_r].
    destruct (blank (prop updates "name")); simpl; [by rewrite andb_false_r|].
    rewrite andb_true_r. case_bool_decide; by simplify_map_eq. }
  destruct (String.eqb_spec f "price") as [->|Hp].
  { simpl. destruct (is_number (prop updates "price")) eqn:Hs; simpl;
      [|by rewrite andb_false_r].
    destruct (lt0 (prop updates "price")); simpl; [by rewrite andb_false_r|].
    rewrite andb_true_r.
    destruct (prop updates "price"); try discriminate. simpl.
    case_bool_decide; by simplify_map_eq. }
  destruct (String.eqb_spec f "stock") as [->|Hst].
  { simpl. destruct (is_number (prop updates "stock")) eqn:Hs; simpl;
      [|by rewrite andb_false_r].
    destruct (lt0 (prop updates "stock")); simpl; [by rewrite andb_false_r|].
    rewrite andb_true_r.
    destruct (prop updates "stock"); try discriminate. simpl.
    case_bool_decide; by simplify_map_eq. }
  simpl. rewrite andb_true_r.
  destruct (is_string (prop updates f)); case_bool_decide; by simplify_map_eq.
Qed.

Lemma patch_updateData_lookup updates k :
  patch_updateData updates !! k =
    if patch_kept updates k then Some (patch_clean (prop updates k)) else None.
Proof.
  unfold patch_updateData, patch_kept, allowedFields. simpl.
  rewrite !patch_step_lookup, lookup_empty.
  destruct (decide (k ∈ ["name"; "price"; "description"; "category"; "stock"]))
    as [Hin|Hnin].
  - rewrite (bool_decide_eq_true_2 _ Hin).
    repeat (apply elem_of_cons in Hin as [->|Hin]);
      [..|by apply elem_of_nil in Hin];
      cbn [andb];
      repeat match goal with
        | |- context [bool_decide (?a = ?b)] =>
            first [rewrite (bool_decide_eq_true_2 (a = b)) by reflexivity
                  |rewrite (bool_decide_eq_false_2 (a = b)) by discriminate]
        end; cbn [andb];
      repeat case_if; reflexivity.
  - rewrite (bool_decide_eq_false_2 _ Hnin). cbn [andb].
    repeat match goal with
      | |- context [bool_decide (k = ?b)] =>
          rewrite (bool_decide_eq_false_2 (k = b))
            by (intros ->; apply Hnin; repeat constructor)
      end.
    reflexivity.
Qed.


Lemma has_id_apply_set id t a p : has_id id (apply_set t a p) = has_id id p.
Proof. reflexivity. Qed.

Lemma findByIdAndUpdate_returned t id upd db db' p' :
  findByIdAndUpdate t id upd db = (db', Returned (Some p')) →
  ∃ p a, findById id db = Some p ∧ cast_update upd = Some a
         ∧ validate_update a = true
         ∧ p' = apply_set t a p ∧ findById id db' = Some p'.
Proof.
  unfold findByIdAndUpdate, findById.
  destruct (cast_update upd) as [a|]; [|discriminate].
  destruct (validate_update a) eqn:Hv; [|discriminate].
  pose proof (update_first_Some (has_id id) (apply_set t a) db) as HS.
  pose proof (find_update_first (has_id id) (apply_set t a) db) as HF.
  destruct (update_first (has_id id) (apply_set t a) db) as [db1 r]. simpl in *.
  intros [= -> ->]. destruct (HS _ eq_refl) as (p & Hfind & ->).
  exists p, a. repeat split; try done.
  apply HF; [exact Hfind|].
  rewrite has_id_apply_set. by apply find_some_sel in Hfind as [? _].
Qed.


Lemma cast_update_paths u a :
  cast_update u = Some a →
  cast_path castString u "name" = Some (set_name a) ∧
  cast_path castNumber u "price" = Some (set_price a) ∧
  cast_path castString u "description" = Some (set_description a) ∧
  cast_path castString u "category" = Some (set_category a) ∧
  cast_path castNumber u "stock" = Some (set_stock a).
Proof.
  unfold cast_update. intros H.
  destruct (cast_path castString u "name") as [nm|]; [|discriminate].
  destruct (cast_path castNumber u "price") as [pr|]; [|discriminate].
  destruct (cast_path castString u "description") as [ds|]; [|discriminate].
  destruct (cast_path castString u "category") as [ct|]; [|discriminate].
  destruct (cast_path castNumber u "stock") as [st|]; [|discriminate].
  injection H as <-. done.
Qed.





(** *** Full replace *)

Lemma truthy_string_blank v :
  negb (truthy v) || negb (is_string v) || blank v = negb (is_string v) || blank v.
Proof.
  destruct v as [| |b|n|[|a s]|l|o]; simpl; rewrite ?orb_true_r; reflexivity.
Qed.

Lemma is_undefined_false v : is_undefined v = false ↔ v ≠ VUndefined.
Proof. destruct v; simpl; split; congruence. Qed.

Lemma put_checks_inr body u :
  put_checks body = inr u →
  u = put_set body "stock" (put_set body "category" (put_set body "description"
        (put_set body "price" (put_set body "name" ∅)))).
Proof.
  unfold put_checks, put_set.
  destruct (negb (is_undefined (prop body "name"))
            && (negb (is_string (prop body "name")) || blank (prop body "name")));
    [discriminate|].
  destruct (negb (is_undefined (prop body "price"))
            && (negb (is_number (prop body "price"))
                || Number_isNaN (prop body "price") || lt0 (prop body "price")));
    [discriminate|].
  destruct (negb (is_undefined (prop body "stock"))
            && (negb (is_number (prop body "stock")) || lt0 (prop body "stock")));
    [discriminate|].
  intros [= <-].
  destruct (negb (is_undefined (prop body "name")));
  destruct (negb (is_undefined (prop body "price")));
  destruct (negb (is_undefined (prop body "description")));
  destruct (negb (is_undefined (prop body "category")));
  destruct (negb (is_undefined (prop body "stock")));
  reflexivity.
Qed.

Lemma put_set_lookup body u f k :
  put_set body f u !! k =
    if bool_decide (k = f) && negb (is_undefined (prop body f))
    then Some (put_value f (prop body f))
    else u !! k.
Proof.
  unfold put_set. destruct (negb (is_undefined (prop body f)));
    case_bool_decide; by simplify_map_eq.
Qed.

Lemma put_checks_lookup body u k :
  put_checks body = inr u →
  u !! k = if put_present body k then Some (put_value k (prop body k)) else None.
Proof.
  intros ->%put_checks_inr. unfold put_present, allowedFields.
  rewrite !put_set_lookup, lookup_empty.
  destruct (decide (k ∈ ["name"; "price"; "description"; "category"; "stock"]))
    as [Hin|Hnin].
  - rewrite (bool_decide_eq_true_2 _ Hin).
    repeat (apply elem_of_cons in Hin as [->|Hin]);
      [..|by apply elem_of_nil in Hin];
      cbn [andb];
      repeat match goal with
        | |- context [bool_decide (?a = ?b)] =>
            first [rewrite (bool_decide_eq_true_2 (a = b)) by reflexivity
                  |rewrite (bool_decide_eq_false_2 (a = b)) by discriminate]
        end; cbn [andb];
      repeat case_if; reflexivity.
  - rewrite (bool_decide_eq_false_2 _ Hnin). cbn [andb].
    repeat match goal with
      | |- context [bool_decide (k = ?b)] =>
          rewrite (bool_decide_eq_false_2 (k = b))
            by (intros ->; apply Hnin; repeat constructor)
      end.
    reflexivity.
Qed.

Lemma put_checks_shape body :
  put_checks body =
    if negb (is_undefined (prop body "name"))
       && (negb (is_string (prop body "name")) || blank (prop body "name"))
    then inl invalid_name
    else if negb (is_undefined (prop body "price"))
            && (negb (is_number (prop body "price"))
                || Number_isNaN (prop body "price") || lt0 (prop body "price"))
    then inl invalid_price
    else if negb (is_undefined (prop body "stock"))
            && (negb (is_number (prop body "stock")) || lt0 (prop body "stock"))
    then inl invalid_stock
    else inr (put_set body "stock" (put_set body "category"
                (put_set body "description"
                   (put_set body "price" (put_set body "name" ∅))))).
Proof.
  pose proof (put_checks_inr body) as H. revert H. unfold put_checks.
  destruct (negb (is_undefined (prop body "name"))
            && (negb (is_string (prop body "name")) || blank (prop body "name")));
    [reflexivity|].
  destruct (negb (is_undefined (prop body "price"))
            && (negb (is_number (prop body "price"))
                || Number_isNaN (prop body "price") || lt0 (prop body "price")));
    [reflexivity|].
  destruct (negb (is_undefined (prop body "stock"))
            && (negb (is_number (prop body "stock")) || lt0 (prop body "stock")));
    [reflexivity|].
  intros H. by rewrite <- (H _ eq_refl).
Qed.

Lemma post_root_shape d body :
  post_root d body =
    if negb (truthy (prop body "name")) || negb (is_string (prop body "name"))
       || blank (prop body "name")
    then Ret invalid_name_required
    else if negb (is_number (prop body "price"))
            || Number_isNaN (prop body "price") || lt0 (prop body "price")
    then Ret invalid_price
    else Call (Save d (post_productData body)) (λ r,
           match r with
           | Returned saved => Ret (respond 201 (JProduct saved))
           | Threw => Ret (server_error "Failed to create product")
           end).
Proof. reflexivity. Qed.

Lemma nonneg_number v :
  is_number v && negb (lt0 v) = true ↔ ∃ n, v = VNum n ∧ num_lt n (int 0) = false.
Proof.
  destruct v as [| |b|n|s|l|o]; simpl; split;
    try discriminate; try (intros (m & Hm & _); discriminate).
  - unfold lt0. cbn [num_of]. intros H. exists n. split; [reflexivity|].
    by destruct (num_lt n (int 0)).
  - intros (m & [= <-] & Hm). unfold lt0. cbn [num_of]. by rewrite Hm.
Qed.

(** C6, as amended.  For a full replace with a valid identifier: a name
    that is present is rejected exactly when creation rejects it, and so
    is a price that is present; no description and no category is
    rejected by either; a stock that is present and is not a number, or
    is a number below zero, is rejected with 400 "Invalid stock", whereas
    creation rejects no stock at all.  When no check fails, the update set holds exactly
    the properties among the five that are present, each with the value of
    [put_value]; the handler answers 400 "No data" exactly when none of
    the five is present, and otherwise sends the update set to the
    store. *)
Theorem put_validation t id d body :
  isValidObjectId id = true →
  (prop body "name" ≠ VUndefined →
     (post_root d body = Ret invalid_name_required
      ↔ put_checks body = inl invalid_name)) ∧
  (prop body "name" ≠ VUndefined → prop body "price" ≠ VUndefined →
     (post_root d body = Ret invalid_price
      ↔ put_checks body = inl invalid_price)) ∧
  (∀ r, put_checks body = inl r →
        r = invalid_name ∨ r = invalid_price ∨ r = invalid_stock) ∧
  (∀ r, post_root d body = Ret r →
        r = invalid_name_required ∨ r = invalid_price) ∧
  (put_checks body = inl invalid_stock ↔
     put_checks body ≠ inl invalid_name ∧
     put_checks body ≠ inl invalid_price ∧
     prop body "stock" ≠ VUndefined ∧
     ¬ ∃ n, prop body "stock" = VNum n ∧ num_lt n (int 0) = false) ∧
  (∀ u k, put_checks body = inr u →
          u !! k = if put_present body k
                   then Some (put_value k (prop body k)) else None) ∧
  (put_id t id body = Ret no_data ↔
     ∀ k, k ∈ allowedFields → prop body k = VUndefined) ∧
  (∀ u, put_checks body = inr u → u ≠ ∅ →
        put_id t id body =
          Call (FindByIdAndUpdate t id u) (after_update "Failed to update product")).
Proof.
  intros Hid.
  pose proof (put_checks_shape body) as HP.
  pose proof (post_root_shape d body) as HC.
  pose proof (truthy_string_blank (prop body "name")) as HN.
  pose proof (nonneg_number (prop body "stock")) as HS.
  split; [|split; [|split; [|split; [|split; [|split; [|split]]]]]].
  - intros Hn%is_undefined_false. rewrite HP, HC, HN, Hn. simpl.
    destruct (negb (is_string (prop body "name")) || blank (prop body "name")).
    + done.
    + repeat case_if; split; intros H; discriminate H.
  - intros Hn%is_undefined_false Hp%is_undefined_false.
    rewrite HP, HC, HN, Hn, Hp. simpl.
    destruct (negb (is_string (prop body "name")) || blank (prop body "name")).
    + split; intros H; discriminate H.
    + destruct (negb (is_number (prop body "price"))
                || Number_isNaN (prop body "price") || lt0 (prop body "price")).
      * done.
      * repeat case_if; split; intros H; discriminate H.
  - intros r. rewrite HP.
    repeat case_if; intros [= <-]; auto.
  - intros r. rewrite HC.
    repeat case_if; intros [= <-]; auto.
  - rewrite HP.
    destruct (negb (is_undefined (prop body "name"))
              && (negb (is_string (prop body "name")) || blank (prop body "name"))).
    { split; [intros H; discriminate H|]. intros [H _]. done. }
    destruct (negb (is_undefined (prop body "price"))
              && (negb (is_number (prop body "price"))
                  || Number_isNaN (prop body "price") || lt0 (prop body "price"))).
    { split; [intros H; discriminate H|]. intros (_ & H & _). done. }
    destruct (is_undefined (prop body "stock")) eqn:Hu; simpl.
    { split; [intros H; discriminate H|]. intros (_ & _ & H & _).
      destruct (prop body "stock"); try discriminate. done. }
    apply is_undefined_false in Hu.
    destruct (is_number (prop body "stock") && negb (lt0 (prop body "stock")))
      eqn:Hv.
    + assert (negb (is_number (prop body "stock")) || lt0 (prop body "stock") = false)
        as ->.
      { apply andb_prop in Hv as [-> Hl]. simpl. by destruct (lt0 _). }
      split; [intros H; discriminate H|]. intros (_ & _ & _ & H).
      exfalso. apply H. by apply HS.
    + assert (negb (is_number (prop body "stock")) || lt0 (prop body "stock") = true)
        as ->.
      { destruct (is_number _); simpl in *; [|reflexivity]. by destruct (lt0 _). }
      split; [|done]. intros _.
      repeat split; try (intros H; discriminate H); [exact Hu|].
      intros H. apply HS in H. congruence.
  - intros u k Hu. by apply put_checks_lookup.
  - unfold put_id. rewrite Hid. simpl. clear HC HN HS.
    destruct (put_checks body) as [bad|u] eqn:Hchk.
    + split.
      * intros [= ->].
        repeat match type of HP with
          | context [if ?b then _ else _] => destruct b
          end; discriminate HP.
      * intros Habs. exfalso.
        rewrite !Habs in HP by (unfold allowedFields; repeat constructor).
        discriminate HP.
    + pose proof (λ k, put_checks_lookup body u k Hchk) as Hl.
      case_bool_decide as He.
      * split; [|done]. intros _ k Hk. specialize (Hl k).
        rewrite He, lookup_empty in Hl. unfold put_present in Hl.
        rewrite (bool_decide_eq_true_2 _ Hk) in Hl.
        destruct (prop body k); simpl in Hl; congruence.
      * split; [intros H; discriminate H|]. intros Habs. exfalso. apply He.
        apply map_eq. intros k. rewrite Hl, lookup_empty. unfold put_present.
        case_bool_decide as Hk; [|reflexivity].
        by rewrite (Habs k Hk).
  - intros u Hu Hne. unfold put_id. rewrite Hid, Hu. simpl.
    by rewrite bool_decide_eq_false_2.
Qed.

(** *** Sorting and paging *)

Lemma elem_of_firstn {A} (x : A) n l : x ∈ firstn n l → x ∈ l.
Proof.
  intros (i & Hi & _)%elem_of_take. apply list_elem_of_lookup. eauto.
Qed.


Lemma store_sort_length field dir f l :
  store_sort field dir = Some f → List.length (f l) = List.length l.
Proof. intros H. eapply Permutation_length, store_sort_perm, H. Qed.

Lemma elem_of_filter_bool (f : product → bool) l x :
  x ∈ List.filter f l ↔ x ∈ l ∧ f x = true.
Proof. rewrite !list_elem_of_In. apply filter_In. Qed.



(** *** The list *)




Lemma get_root_run q db :
  run (get_root q) db =
    (db,
     match find (list_filter q) (list_sortField q) (list_sortOrder q)
             (list_skip q) (list_limit q) db,
           countDocuments (list_filter q) db with
     | Returned products, Returned total =>
         respond 200
           (JPage products
              {| page := list_page q; limit := list_limit q; total := total;
                 pages := page_count total (list_limit q);
                 hasNext := list_page q * list_limit q <? total;
                 hasPrev := 1 <? list_page q |})
     | _, _ => server_error "Failed to fetch products"
     end).
Proof.
  unfold get_root. cbn [run exec].
  fold (list_sortField q) (list_sortOrder q).
  destruct (find _ _ _ _ _ db) as [products|];
    [destruct (countDocuments _ db) as [total|]|]; reflexivity.
Qed.




(** *** Search *)

Lemma get_search_shape q :
  get_search q =
    if negb (is_string q) || blank q then
      Ret (respond 400 (JError "Invalid query" "Search query is required"))
    else
      match RegExp_i (sanitizeString (str_of q)) with
      | None => Ret (server_error "Failed to search products")
      | Some searchRegex =>
          Call (Find (ByRegex searchRegex) "createdAt" Desc 0 50) (λ found,
            match found with
            | Returned products =>
                Ret (respond 200 (JSearch products (List.length products)))
            | Threw => Ret (server_error "Failed to search products")
            end)
      end.
Proof. unfold get_search. by rewrite truthy_string_blank. Qed.

Lemma matches_regex r p :
  matches (ByRegex r) p = true ↔
  r (name p) = true ∨ (∃ d, description p = Some d ∧ r d = true)
  ∨ (∃ c, category p = Some c ∧ r c = true).
Proof.
  cbn [matches regexp_matches]. rewrite !orb_true_iff. split.
  - intros [[H|H]|H]; [by left| |].
    + right. left. destruct (description p) as [d|]; [eauto|discriminate].
    + right. right. destruct (category p) as [c|]; [eauto|discriminate].
  - intros [H|[(d & -> & H)|(c & -> & H)]]; auto.
Qed.

Lemma get_search_refused s db :
  blank (VStr s) = false → RegExp_i (sanitizeString s) = None →
  run (get_search (VStr s)) db = (db, server_error "Failed to search products").
Proof.
  intros Hb Hr. rewrite get_search_shape. cbn [is_string typeof negb orb str_of].
  by rewrite Hb, Hr.
Qed.

Lemma findByIdAndUpdate_hit t id u a db p :
  cast_update u = Some a → validate_update a = true →
  findById id db = Some p →
  ∃ db', findByIdAndUpdate t id u db = (db', Returned (Some (apply_set t a p)))
         ∧ apply_set t a p ∈ db'
         ∧ findById id db' = Some (apply_set t a p).
Proof.
  intros Hc Hv Hf. unfold findByIdAndUpdate, findById in *. rewrite Hc, Hv.
  pose proof (update_first_hit _ (apply_set t a) _ _ Hf) as Hhit.
  pose proof (update_first_elem _ (apply_set t a) _ _ Hf) as Hel.
  pose proof (find_update_first _ (apply_set t a) _ _ Hf) as Hnew.
  destruct (update_first (has_id id) (apply_set t a) db) as [db' r].
  simpl in Hhit, Hel, Hnew. subst r. exists db'.
  split; [reflexivity|]. split; [exact Hel|].
  apply Hnew. rewrite has_id_apply_set. by apply find_some_sel in Hf as [? _].
Qed.

(** C7.  What the search does with its query: it compiles the sanitized
    query as a regular expression, so the query is a pattern and not a
    text to look for.  A search is answered 400 "Invalid query" exactly
    when [q] is not a string (which covers a missing [q]) or is blank.
    Otherwise, when the pattern is refused, the answer is 500 "Failed to
    search products" whatever is stored; and when it is compiled, the
    handler asks the store for the documents that the pattern matches,
    newest first and 50 at most, and the answer is 200 with stored
    products in which the compiled pattern matches the name, the
    description or the category, at most 50 of them, namely as many as
    there are such products when those are at most 50, and with their
    number as [count].  The query [c++], which the engine of JavaScript
    refuses, is answered 500 also when a product of that name is
    stored. *)
Theorem search_is_a_pattern :
  (∀ q, get_search q =
          Ret {| status := 400;
                 payload := JError "Invalid query" "Search query is required" |}
        ↔ is_string q = false ∨ blank q = true) ∧
  (∀ s db,
     blank (VStr s) = false → RegExp_i (sanitizeString s) = None →
     run (get_search (VStr s)) db =
       (db, {| status := 500;
               payload := JError "Server error" "Failed to search products" |})) ∧
  (∀ s r db,
     blank (VStr s) = false → RegExp_i (sanitizeString s) = Some r →
     (∃ k, get_search (VStr s) = Call (Find (ByRegex r) "createdAt" Desc 0 50) k) ∧
     ∃ products,
       run (get_search (VStr s)) db =
         (db, {| status := 200;
                 payload := JSearch products (List.length products) |}) ∧
       (∀ p, p ∈ products →
             p ∈ db ∧
             (r (name p) = true ∨ (∃ d, description p = Some d ∧ r d = true)
              ∨ (∃ c, category p = Some c ∧ r c = true))) ∧
       List.length products =
         Nat.min 50 (List.length (List.filter (matches (ByRegex r)) db))) ∧
  (RegExp_i "c++" = None →
   ∀ db, run (get_search (VStr "c++")) db =
           (db, {| status := 500;
                   payload := JError "Server error" "Failed to search products" |})).
Proof.
  split; [|split; [|split]].
  - intros q. rewrite get_search_shape.
    destruct (is_string q) eqn:Hs; cbn [negb orb].
    + destruct (blank q); [split; auto|].
      split; [|by intros [H|H]].
      destruct (RegExp_i (sanitizeString (str_of q))); intros H; discriminate H.
    + split; auto.
  - intros s db Hb Hr. by apply get_search_refused.
  - intros s r db Hb Hr. rewrite get_search_shape.
    cbn [is_string typeof negb orb str_of]. rewrite Hb, Hr.
    split; [eexists; reflexivity|].
    cbn [run exec]. unfold find. cbn [cast_query].
    destruct (store_sort_createdAt Desc) as [sorted Hs]. rewrite Hs.
    cbn [run].
    set (found := sorted (List.filter (matches (ByRegex r)) db)).
    exists (firstn 50 found). split; [reflexivity|].
    split.
    + intros p Hp. apply elem_of_firstn in Hp.
      unfold found in Hp. rewrite (store_sort_perm _ _ _ _ Hs) in Hp.
      apply elem_of_filter_bool in Hp as [Hdb Hm]. split; [exact Hdb|].
      by apply matches_regex.
    + rewrite length_take. unfold found.
      by rewrite (store_sort_length _ _ _ _ Hs).
  - intros Hr db. apply get_search_refused; [reflexivity|exact Hr].
Qed.

(** *** Text entering the system *)

(** C9.  What becomes of a text that enters the system.  The sanitized
    form of a text has no angle bracket, but it is trimmed before the
    angle brackets are deleted: the sanitized form of [< a] is [ a], with
    a space in front, and that is the pattern the search compiles for the
    query [< a].  A value that is no string is assigned as it is by a
    partial update: the category [{_id: "<b>"}] is stored as [<b>], with
    its angle brackets. *)
Theorem sanitizeString_leaves_space :
  sanitizeString "< a" = " a" ∧
  (∀ s, no_angles (sanitizeString s)) ∧
  (∀ r, RegExp_i " a" = Some r →
        ∃ k, get_search (VStr "< a") = Call (Find (ByRegex r) "createdAt" Desc 0 50) k) ∧
  (∀ t id db p,
     isValidObjectId id = true → findById id db = Some p →
     ∃ db' p',
       run (patch_id t id {["category" := VObj {["_id" := VStr "<b>"]}]}) db =
         (db', {| status := 200; payload := JProduct p' |}) ∧
       category p' = Some "<b>" ∧ p' ∈ db' ∧ findById id db' = Some p').
Proof.
  split; [reflexivity|]. split; [intros s; apply no_angles_stripAngles|].
  split.
  - intros r Hr. rewrite get_search_shape.
    cbn [is_string typeof negb orb str_of].
    change (blank (VStr "< a")) with false.
    change (sanitizeString "< a") with " a". rewrite Hr.
    eexists. reflexivity.
  - intros t id db p Hid Hp. unfold patch_id. rewrite Hid. cbn [negb].
    set (u := patch_updateData {["category" := VObj {["_id" := VStr "<b>"]}]}).
    assert (bool_decide (u = ∅) = false) as ->.
    { apply bool_decide_eq_false. intros E.
      assert (u !! "category" = None) as H by (by rewrite E).
      unfold u in H. rewrite patch_updateData_lookup in H.
      vm_compute in H. discriminate H. }
    assert (∃ a, cast_update u = Some a ∧ validate_update a = true
                 ∧ set_category a = Some (Some "<b>")) as (a & Hc & Hv & Hcat).
    { unfold cast_update, cast_path, u. rewrite !patch_updateData_lookup.
      eexists. split; [vm_compute; reflexivity|].
      split; vm_compute; reflexivity. }
    destruct (findByIdAndUpdate_hit t id u a db p Hc Hv Hp) as (db' & Hrun & Hel & Hf).
    exists db', (apply_set t a p). cbn [run exec]. rewrite Hrun. cbn [run after_update].
    split; [reflexivity|]. split; [|by split].
    cbn [apply_set category]. by rewrite Hcat.
Qed.

(** *** Identifiers *)

Lemma elem_of_map_2 {A B} (f : A → B) (l : list A) x : x ∈ l → f x ∈ map f l.
Proof. rewrite !list_elem_of_In. apply in_map. Qed.

Lemma elem_of_map_1 {A B} (f : A → B) (l : list A) y :
  y ∈ map f l → ∃ x, y = f x ∧ x ∈ l.
Proof.
  rewrite list_elem_of_In, in_map_iff. intros (x & <- & Hx).
  exists x. by rewrite list_elem_of_In.
Qed.

Lemma sublist_map {A B} (f : A → B) (l k : list A) :
  l `sublist_of` k → map f l `sublist_of` map f k.
Proof. induction 1; simpl; by constructor. Qed.

Lemma sublist_filter_bool {A} (f : A → bool) (l : list A) :
  List.filter f l `sublist_of` l.
Proof.
  induction l as [|a l IH]; simpl; [constructor|].
  destruct (f a); by constructor.
Qed.

Lemma update_first_map {B} (g : product → B) sel f db :
  (∀ p, g (f p) = g p) → map g (update_first sel f db).1 = map g db.
Proof.
  intros Hg. induction db as [|a db IH]; simpl; [reflexivity|].
  destruct (sel a); simpl; [by rewrite Hg|].
  destruct (update_first sel f db) as [db' r]. simpl in *. by rewrite IH.
Qed.

Lemma update_first_other sel f db p :
  p ∈ db → sel p = false → p ∈ (update_first sel f db).1.
Proof.
  induction db as [|a db IH]; simpl; [by intros ?%elem_of_nil|].
  intros [->|Hin]%elem_of_cons Hs.
  - rewrite Hs. destruct (update_first sel f db) as [db' r].
    simpl. apply elem_of_cons. by left.
  - destruct (sel a); simpl; [apply elem_of_cons; by right|].
    specialize (IH Hin Hs). destruct (update_first sel f db) as [db' r].
    simpl in *. apply elem_of_cons. by right.
Qed.

Lemma remove_first_sublist sel db : (remove_first sel db).1 `sublist_of` db.
Proof.
  induction db as [|a db IH]; simpl; [constructor|].
  destruct (sel a); simpl; [by constructor|].
  destruct (remove_first sel db) as [db' r]. simpl in *. by constructor.
Qed.

Lemma existsb_has_id_false id db :
  existsb (has_id id) db = false →
  (id ∉ map _id db) ∧ (ObjectId id ∉ map (λ p, ObjectId (_id p)) db).
Proof.
  induction db as [|a db IH]; simpl.
  - intros _. split; by intros ?%elem_of_nil.
  - intros [Ha Hdb]%orb_false_elim. destruct (IH Hdb) as [IH1 IH2].
    unfold has_id in Ha. apply String.eqb_neq in Ha.
    split.
    + intros [E|Hin]%elem_of_cons; [|done]. apply Ha. by rewrite E.
    + intros [E|Hin]%elem_of_cons; [|done]. apply Ha. by symmetry.
Qed.

Lemma has_id_false id p : has_id id p = false ↔ ¬ same_id id p.
Proof. unfold has_id, same_id. apply String.eqb_neq. Qed.

Lemma findById_distinct id db p :
  distinct_ids db → p ∈ db → same_id id p → findById id db = Some p.
Proof.
  unfold distinct_ids, findById.
  induction db as [|a db IH]; simpl; [by intros _ ?%elem_of_nil|].
  intros [Ha Hdb]%NoDup_cons [->|Hin]%elem_of_cons E.
  - apply has_id_same_id in E. by rewrite E.
  - destruct (has_id id a) eqn:E'.
    + exfalso. apply Ha. apply has_id_same_id in E'. unfold same_id in *.
      rewrite E', <- E. by apply (elem_of_map_2 (λ p, ObjectId (_id p))).
    + by apply IH.
Qed.

Lemma save_unique_ids d data db : unique_ids db → unique_ids (save d data db).1.
Proof.
  intros H. unfold save. destruct (build d data) as [p|]; [|exact H].
  destruct (existsb _ db) eqn:E; [exact H|]. simpl.
  unfold unique_ids. rewrite map_app. apply NoDup_app. split; [exact H|].
  split; [|apply NoDup_singleton].
  intros x Hx [->|?%elem_of_nil]%elem_of_cons; [|done].
  by apply existsb_has_id_false in E as [E _].
Qed.

Lemma save_distinct_ids d data db : distinct_ids db → distinct_ids (save d data db).1.
Proof.
  intros H. unfold save. destruct (build d data) as [p|]; [|exact H].
  destruct (existsb _ db) eqn:E; [exact H|]. simpl.
  unfold distinct_ids. rewrite map_app. apply NoDup_app. split; [exact H|].
  split; [|apply NoDup_singleton].
  intros x Hx [->|?%elem_of_nil]%elem_of_cons; [|done].
  by apply existsb_has_id_false in E as [_ E].
Qed.

Lemma findOneAndUpdate_map {B} (g : product → B) t id guard delta db :
  (∀ p, g (apply_inc t delta p) = g p) →
  map g (findOneAndUpdate t id guard delta db).1 = map g db.
Proof.
  intros Hg. unfold findOneAndUpdate.
  destruct (is_NaN delta || from_option is_NaN false guard); [reflexivity|].
  pose proof (update_first_map g (stock_filter id guard) (apply_inc t delta) db Hg) as E.
  by destruct (update_first _ _ db).
Qed.

Lemma findByIdAndUpdate_map {B} (g : product → B) t id upd db :
  (∀ a p, g (apply_set t a p) = g p) →
  map g (findByIdAndUpdate t id upd db).1 = map g db.
Proof.
  intros Hg. unfold findByIdAndUpdate.
  destruct (cast_update upd) as [a|]; [|reflexivity].
  destruct (validate_update a); [|reflexivity].
  pose proof (update_first_map g (has_id id) (apply_set t a) db (Hg a)) as E.
  by destruct (update_first (has_id id) (apply_set t a) db).
Qed.

(** A request keeps a property of the list of some key of the documents
    when insertion keeps it and every sublist has it. *)
Lemma exec_keys {B} (g : product → B) (P : list B → Prop) {R} (c : cmd R) db :
  (∀ t a p, g (apply_set t a p) = g p) →
  (∀ t delta p, g (apply_inc t delta p) = g p) →
  (∀ d data, P (map g db) → P (map g (save d data db).1)) →
  (∀ l k, P k → l `sublist_of` k → P l) →
  P (map g db) → P (map g (exec c db).1).
Proof.
  intros Hset Hinc Hsave Hsub H. destruct c; cbn [exec fst]; try exact H.
  - by apply Hsave.
  - rewrite findByIdAndUpdate_map; [exact H|]. intros a p. apply Hset.
  - rewrite findOneAndUpdate_map; [exact H|]. intros p. apply Hinc.
  - unfold findByIdAndDelete. eapply Hsub; [exact H|].
    apply sublist_map, remove_first_sublist.
Qed.

Lemma exec_unique_ids {R} (c : cmd R) db : unique_ids db → unique_ids (exec c db).1.
Proof.
  unfold unique_ids. apply (exec_keys _id NoDup); try reflexivity.
  - intros d data. apply save_unique_ids.
  - intros l k Hk Hl. by apply (sublist_NoDup l k).
Qed.

Lemma exec_distinct_ids {R} (c : cmd R) db :
  distinct_ids db → distinct_ids (exec c db).1.
Proof.
  unfold distinct_ids. apply (exec_keys (λ p, ObjectId (_id p)) NoDup); try reflexivity.
  - intros d data. apply save_distinct_ids.
  - intros l k Hk Hl. by apply (sublist_NoDup l k).
Qed.

Lemma run_unique_ids {A} (m : prog A) db : unique_ids db → unique_ids (run m db).1.
Proof.
  revert db. induction m as [a|R c k IH]; intros db H; simpl; [exact H|].
  pose proof (exec_unique_ids c db H) as H1.
  destruct (exec c db) as [db' r]. by apply IH.
Qed.

Lemma run_distinct_ids {A} (m : prog A) db :
  distinct_ids db → distinct_ids (run m db).1.
Proof.
  revert db. induction m as [a|R c k IH]; intros db H; simpl; [exact H|].
  pose proof (exec_distinct_ids c db H) as H1.
  destruct (exec c db) as [db' r]. by apply IH.
Qed.

Lemma serve_unique_ids rs db : unique_ids db → unique_ids (serve rs db).1.
Proof.
  revert db. induction rs as [|r rs IH]; intros db H; simpl; [exact H|].
  pose proof (run_unique_ids (handler r) db H) as H1.
  destruct (run (handler r) db) as [db1 a]. simpl in H1.
  specialize (IH db1 H1). by destruct (serve rs db1).
Qed.

Lemma deleteMany_sublist ids db : (deleteMany ids db).1 `sublist_of` db.
Proof. unfold deleteMany. simpl. apply sublist_filter_bool. Qed.

(** X1.  Identifiers stay unique.  From a collection in which no two
    documents share an identifier, no interleaving of handlers and no
    sequence of requests, bulk deletions included, leads to a collection
    in which two do. *)
Theorem identifiers_stay_unique db0 :
  unique_ids db0 →
  (∀ s, reachable db0 s → unique_ids s.1) ∧
  (∀ rs, unique_ids (serve rs db0).1) ∧
  (∀ ids, unique_ids (post_bulk_delete ids db0).1).
Proof.
  intros H0. split; [|split].
  - induction 1 as [|s s' _ IH Hstep]; [exact H0|].
    destruct Hstep as [db pool r | db db' l1 l2 R c k a Hexec | db l1 l2 a];
      simpl in *; try exact IH.
    pose proof (exec_unique_ids c db IH) as H. by rewrite Hexec in H.
  - intros rs. by apply serve_unique_ids.
  - intros [ids|]; simpl; [|exact H0].
    destruct (List.length ids =? 0)%nat; [exact H0|].
    destruct (List.length (List.filter isValidObjectId ids) =? 0)%nat; [exact H0|].
    simpl. eapply sublist_NoDup; [exact H0|]. apply sublist_map.
    apply (deleteMany_sublist (List.filter isValidObjectId ids) db0).
Qed.

(** *** Requests by identifier *)

(** X2.  An identifier that the driver does not accept is refused before
    anything else is looked at: each of the five routes by identifier
    answers 400 "Invalid ID" without sending a request to the store,
    whatever the body holds. *)
Theorem invalid_id_fails_fast t id body :
  isValidObjectId id = false →
  get_id id = Ret invalid_id ∧
  put_id t id body = Ret invalid_id ∧
  patch_id t id body = Ret invalid_id ∧
  delete_id id = Ret invalid_id ∧
  patch_id_stock t id body = Ret invalid_id.
Proof.
  intros H. unfold get_id, put_id, patch_id, delete_id, patch_id_stock.
  rewrite H. simpl. repeat split.
Qed.

Lemma after_update_reads what r : prog_reads (after_update what r).
Proof. destruct r as [[p|]|]; exact I. Qed.

Lemma get_search_reads q : prog_reads (get_search q).
Proof.
  unfold get_search.
  destruct (negb (truthy q) || negb (is_string q) || blank q); [exact I|].
  destruct (RegExp_i (sanitizeString (str_of q))) as [re|]; [|exact I].
  split; [reflexivity|]. intros [products|]; exact I.
Qed.

(** X3.  The list, the search and the fetch by identifier only read: each
    of them leaves the collection exactly as it was, whatever the
    request and whatever its answer. *)
Theorem reads_change_nothing db :
  (∀ q, (run (get_root q) db).1 = db) ∧
  (∀ q, (run (get_search q) db).1 = db) ∧
  (∀ id, (run (get_id id) db).1 = db).
Proof.
  split; [|split].
  - intros q. by rewrite get_root_run.
  - intros q. apply run_reads, get_search_reads.
  - intros id. unfold get_id. destruct (negb (isValidObjectId id)); [reflexivity|].
    simpl. by destruct (findById id db).
Qed.

Lemma findByIdAndUpdate_other t id upd db p :
  p ∈ db → ¬ same_id id p → p ∈ (findByIdAndUpdate t id upd db).1.
Proof.
  intros Hin Hne. unfold findByIdAndUpdate.
  destruct (cast_update upd) as [a|]; [|exact Hin].
  destruct (validate_update a); [|exact Hin].
  pose proof (update_first_other (has_id id) (apply_set t a) db p Hin) as E.
  destruct (update_first (has_id id) (apply_set t a) db). simpl in *.
  apply E. by apply has_id_false.
Qed.

Lemma findOneAndUpdate_other t id guard delta db p :
  p ∈ db → ¬ same_id id p → p ∈ (findOneAndUpdate t id guard delta db).1.
Proof.
  intros Hin Hne. unfold findOneAndUpdate.
  destruct (is_NaN delta || from_option is_NaN false guard); [exact Hin|].
  pose proof (update_first_other (stock_filter id guard) (apply_inc t delta) db p Hin)
    as E.
  destruct (update_first _ _ db). simpl in *.
  apply E. unfold stock_filter. apply has_id_false in Hne. by rewrite Hne.
Qed.

Lemma run_after_update what r db : (run (after_update what r) db).1 = db.
Proof. by destruct r as [[p|]|]. Qed.

Lemma put_id_store t id body db :
  (run (put_id t id body) db).1 = db ∨
  ∃ u, (run (put_id t id body) db).1 = (findByIdAndUpdate t id u db).1.
Proof.
  unfold put_id. destruct (negb (isValidObjectId id)); [by left|].
  destruct (put_checks body) as [bad|u]; [by left|].
  destruct (bool_decide (u = ∅)); [by left|].
  right. exists u. simpl.
  destruct (findByIdAndUpdate t id u db) as [db' r]. apply run_after_update.
Qed.

Lemma patch_id_store t id body db :
  (run (patch_id t id body) db).1 = db ∨
  ∃ u, (run (patch_id t id body) db).1 = (findByIdAndUpdate t id u db).1.
Proof.
  unfold patch_id. destruct (negb (isValidObjectId id)); [by left|].
  destruct (bool_decide (patch_updateData body = ∅)); [by left|].
  right. exists (patch_updateData body). simpl.
  destruct (findByIdAndUpdate t id _ db) as [db' r]. apply run_after_update.
Qed.

Lemma patch_id_stock_store t id body db :
  (run (patch_id_stock t id body) db).1 = db ∨
  ∃ guard delta,
    (run (patch_id_stock t id body) db).1 = (findOneAndUpdate t id guard delta db).1.
Proof.
  unfold patch_id_stock. destruct (negb (isValidObjectId id)); [by left|].
  destruct (negb (is_number (prop body "quantity")) || le0 (prop body "quantity"));
    [by left|].
  right.
  exists (if is_decrement (prop body "operation")
          then Some (num_of (prop body "quantity")) else None),
         (if is_decrement (prop body "operation")
          then x_neg (num_of (prop body "quantity")) else num_of (prop body "quantity")).
  cbn [run exec].
  destruct (findOneAndUpdate t id _ _ db) as [db' [[u|]|]]; cbn [run exec];
    [reflexivity| |reflexivity].
  by destruct (findById id db').
Qed.

(** X4.  A full replace, a partial update and a stock request keep the
    documents in place: after any of them the collection holds the same
    identifiers and the same creation times, in the same order, and every
    document with another ObjectId than the one addressed is still there,
    unchanged. *)
Theorem updates_keep_documents_in_place t id body db :
  kept_in_place id db (run (put_id t id body) db).1 ∧
  kept_in_place id db (run (patch_id t id body) db).1 ∧
  kept_in_place id db (run (patch_id_stock t id body) db).1.
Proof.
  unfold kept_in_place. split; [|split].
  - destruct (put_id_store t id body db) as [-> | [u ->]]; [done|].
    split; [by apply findByIdAndUpdate_map|].
    split; [by apply findByIdAndUpdate_map|].
    intros p. apply findByIdAndUpdate_other.
  - destruct (patch_id_store t id body db) as [-> | [u ->]]; [done|].
    split; [by apply findByIdAndUpdate_map|].
    split; [by apply findByIdAndUpdate_map|].
    intros p. apply findByIdAndUpdate_other.
  - destruct (patch_id_stock_store t id body db) as [-> | (guard & delta & ->)]; [done|].
    split; [by apply findOneAndUpdate_map|]. split; [by apply findOneAndUpdate_map|].
    intros p. apply findOneAndUpdate_other.
Qed.

(** *** Fetching, deleting and creating *)

Lemma remove_first_result id db : (remove_first (has_id id) db).2 = findById id db.
Proof.
  unfold findById. induction db as [|a db IH]; simpl; [reflexivity|].
  destruct (has_id id a); [reflexivity|].
  destruct (remove_first (has_id id) db) as [db' r]. exact IH.
Qed.

Lemma remove_first_None sel db :
  (remove_first sel db).2 = None → (remove_first sel db).1 = db.
Proof.
  induction db as [|a db IH]; simpl; [reflexivity|].
  destruct (sel a); [discriminate|].
  destruct (remove_first sel db) as [db' r]. simpl in *. intros H. by rewrite IH.
Qed.

Lemma remove_first_length sel db p :
  (remove_first sel db).2 = Some p →
  List.length db = S (List.length (remove_first sel db).1).
Proof.
  induction db as [|a db IH]; simpl; [discriminate|].
  destruct (sel a); [reflexivity|].
  destruct (remove_first sel db) as [db' r]. simpl in *. intros H. by rewrite IH.
Qed.

Lemma remove_first_other sel db p :
  p ∈ db → sel p = false → p ∈ (remove_first sel db).1.
Proof.
  induction db as [|a db IH]; simpl; [by intros ?%elem_of_nil|].
  intros [->|Hin]%elem_of_cons Hs.
  - rewrite Hs. destruct (remove_first sel db). simpl. by left.
  - destruct (sel a); simpl; [exact Hin|].
    specialize (IH Hin Hs). destruct (remove_first sel db). simpl in *. by right.
Qed.

Lemma remove_first_gone id db :
  distinct_ids db → ¬ ∃ p, p ∈ (remove_first (has_id id) db).1 ∧ same_id id p.
Proof.
  unfold distinct_ids. induction db as [|a db IH]; simpl.
  - intros _ (p & Hp & _). by apply elem_of_nil in Hp.
  - intros [Ha Hdb]%NoDup_cons. destruct (has_id id a) eqn:E; simpl.
    + intros (p & Hp & Hs). apply Ha. apply has_id_same_id in E.
      unfold same_id in *. rewrite E, <- Hs.
      by apply (elem_of_map_2 (λ p, ObjectId (_id p))).
    + specialize (IH Hdb). destruct (remove_first (has_id id) db) as [db' r].
      simpl in *. intros (p & [->|Hp]%elem_of_cons & Hs).
      * apply has_id_false in E. by apply E.
      * apply IH. by exists p.
Qed.

Lemma findById_last id db p :
  existsb (has_id id) db = false → same_id id p →
  findById id (db ++ [p])%list = Some p.
Proof.
  unfold findById. induction db as [|a db IH]; simpl.
  - intros _ E. apply has_id_same_id in E. by rewrite E.
  - intros [Ha Hdb]%orb_false_elim E. rewrite Ha. by apply IH.
Qed.

Lemma build_inv d data p :
  build d data = Some p →
  _id p = fresh_id d ∧ createdAt p = now d ∧ updatedAt p = now d ∧
  match data !! "description" with
  | Some v => castString v = Some (description p)
  | None => description p = Some ""
  end ∧
  match data !! "category" with
  | Some v => castString v = Some (category p)
  | None => category p = Some "uncategorized"
  end ∧
  match data !! "name" with
  | Some v => castString v = Some (Some (name p))
  | None => False
  end ∧
  match data !! "price" with
  | Some v => castNumber v = Some (price p)
  | None => False
  end ∧
  valid_name (Some (name p)) = true ∧ valid_min0 (price p) = true ∧
  valid_maxlength 2000 (description p) = true ∧
  valid_maxlength 100 (category p) = true.
Proof.
  unfold build. intros H.
  destruct (match data !! "name" with Some v => castString v | None => Some None end)
    as [nm|] eqn:Hnm; simpl in H; [|discriminate].
  destruct (match data !! "price" with Some v => Some <$> castNumber v | None => Some None end)
    as [pr|] eqn:Hpr; simpl in H; [|discriminate].
  destruct (match data !! "description" with Some v => castString v | None => Some (Some "") end)
    as [ds|] eqn:Hds; simpl in H; [|discriminate].
  destruct (match data !! "category" with Some v => castString v | None => Some (Some "uncategorized") end)
    as [ct|] eqn:Hct; simpl in H; [|discriminate].
  destruct (match data !! "stock" with Some v => castNumber v | None => Some (int 0) end)
    as [st|] eqn:Hst; simpl in H; [|discriminate].
  destruct nm as [nm|]; [|discriminate]. destruct pr as [pr|]; [|discriminate].
  destruct (valid_name (Some nm) && valid_min0 pr && valid_maxlength 2000 ds
            && valid_maxlength 100 ct && valid_min0 st) eqn:Hv; [|discriminate].
  injection H as <-. cbn [_id name price description category createdAt updatedAt].
  apply andb_prop in Hv as [Hv _]. apply andb_prop in Hv as [Hv Hv4].
  apply andb_prop in Hv as [Hv Hv3]. apply andb_prop in Hv as [Hv1 Hv2].
  repeat split; try assumption.
  - destruct (data !! "description"); [exact Hds|congruence].
  - destruct (data !! "category"); [exact Hct|congruence].
  - destruct (data !! "name"); [exact Hnm|congruence].
  - destruct (data !! "price") as [v|]; [|congruence].
    destruct (castNumber v); simpl in Hpr; congruence.
Qed.

Lemma preSave_fields p :
  _id (preSave p) = _id p ∧ name (preSave p) = name p ∧ price (preSave p) = price p ∧
  description (preSave p) = description p ∧ category (preSave p) = category p ∧
  createdAt (preSave p) = createdAt p ∧ updatedAt (preSave p) = updatedAt p.
Proof. unfold preSave. by destruct (num_lt (stock p) (int 0)). Qed.

Lemma post_root_fresh d body db db' p :
  run (post_root d body) db = (db', respond 201 (JProduct p)) →
  existsb (has_id (_id p)) db = false.
Proof.
  unfold post_root.
  destruct (negb (truthy (prop body "name")) || negb (is_string (prop body "name"))
            || blank (prop body "name")); [discriminate|].
  destruct (negb (is_number (prop body "price")) || Number_isNaN (prop body "price")
            || lt0 (prop body "price")); [discriminate|].
  cbn [run exec]. unfold save.
  destruct (build d (post_productData body)) as [p0|]; [|discriminate].
  destruct (existsb _ db) eqn:E; [discriminate|].
  cbn [run]. intros [= _ <-]. exact E.
Qed.

Lemma post_productData_optional body k :
  k = "description" ∨ k = "category" →
  post_productData body !! k =
    if truthy (prop body k) && is_string (prop body k)
    then Some (VStr (sanitizeString (str_of (prop body k)))) else None.
Proof.
  unfold post_productData. intros [-> | ->]; repeat case_if; by simplify_map_eq.
Qed.

Lemma post_productData_name body :
  post_productData body !! "name" = Some (VStr (sanitizeString (str_of (prop body "name")))).
Proof. unfold post_productData. repeat case_if; by simplify_map_eq. Qed.

Lemma post_productData_price body :
  post_productData body !! "price" = Some (prop body "price").
Proof. unfold post_productData. repeat case_if; by simplify_map_eq. Qed.

(** X5.  Fetching by identifier.  With an identifier the driver accepts,
    [GET /:id] answers 404 exactly when no stored document has the
    ObjectId of the identifier, and otherwise 200 with a stored document
    that has it; when the stored ObjectIds are distinct, every stored
    document is what the fetch by an identifier of its ObjectId
    returns. *)
Theorem get_id_finds_the_document id db :
  isValidObjectId id = true →
  ((run (get_id id) db).2 =
     {| status := 404; payload := JError "Not found" "Product not found" |}
   ↔ ¬ ∃ p, p ∈ db ∧ same_id id p) ∧
  ((run (get_id id) db).2 =
     {| status := 404; payload := JError "Not found" "Product not found" |} ∨
   ∃ p, (run (get_id id) db).2 = {| status := 200; payload := JProduct p |}
        ∧ p ∈ db ∧ same_id id p) ∧
  (distinct_ids db → ∀ p, p ∈ db → same_id id p →
     run (get_id id) db = (db, {| status := 200; payload := JProduct p |})).
Proof.
  intros Hid. unfold get_id. rewrite Hid. cbn [negb run exec]. split; [|split].
  - rewrite <- findById_None. destruct (findById id db); cbn [run snd]; [|done].
    split; [discriminate|discriminate].
  - destruct (findById id db) as [p|] eqn:E; cbn [run snd]; [|by left].
    right. exists p. apply findById_Some in E. by destruct E.
  - intros Hu p Hin E. by rewrite (findById_distinct id db p Hu Hin E).
Qed.

(** X6.  Deleting.  With an identifier the driver accepts and distinct
    stored ObjectIds, [DELETE /:id] answers 200 with the stored document
    of that ObjectId and removes exactly that one, or answers 404 and
    changes nothing when there is none.  Afterwards no document has the
    ObjectId, every other document is still stored, and both a fetch and
    a second delete of the same identifier answer 404 and change
    nothing. *)
Theorem delete_removes_the_document id db db' r :
  isValidObjectId id = true →
  distinct_ids db →
  run (delete_id id) db = (db', r) →
  ((∃ p, p ∈ db ∧ same_id id p
         ∧ r = {| status := 200;
                  payload := JDeleted "Product deleted successfully" p |}
         ∧ List.length db = S (List.length db'))
   ∨ ((¬ ∃ p, p ∈ db ∧ same_id id p)
      ∧ r = {| status := 404; payload := JError "Not found" "Product not found" |}
      ∧ db' = db)) ∧
  (¬ ∃ p, p ∈ db' ∧ same_id id p) ∧
  (db' `sublist_of` db) ∧
  (∀ p, p ∈ db → ¬ same_id id p → p ∈ db') ∧
  run (get_id id) db' =
    (db', {| status := 404; payload := JError "Not found" "Product not found" |}) ∧
  run (delete_id id) db' =
    (db', {| status := 404; payload := JError "Not found" "Product not found" |}).
Proof.
  intros Hid Hu. unfold delete_id, get_id. rewrite Hid. cbn [negb run exec].
  unfold findByIdAndDelete.
  pose proof (remove_first_result id db) as Hr.
  pose proof (remove_first_gone id db Hu) as Hg.
  pose proof (remove_first_sublist (has_id id) db) as Hs.
  pose proof (remove_first_None (has_id id) db) as Hn.
  pose proof (remove_first_length (has_id id) db) as Hl.
  pose proof (λ p, remove_first_other (has_id id) db p) as Ho.
  destruct (remove_first (has_id id) db) as [db1 d]. simpl in Hr, Hg, Hs, Hn, Hl, Ho.
  intros Hrun.
  assert (db' = db1) as -> by (destruct d; simpl in Hrun; congruence).
  assert (findById id db1 = None) as Hnone by by apply findById_None.
  split; [|split; [exact Hg|split; [exact Hs|split]]].
  - destruct d as [p|]; simpl in Hrun; injection Hrun as <-.
    + left. exists p. symmetry in Hr. apply findById_Some in Hr as [Hin Hsame].
      split; [exact Hin|]. split; [exact Hsame|]. split; [reflexivity|].
      by apply (Hl p).
    + right. split; [|split; [reflexivity|by apply Hn]].
      apply findById_None. by symmetry.
  - intros p Hin Hne. apply Ho; [exact Hin|]. by apply has_id_false.
  - rewrite Hnone. split; [reflexivity|].
    pose proof (remove_first_result id db1) as Hr1.
    pose proof (remove_first_None (has_id id) db1) as Hn1.
    destruct (remove_first (has_id id) db1) as [db2 d2]. simpl in Hr1, Hn1.
    rewrite Hnone in Hr1. subst d2. cbn [run]. by rewrite Hn1.
Qed.

(** X7.  Creating and fetching.  When [POST /] answers 201 with a product,
    the product carries the identifier and the time that the driver chose,
    as both its creation and its update time; no stored document had that
    identifier; the collection is the former one with the product
    appended; distinct identifiers stay distinct; and a fetch by the new
    identifier returns the very product of the answer. *)
Theorem create_then_fetch d body db db' p :
  isValidObjectId (fresh_id d) = true →
  run (post_root d body) db = (db', respond 201 (JProduct p)) →
  _id p = fresh_id d ∧ createdAt p = now d ∧ updatedAt p = now d ∧
  (fresh_id d ∉ map _id db) ∧
  db' = (db ++ [p])%list ∧
  (unique_ids db → unique_ids db') ∧
  run (get_id (fresh_id d)) db' = (db', respond 200 (JProduct p)).
Proof.
  intros Hid H. pose proof (post_root_fresh _ _ _ _ _ H) as Hf.
  pose proof H as Hc. apply post_root_created in Hc as (p0 & Hb & -> & ->).
  apply build_inv in Hb as (E1 & E2 & E3 & _).
  destruct (preSave_fields p0) as (F1 & _ & _ & _ & _ & F6 & F7).
  rewrite F1, E1 in Hf.
  pose proof (existsb_has_id_false _ _ Hf) as [Hf1 _].
  split; [congruence|]. split; [congruence|]. split; [congruence|].
  split; [exact Hf1|]. split; [reflexivity|]. split.
  - intros Hu. unfold unique_ids. rewrite map_app. apply NoDup_app.
    split; [exact Hu|]. split; [|apply NoDup_singleton].
    intros x Hx [->|?%elem_of_nil]%elem_of_cons; [|done].
    rewrite F1, E1 in Hx. by apply Hf1.
  - unfold get_id. rewrite Hid. cbn [negb run exec].
    rewrite (findById_last (fresh_id d) db (preSave p0) Hf); [reflexivity|].
    unfold same_id. by rewrite F1, E1.
Qed.

(** X8.  What creation stores.  A product that [POST /] answers with has
    the sanitized name of the body, trimmed, of 1 to 200 characters, and
    the price of the body, which is not negative.  Its description is the
    sanitized, trimmed one of the body when that is a non-empty string,
    and the empty text otherwise; its category likewise, with the text
    "uncategorized" otherwise. *)
Theorem create_fields d body db db' p :
  run (post_root d body) db = (db', respond 201 (JProduct p)) →
  name p = trim (sanitizeString (str_of (prop body "name"))) ∧
  (0 < str_length (name p) ∧ str_length (name p) ≤ 200) ∧
  prop body "price" = VNum (price p) ∧ num_le (int 0) (price p) = true ∧
  description p =
    Some (if truthy (prop body "description") && is_string (prop body "description")
          then trim (sanitizeString (str_of (prop body "description"))) else "") ∧
  category p =
    Some (if truthy (prop body "category") && is_string (prop body "category")
          then trim (sanitizeString (str_of (prop body "category")))
          else "uncategorized").
Proof.
  intros H. apply post_root_created in H as (p0 & Hb & -> & _).
  apply build_inv in Hb as (_ & _ & _ & Hd & Hc & Hn & Hp & V1 & V2 & _).
  destruct (preSave_fields p0) as (_ & -> & -> & -> & -> & _).
  rewrite post_productData_name in Hn. rewrite post_productData_price in Hp.
  rewrite (post_productData_optional body "description") in Hd by (by left).
  rewrite (post_productData_optional body "category") in Hc by (by right).
  cbn [castString] in Hn. injection Hn as Hn.
  split; [symmetry; exact Hn|].
  split.
  { unfold valid_name in V1. apply andb_prop in V1 as [V1 V1'].
    apply Z.leb_le in V1'. split; [|exact V1'].
    unfold str_length in *. destruct (name p0); [discriminate|]. simpl. lia. }
  split.
  { apply castNumber_Some in Hp as [Hp _]. exact Hp. }
  split; [exact V2|].
  split.
  - destruct (truthy (prop body "description") && is_string (prop body "description"));
      cbn [castString] in Hd; congruence.
  - destruct (truthy (prop body "category") && is_string (prop body "category"));
      cbn [castString] in Hc; congruence.
Qed.

(** X9.  How creation fails.  [POST /] answers 201, 400 or 500, and it
    changes the collection only when it answers 201.  It answers 400
    without a request to the store when the name or the price does not
    pass the handler's test.  A name that passes the test and of which
    nothing is left once it is sanitized and trimmed (one made of angle
    brackets and white space) is refused by the schema: the answer is 500
    and nothing is stored; so is a product whose identifier is already
    stored. *)
Theorem create_failures d body db :
  (status (run (post_root d body) db).2 = 201 ∨
   (status (run (post_root d body) db).2 = 400 ∨
    status (run (post_root d body) db).2 = 500) ∧ (run (post_root d body) db).1 = db) ∧
  (status (run (post_root d body) db).2 = 400 → ∃ a, post_root d body = Ret a) ∧
  (negb (truthy (prop body "name")) || negb (is_string (prop body "name"))
     || blank (prop body "name") = false →
   negb (is_number (prop body "price")) || Number_isNaN (prop body "price")
     || lt0 (prop body "price") = false →
   trim (sanitizeString (str_of (prop body "name"))) = "" ∨ fresh_id d ∈ map _id db →
   run (post_root d body) db = (db, server_error "Failed to create product")).
Proof.
  rewrite post_root_shape.
  destruct (negb (truthy (prop body "name")) || negb (is_string (prop body "name"))
            || blank (prop body "name")) eqn:Hn.
  { simpl. split; [right; split; [by left|reflexivity]|]. split; [eauto|discriminate]. }
  destruct (negb (is_number (prop body "price")) || Number_isNaN (prop body "price")
            || lt0 (prop body "price")) eqn:Hp.
  { simpl. split; [right; split; [by left|reflexivity]|]. split; [eauto|discriminate]. }
  cbn [run exec]. unfold save.
  destruct (build d (post_productData body)) as [p0|] eqn:Hb.
  - destruct (existsb (has_id (_id (preSave p0))) db) eqn:E; cbn [run fst snd status].
    + split; [right; split; [by right|reflexivity]|]. split; [discriminate|reflexivity].
    + split; [by left|]. split; [discriminate|].
      intros _ _ [Hb0 | Hdup]; exfalso.
      * apply build_inv in Hb as (_ & _ & _ & _ & _ & Hnm & _ & V1 & _).
        rewrite post_productData_name in Hnm. cbn [castString] in Hnm.
        injection Hnm as Hnm.
        rewrite <- Hnm, Hb0 in V1. discriminate.
      * apply existsb_has_id_false in E as [E _]. apply E.
        apply build_inv in Hb as (E1 & _).
        destruct (preSave_fields p0) as (F1 & _). by rewrite F1, E1.
  - cbn [run fst snd status].
    split; [right; split; [by right|reflexivity]|]. split; [discriminate|reflexivity].
Qed.

(** *** Requests that follow one another *)

Lemma update_first_twice sel f g h db :
  (∀ p, sel p = true → sel (f p) = true) →
  (∀ p, sel p = true → g (f p) = h p) →
  update_first sel g (update_first sel f db).1 = update_first sel h db.
Proof.
  intros Hs Hg. induction db as [|a db IH]; simpl; [reflexivity|].
  destruct (sel a) eqn:E; simpl.
  - by rewrite (Hs a E), (Hg a E).
  - destruct (update_first sel f db) as [db' r]. simpl in *. by rewrite E, IH.
Qed.

Lemma apply_set_twice t1 t2 a p : apply_set t2 a (apply_set t1 a p) = apply_set t2 a p.
Proof.
  unfold apply_set. simpl. f_equal.
  - by destruct (set_name a) as [[?|]|].
  - by destruct (set_price a).
  - by destruct (set_description a).
  - by destruct (set_category a).
  - by destruct (set_stock a).
Qed.

Lemma findByIdAndUpdate_twice t1 t2 id u db :
  findByIdAndUpdate t2 id u (findByIdAndUpdate t1 id u db).1 = findByIdAndUpdate t2 id u db.
Proof.
  unfold findByIdAndUpdate. destruct (cast_update u) as [a|]; [|reflexivity].
  destruct (validate_update a); [|reflexivity].
  pose proof (update_first_twice (has_id id) (apply_set t1 a) (apply_set t2 a)
                (apply_set t2 a) db) as H.
  destruct (update_first (has_id id) (apply_set t1 a) db) as [db1 r1]. simpl in *.
  rewrite H; [reflexivity|by intros p Hp|]. intros p _. apply apply_set_twice.
Qed.

Lemma run_update t id u db :
  run (Call (FindByIdAndUpdate t id u) (after_update "Failed to update product")) db =
  ((findByIdAndUpdate t id u db).1,
   match (findByIdAndUpdate t id u db).2 with
   | Returned None => not_found
   | Returned (Some updated) => respond 200 (JProduct updated)
   | Threw => server_error "Failed to update product"
   end).
Proof.
  simpl. destruct (findByIdAndUpdate t id u db) as [db' r]. simpl.
  by destruct r as [[?|]|].
Qed.

(** X10.  A full replace or a partial update that is repeated with the
    same identifier and the same body gives, store and answer, what the
    second request gives when it is served alone: the first request leaves
    no trace but in what the second one overwrites. *)
Theorem repeated_update_is_the_last_one t1 t2 id body db :
  run (put_id t2 id body) (run (put_id t1 id body) db).1 = run (put_id t2 id body) db ∧
  run (patch_id t2 id body) (run (patch_id t1 id body) db).1
    = run (patch_id t2 id body) db.
Proof.
  split.
  - unfold put_id. destruct (negb (isValidObjectId id)); [reflexivity|].
    destruct (put_checks body) as [bad|u]; [reflexivity|].
    destruct (bool_decide (u = ∅)); [reflexivity|].
    rewrite !run_update. cbn [fst]. by rewrite findByIdAndUpdate_twice.
  - unfold patch_id. destruct (negb (isValidObjectId id)); [reflexivity|].
    destruct (bool_decide (patch_updateData body = ∅)); [reflexivity|].
    rewrite !run_update. cbn [fst]. by rewrite findByIdAndUpdate_twice.
Qed.

(** *** Decrements *)

Lemma findOneAndUpdate_hit t id guard delta db p :
  is_NaN delta || from_option is_NaN false guard = false →
  findById id db = Some p →
  from_option (λ q, num_le q (stock p)) true guard = true →
  ∃ db', findOneAndUpdate t id guard delta db
           = (db', Returned (Some (apply_inc t delta p)))
         ∧ findById id db' = Some (apply_inc t delta p)
         ∧ apply_inc t delta p ∈ db'.
Proof.
  unfold findOneAndUpdate, findById. intros -> Hf Hg.
  induction db as [|a db IH]; cbn [List.find update_first] in *; [discriminate|].
  unfold stock_filter at 1. destruct (has_id id a) eqn:E; cbn [andb].
  - injection Hf as ->.
    assert (match guard with Some q => num_le q (stock p) | None => true end = true)
      as -> by (by destruct guard).
    eexists. split; [reflexivity|].
    cbn [List.find]. change (has_id id (apply_inc t delta p)) with (has_id id p).
    rewrite E. split; [reflexivity|]. by left.
  - destruct (IH Hf) as (db' & IH1 & IH2 & IH3).
    destruct (update_first (stock_filter id guard) (apply_inc t delta) db) as [db1 r].
    injection IH1 as -> ->. eexists. split; [reflexivity|].
    cbn [List.find]. rewrite E. split; [exact IH2|]. by right.
Qed.

Lemma find_absent (sel : product → bool) (db : store) :
  (∀ p, p ∈ db → sel p = false) → List.find sel db = None.
Proof.
  induction db as [|a db IH]; simpl; [reflexivity|]. intros H.
  rewrite (H a) by (by left). apply IH. intros p Hp. apply H. by right.
Qed.

Lemma stock_filter_refused id q db p :
  distinct_ids db → p ∈ db → same_id id p →
  num_le q (stock p) = false →
  List.find (stock_filter id (Some q)) db = None.
Proof.
  intros Hu Hin Hp Hg. apply find_absent. intros x Hx.
  unfold stock_filter. destruct (has_id id x) eqn:E; [|reflexivity].
  cbn [andb]. apply has_id_same_id in E.
  assert (findById id db = Some x) as H1 by by apply findById_distinct.
  assert (findById id db = Some p) as H2 by by apply findById_distinct.
  assert (x = p) as -> by congruence. exact Hg.
Qed.

(** X11.  A decrement is decided by the stock.  With distinct stored
    ObjectIds, a decrement by [q] of a stored product answers 200 exactly
    when the stock is at least [q]; it then leaves the binary64 sum of the
    stock and [-q], which is not below zero, as the stock of the stored
    document, which is the one of the answer.  Otherwise it answers 400
    "Insufficient stock" and changes nothing. *)
Theorem decrement_decided_by_stock t id body q db p :
  isValidObjectId id = true →
  prop body "quantity" = VNum q →
  num_lt (int 0) q = true →
  prop body "operation" = VStr "decrement" →
  distinct_ids db →
  p ∈ db → same_id id p →
  (status (run (patch_id_stock t id body) db).2 = 200 ↔ num_le q (stock p) = true) ∧
  (num_le q (stock p) = true →
   ∃ db' p',
     run (patch_id_stock t id body) db =
       (db', {| status := 200; payload := JProduct p' |}) ∧
     stock p' = x_add (stock p) (x_neg q) ∧
     num_lt (stock p') (int 0) = false ∧
     _id p' = _id p ∧
     findById id db' = Some p' ∧ p' ∈ db') ∧
  (num_le q (stock p) = false →
   run (patch_id_stock t id body) db =
     (db, {| status := 400;
             payload := JError "Insufficient stock" "Not enough stock to decrement" |})).
Proof.
  intros Hid Hq Hpos Hop Hu Hin Hp.
  pose proof (num_lt_not_le _ _ Hpos) as Hle.
  pose proof (positive_not_NaN _ Hpos) as Hn.
  assert (findById id db = Some p) as Hf by by apply findById_distinct.
  rewrite (patch_id_stock_run t id body q db Hid Hq Hle).
  unfold stock_guard, stock_delta. rewrite Hop.
  change (is_decrement (VStr "decrement")) with true. cbv iota.
  destruct (num_le q (stock p)) eqn:Hg.
  - destruct (findOneAndUpdate_hit t id (Some q) (x_neg q) db p) as (db' & -> & Hf' & Hin');
      [cbn [from_option]; by rewrite x_neg_NaN, Hn|exact Hf|exact Hg|].
    split; [by split|]. split; [|discriminate].
    intros _. exists db', (apply_inc t (x_neg q) p).
    split; [reflexivity|]. split; [reflexivity|].
    split; [|by repeat split].
    cbn [apply_inc stock]. apply (x_add_guarded _ q); [exact Hg|].
    by apply num_le_refl_neg.
  - unfold findOneAndUpdate. cbn [from_option]. rewrite x_neg_NaN, Hn. cbn [orb].
    rewrite (update_first_miss _ _ _ (stock_filter_refused id q db p Hu Hin Hp Hg)).
    rewrite Hf. split; [split; discriminate|]. split; [discriminate|]. reflexivity.
Qed.

(** *** Bulk deletion *)







(** *** Statistics *)

Lemma bson_le_refl x : bson_le x x = true.
Proof.
  destruct x as [| |a|]; simpl; try done. apply bool_decide_eq_true, Qcle_refl.
Qed.

Lemma bson_le_trans x y z : bson_le x y = true → bson_le y z = true → bson_le x z = true.
Proof.
  destruct x as [| |a|], y as [| |b|], z as [| |c|]; simpl; try done.
  rewrite !bool_decide_eq_true. apply Qcle_trans.
Qed.

Lemma bson_le_total x y : bson_le x y = false → bson_le y x = true.
Proof.
  destruct x as [| |a|], y as [| |b|]; simpl; try done.
  rewrite bool_decide_eq_false, bool_decide_eq_true. intros H.
  apply Qclt_le_weak. by apply Qcnot_le_lt.
Qed.

Lemma foldr_min_spec x l :
  (bson_le (foldr num_min x l) x = true
   ∧ ∀ y, y ∈ l → bson_le (foldr num_min x l) y = true) ∧
  (foldr num_min x l = x ∨ foldr num_min x l ∈ l).
Proof.
  induction l as [|a l [[IH1 IH2] IH3]]; cbn [foldr].
  - split; [split; [apply bson_le_refl|by intros y ?%elem_of_nil]|by left].
  - set (m := foldr num_min x l) in *. unfold num_min.
    destruct (bson_le a m) eqn:E.
    + split; [split|].
      * by apply bson_le_trans with m.
      * intros y [->|Hy]%elem_of_cons; [apply bson_le_refl|].
        apply bson_le_trans with m; [exact E|by apply IH2].
      * right. by left.
    + apply bson_le_total in E. split; [split|].
      * exact IH1.
      * intros y [->|Hy]%elem_of_cons; [exact E|by apply IH2].
      * destruct IH3 as [IH3|IH3]; [by left|right; by right].
Qed.

Lemma foldr_max_spec x l :
  (bson_le x (foldr num_max x l) = true
   ∧ ∀ y, y ∈ l → bson_le y (foldr num_max x l) = true) ∧
  (foldr num_max x l = x ∨ foldr num_max x l ∈ l).
Proof.
  induction l as [|a l [[IH1 IH2] IH3]]; cbn [foldr].
  - split; [split; [apply bson_le_refl|by intros y ?%elem_of_nil]|by left].
  - set (m := foldr num_max x l) in *. unfold num_max.
    destruct (bson_le a m) eqn:E.
    + split; [split|].
      * exact IH1.
      * intros y [->|Hy]%elem_of_cons; [exact E|by apply IH2].
      * destruct IH3 as [IH3|IH3]; [by left|right; by right].
    + apply bson_le_total in E. split; [split|].
      * by apply bson_le_trans with m.
      * intros y [->|Hy]%elem_of_cons; [apply bson_le_refl|].
        apply bson_le_trans with m; [by apply IH2|exact E].
      * right. by left.
Qed.

(** X15.  The overview of the statistics.  For an empty collection the
    overview is all zeros and the breakdown is empty.  Otherwise
    [totalProducts] is the number of stored documents, [avgPrice] and
    [totalStock] are what the store accumulates of the prices and of the
    stocks, and [minPrice] and [maxPrice] are prices of stored products
    that bound every stored price in the order of the store. *)
Theorem stats_overview_bounds db :
  let o := stats_overview (get_stats db) in
  totalProducts o = Z.of_nat (List.length db) ∧
  (db = [] →
   get_stats db =
     {| stats_overview :=
          {| totalProducts := 0; avgPrice := int 0; minPrice := int 0;
             maxPrice := int 0; totalStock := int 0 |};
        byCategory := [] |}) ∧
  (db ≠ [] →
     avgPrice o = store_avg (map price db) ∧
     totalStock o = store_sum (map stock db) ∧
     (∃ p, p ∈ db ∧ price p = minPrice o) ∧
     (∃ p, p ∈ db ∧ price p = maxPrice o) ∧
     ∀ p, p ∈ db →
          bson_le (minPrice o) (price p) = true ∧ bson_le (price p) (maxPrice o) = true).
Proof.
  destruct db as [|a db].
  { cbv zeta. split; [reflexivity|]. split; [|done]. intros _.
    unfold get_stats. cbn [group_all head default group_by_category accumulate foldl map].
    f_equal. apply Permutation_nil. symmetry. apply store_sort_groups_perm. }
  intros o.
  assert (o = {| totalProducts := Z.of_nat (List.length (a :: db));
                 avgPrice := store_avg (map price (a :: db));
                 minPrice := foldr num_min (price a) (map price db);
                 maxPrice := foldr num_max (price a) (map price db);
                 totalStock := store_sum (map stock (a :: db)) |}) as Ho by reflexivity.
  clearbody o. subst o. cbn [totalProducts avgPrice minPrice maxPrice totalStock].
  destruct (foldr_min_spec (price a) (map price db)) as [[Hm1 Hm2] Hm3].
  destruct (foldr_max_spec (price a) (map price db)) as [[HM1 HM2] HM3].
  split; [reflexivity|]. split; [discriminate|]. intros _.
  split; [reflexivity|]. split; [reflexivity|].
  split.
  { destruct Hm3 as [->|(p & -> & Hp)%elem_of_map_1].
    - exists a. split; [by left|reflexivity].
    - exists p. split; [by right|reflexivity]. }
  split.
  { destruct HM3 as [->|(p & -> & Hp)%elem_of_map_1].
    - exists a. split; [by left|reflexivity].
    - exists p. split; [by right|reflexivity]. }
  intros p [->|Hp]%elem_of_cons; [by split|].
  split; [apply Hm2|apply HM2]; by apply elem_of_map_2.
Qed.

Lemma bump_keys k x gs k' :
  k' ∈ map fst (bump k x gs) ↔ k' = k ∨ k' ∈ map fst gs.
Proof.
  induction gs as [|[k0 [n t]] gs IH]; simpl.
  - rewrite list_elem_of_singleton. split; [by left|].
    intros [H|H%elem_of_nil]; done.
  - destruct (bool_decide (k0 = k)) eqn:E; simpl.
    + apply bool_decide_eq_true in E. subst k0. rewrite !elem_of_cons.
      split; [intros [H|H]; auto|intros [H|[H|H]]; auto].
    + rewrite !elem_of_cons, IH. split; intros [H|[H|H]]; auto.
Qed.

Lemma bump_NoDup k x gs : NoDup (map fst gs) → NoDup (map fst (bump k x gs)).
Proof.
  induction gs as [|[k0 [n t]] gs IH]; simpl.
  - intros _. apply NoDup_singleton.
  - intros [H1 H2]%NoDup_cons. destruct (bool_decide (k0 = k)) eqn:E; simpl.
    + by apply NoDup_cons.
    + apply bool_decide_eq_false in E. apply NoDup_cons. split; [|by apply IH].
      rewrite bump_keys. intros [->|H]; done.
Qed.

Lemma bump_entry k x gs k' n t :
  NoDup (map fst gs) →
  (k', (n, t)) ∈ bump k x gs →
  (k' ≠ k ∧ (k', (n, t)) ∈ gs) ∨
  (k' = k ∧ (k ∉ map fst gs) ∧ n = 1 ∧ t = [x]) ∨
  (k' = k ∧ ∃ n0 t0, (k, (n0, t0)) ∈ gs ∧ n = n0 + 1 ∧ t = (t0 ++ [x])%list).
Proof.
  induction gs as [|[k0 [n0 t0]] gs IH]; simpl.
  - intros _ [= -> -> ->]%list_elem_of_singleton. right. left.
    repeat split. by intros ?%elem_of_nil.
  - intros [H1 H2]%NoDup_cons. destruct (bool_decide (k0 = k)) eqn:E; simpl.
    + apply bool_decide_eq_true in E. subst k0.
      intros [[= -> -> ->]|Hin]%elem_of_cons.
      * right. right. split; [reflexivity|]. exists n0, t0. split; [by left|done].
      * left. split; [|by right]. intros ->. apply H1.
        by apply (elem_of_map_2 fst) in Hin.
    + apply bool_decide_eq_false in E.
      intros [[= -> -> ->]|Hin]%elem_of_cons.
      * left. split; [exact E|by left].
      * destruct (IH H2 Hin) as [[Hk Hg]|[(-> & Hk & -> & ->)|(-> & n1 & t1 & Hg & -> & ->)]].
        -- left. split; [exact Hk|by right].
        -- right. left. repeat split. rewrite not_elem_of_cons. by split.
        -- right. right. split; [reflexivity|]. exists n1, t1. split; [by right|done].
Qed.

Lemma bump_total k x gs :
  foldr Z.add 0 (map (λ g, g.2.1) (bump k x gs))
  = foldr Z.add 0 (map (λ g : option string * (Z * list xnum), g.2.1) gs) + 1.
Proof.
  induction gs as [|[k0 [n t]] gs IH]; simpl; [reflexivity|].
  destruct (bool_decide (k0 = k)); simpl; [lia|]. rewrite IH. lia.
Qed.

Lemma filter_absent (f : product → bool) (l : store) :
  (∀ p, p ∈ l → f p = false) → List.filter f l = [].
Proof.
  induction l as [|a l IH]; simpl; [reflexivity|]. intros H.
  rewrite (H a) by (by left). apply IH. intros p Hp. apply H. by right.
Qed.

Lemma accumulate_spec gs done rest :
  NoDup (map fst gs) →
  (∀ k, k ∈ map fst gs ↔ k ∈ map category done) →
  (∀ k n t, (k, (n, t)) ∈ gs →
     n = Z.of_nat (List.length (List.filter (in_category k) done)) ∧
     t = map price (List.filter (in_category k) done)) →
  let gs' := foldl (λ groups p, bump (category p) (price p) groups) gs rest in
  NoDup (map fst gs') ∧
  (∀ k, k ∈ map fst gs' ↔ k ∈ map category (done ++ rest)%list) ∧
  (∀ k n t, (k, (n, t)) ∈ gs' →
     n = Z.of_nat (List.length (List.filter (in_category k) (done ++ rest)%list)) ∧
     t = map price (List.filter (in_category k) (done ++ rest)%list)) ∧
  foldr Z.add 0 (map (λ g, g.2.1) gs')
  = foldr Z.add 0 (map (λ g : option string * (Z * list xnum), g.2.1) gs)
    + Z.of_nat (List.length rest).
Proof.
  revert gs done. induction rest as [|p rest IH]; intros gs done Hnd Hkeys Hent.
  - cbv zeta. cbn [foldl List.length]. rewrite app_nil_r.
    split; [exact Hnd|]. split; [exact Hkeys|]. split; [exact Hent|]. lia.
  - cbv zeta. cbn [foldl].
    assert (NoDup (map fst (bump (category p) (price p) gs))) as Hnd'
      by by apply bump_NoDup.
    assert (∀ k, k ∈ map fst (bump (category p) (price p) gs)
                 ↔ k ∈ map category (done ++ [p])%list) as Hkeys'.
    { intros k. rewrite bump_keys, Hkeys, map_app, elem_of_app. simpl.
      rewrite list_elem_of_singleton. split; intros [H|H]; auto. }
    assert (∀ k n t, (k, (n, t)) ∈ bump (category p) (price p) gs →
              n = Z.of_nat (List.length (List.filter (in_category k) (done ++ [p])%list)) ∧
              t = map price (List.filter (in_category k) (done ++ [p])%list)) as Hent'.
    { intros k n t Hin. rewrite List.filter_app. simpl. unfold in_category at 2 4.
      destruct (bump_entry _ _ _ _ _ _ Hnd Hin)
        as [[Hk Hg]|[(-> & Hk & -> & ->)|(-> & n1 & t1 & Hg & -> & ->)]].
      - rewrite bool_decide_eq_false_2 by congruence. rewrite app_nil_r. by apply Hent.
      - rewrite bool_decide_eq_true_2 by reflexivity.
        rewrite (filter_absent (in_category (category p)) done).
        + simpl. split; reflexivity.
        + intros q Hq. unfold in_category. apply bool_decide_eq_false_2. intros E.
          apply Hk, Hkeys. rewrite <- E. by apply elem_of_map_2.
      - rewrite bool_decide_eq_true_2 by reflexivity.
        destruct (Hent _ _ _ Hg) as [-> ->].
        rewrite length_app, map_app. simpl. split; [lia|reflexivity]. }
    destruct (IH _ (done ++ [p])%list Hnd' Hkeys' Hent') as (I1 & I2 & I3 & I4).
    rewrite <- app_assoc in I2, I3. simpl in I2, I3.
    split; [exact I1|]. split; [exact I2|]. split; [exact I3|].
    rewrite I4, bump_total. cbn [List.length]. lia.
Qed.

Lemma total_count_perm l l' : Permutation l l' → total_count l = total_count l'.
Proof.
  unfold total_count. induction 1; simpl; lia.
Qed.

(** X16.  The breakdown of the statistics by category.  There is one
    group for each category that a stored product has, and no other; its
    [count] is the number of stored products of that category, at least
    1; its [avgPrice] is what the store accumulates of their prices, in
    the order of the collection; the counts add up to the number of
    stored documents; and the groups come in the order of the store, the
    largest count first. *)
Theorem stats_by_category db :
  let groups := byCategory (get_stats db) in
  NoDup (map group_id groups) ∧
  (∀ c, c ∈ map group_id groups ↔ c ∈ map category db) ∧
  (∀ g, g ∈ groups →
     count g = Z.of_nat (List.length (List.filter (in_category (group_id g)) db)) ∧
     1 ≤ count g ∧
     group_avgPrice g
       = store_avg (map price (List.filter (in_category (group_id g)) db))) ∧
  total_count groups = Z.of_nat (List.length db) ∧
  StronglySorted (λ a b, count b ≤ count a) groups.
Proof.
  intros groups.
  assert (Permutation groups (group_by_category db)) as Hperm
    by apply store_sort_groups_perm.
  destruct (accumulate_spec [] [] db) as (I1 & I2 & I3 & I4).
  { constructor. }
  { intros k. simpl. reflexivity. }
  { by intros k n t ?%elem_of_nil. }
  simpl in I2, I3, I4. fold (accumulate db) in I1, I2, I3, I4.
  assert (map group_id (group_by_category db) = map fst (accumulate db)) as Hids.
  { unfold group_by_category. rewrite map_map. reflexivity. }
  assert (∀ g, g ∈ groups →
            count g = Z.of_nat (List.length (List.filter (in_category (group_id g)) db)) ∧
            1 ≤ count g ∧
            group_avgPrice g
              = store_avg (map price (List.filter (in_category (group_id g)) db))) as Hg.
  { intros g Hin. rewrite Hperm in Hin. unfold group_by_category in Hin.
    apply elem_of_map_1 in Hin as ([k [n t]] & -> & Hin). simpl.
    destruct (I3 _ _ _ Hin) as [-> ->].
    assert (k ∈ map category db) as Hk.
    { apply I2. by apply (elem_of_map_2 fst) in Hin. }
    apply elem_of_map_1 in Hk as (p & -> & Hp).
    assert (p ∈ List.filter (in_category (category p)) db) as Hp'.
    { apply elem_of_filter_bool. split; [exact Hp|]. by apply bool_decide_eq_true_2. }
    assert (1 ≤ Z.of_nat (List.length (List.filter (in_category (category p)) db))) as H1.
    { destruct (List.filter (in_category (category p)) db);
        [by apply elem_of_nil in Hp'|simpl; lia]. }
    split; [reflexivity|]. split; [exact H1|reflexivity]. }
  split.
  { rewrite (Permutation_map group_id Hperm), Hids. exact I1. }
  split.
  { intros c. rewrite <- I2, <- Hids. by rewrite Hperm. }
  split; [exact Hg|]. split.
  - rewrite (total_count_perm _ _ Hperm). unfold total_count, group_by_category.
    rewrite map_map. simpl. rewrite I4. simpl. lia.
  - apply store_sort_groups_sorted.
Qed.

(** *** The list *)


(** *** The schema *)

Lemma exec_preserved (P : store → Prop) :
  (∀ R (c : cmd R) db, P db → P (exec c db).1) →
  (∀ db0 s, P db0 → reachable db0 s → P s.1) ∧
  (∀ rs db, P db → P (serve rs db).1).
Proof.
  intros Hexec.
  assert (∀ A (m : prog A) db, P db → P (run m db).1) as Hrun.
  { intros A m. induction m as [a|R c k IH]; intros db H; simpl; [exact H|].
    pose proof (Hexec R c db H) as H1.
    destruct (exec c db) as [db' r]. by apply IH. }
  split.
  - intros db0 s H0. induction 1 as [|s s' _ IH Hstep]; [exact H0|].
    destruct Hstep as [db pool r | db db' l1 l2 R c k a He | db l1 l2 a];
      simpl in *; try exact IH.
    pose proof (Hexec R c db IH) as H. by rewrite He in H.
  - intros rs. induction rs as [|r rs IH]; intros db H; simpl; [exact H|].
    pose proof (Hrun _ (handler r) db H) as H1.
    destruct (run (handler r) db) as [db1 a]. simpl in H1.
    specialize (IH db1 H1). by destruct (serve rs db1).
Qed.

Lemma Forall_sublist {A} (P : A → Prop) (l k : list A) :
  Forall P k → l `sublist_of` k → Forall P l.
Proof.
  rewrite !Forall_forall. intros H Hs x Hx. apply H.
  by eapply elem_of_sublist.
Qed.

Lemma apply_set_schema_valid t a p :
  validate_update a = true → schema_valid p → schema_valid (apply_set t a p).
Proof.
  unfold validate_update, schema_valid. intros Hv (H1 & H2 & H3 & H4).
  apply andb_prop in Hv as [Hv _]. apply andb_prop in Hv as [Hv V4].
  apply andb_prop in Hv as [Hv V3]. apply andb_prop in Hv as [V1 V2]. simpl.
  repeat split.
  - destruct (set_name a) as [[nm|]|]; simpl in V1; done.
  - destruct (set_price a); simpl in *; done.
  - destruct (set_description a); simpl in *; done.
  - destruct (set_category a); simpl in *; done.
Qed.

Lemma exec_schema_valid {R} (c : cmd R) db :
  Forall schema_valid db → Forall schema_valid (exec c db).1.
Proof.
  destruct c; cbn [exec fst]; intros H; try exact H.
  - unfold save. destruct (build d data) as [p|] eqn:Hb; [|exact H].
    destruct (existsb _ db); [exact H|]. simpl.
    apply Forall_app. split; [exact H|]. constructor; [|constructor].
    apply build_inv in Hb as (_ & _ & _ & _ & _ & _ & _ & V1 & V2 & V3 & V4).
    destruct (preSave_fields p) as (_ & F2 & F3 & F4 & F5 & _).
    unfold schema_valid. by rewrite F2, F3, F4, F5.
  - unfold findByIdAndUpdate. destruct (cast_update upd) as [a|]; [|exact H].
    destruct (validate_update a) eqn:Hv; [|exact H].
    pose proof (update_first_Forall schema_valid (has_id id) (apply_set t a) db) as HF.
    destruct (update_first (has_id id) (apply_set t a) db) as [db' r]. simpl in *.
    apply HF; [|exact H]. intros p _. by apply apply_set_schema_valid.
  - unfold findOneAndUpdate.
    destruct (is_NaN delta || from_option is_NaN false guard); [exact H|].
    pose proof (update_first_Forall schema_valid (stock_filter id guard)
                  (apply_inc t delta) db) as HF.
    destruct (update_first _ _ db) as [db' r]. simpl in *.
    apply HF; [|exact H]. by intros p _ Hp.
  - unfold findByIdAndDelete. by apply remove_first_Forall.
Qed.

(** X19.  Stored products fit the schema.  From a collection in which
    every document has a name of 1 to 200 characters, a price that is not
    negative, a description of at most 2000 characters and a category of
    at most 100, no interleaving of handlers and no sequence of requests,
    bulk deletions included, leads to a collection with a document that
    has not. *)
Theorem stored_products_fit_the_schema db0 :
  Forall schema_valid db0 →
  (∀ s, reachable db0 s → Forall schema_valid s.1) ∧
  (∀ rs, Forall schema_valid (serve rs db0).1) ∧
  (∀ ids, Forall schema_valid (post_bulk_delete ids db0).1).
Proof.
  intros H0.
  destruct (exec_preserved (Forall schema_valid) (@exec_schema_valid)) as [Hr Hs].
  split; [intros s; by apply Hr|]. split; [intros rs; by apply Hs|].
  intros ids. apply (Forall_sublist _ _ db0); [exact H0|].
  unfold post_bulk_delete. destruct ids as [ids|]; simpl; [|done].
  destruct (List.length ids =? 0)%nat; [done|].
  destruct (List.length (List.filter isValidObjectId ids) =? 0)%nat; [done|].
  apply sublist_filter_bool.
Qed.

(** X20.  The pre-save middleware is idle.  The validators run before it
    and refuse a negative stock, so that it never changes a document that
    [save] stores: what creation stores, when it stores, is the document
    as it was built from the body. *)
Theorem pre_save_hook_is_idle d data db p :
  build d data = Some p →
  preSave p = p ∧
  (existsb (has_id (_id p)) db = false → save d data db = ((db ++ [p])%list, Returned p)) ∧
  (existsb (has_id (_id p)) db = true → save d data db = (db, Threw)).
Proof.
  intros Hb. pose proof (build_stock d data p Hb) as [_ Hge].
  pose proof (preSave_valid p Hge) as E. unfold save. rewrite Hb, E.
  split; [reflexivity|]. split; by intros ->.
Qed.

(** *** Updates are merges *)

Lemma cast_update_absent u a :
  cast_update u = Some a →
  (u !! "name" = None → set_name a = None) ∧
  (u !! "price" = None → set_price a = None) ∧
  (u !! "description" = None → set_description a = None) ∧
  (u !! "category" = None → set_category a = None) ∧
  (u !! "stock" = None → set_stock a = None).
Proof.
  intros H. apply cast_update_paths in H as (H1 & H2 & H3 & H4 & H5).
  unfold cast_path in *.
  repeat split; intros E; rewrite E in *; congruence.
Qed.

Lemma merge_of_update body t id u db db' p' :
  (∀ k, prop body k = VUndefined → u !! k = None) →
  findByIdAndUpdate t id u db = (db', Returned (Some p')) →
  ∃ p, p ∈ db ∧ same_id id p ∧ findById id db = Some p ∧ findById id db' = Some p'
       ∧ keeps_absent body t p p'.
Proof.
  intros Hu Hf.
  apply findByIdAndUpdate_returned in Hf as (p & a & Hp & Ha & _ & -> & Hp').
  exists p. destruct (findById_Some _ _ _ Hp) as [Hin Hs].
  split; [exact Hin|]. split; [exact Hs|]. split; [exact Hp|]. split; [exact Hp'|].
  destruct (cast_update_absent u a Ha) as (A1 & A2 & A3 & A4 & A5).
  unfold keeps_absent, apply_set. simpl.
  split; [reflexivity|]. split; [reflexivity|]. split; [reflexivity|].
  split; [intros E; by rewrite (A1 (Hu _ E))|].
  split; [intros E; by rewrite (A2 (Hu _ E))|].
  split; [intros E; by rewrite (A3 (Hu _ E))|].
  split; [intros E; by rewrite (A4 (Hu _ E))|].
  intros E; by rewrite (A5 (Hu _ E)).
Qed.

Lemma run_update_200 t id u db db' p' :
  run (Call (FindByIdAndUpdate t id u) (after_update "Failed to update product")) db
    = (db', respond 200 (JProduct p')) →
  findByIdAndUpdate t id u db = (db', Returned (Some p')).
Proof.
  rewrite run_update. destruct (findByIdAndUpdate t id u db) as [db1 [[x|]|]]; simpl.
  - by intros [= -> ->].
  - discriminate.
  - discriminate.
Qed.

(** X23.  Updates are merges.  A full replace, like a partial update,
    assigns only what the body holds: when either is answered 200, the
    product of the answer is the first stored one with the ObjectId of
    the identifier, with the same identifier and creation time, the
    update time of the request, and every property among the five that
    the body leaves out as it was; and it is what the collection then
    holds for that identifier. *)
Theorem updates_are_merges t id body db db' p' :
  (run (put_id t id body) db = (db', {| status := 200; payload := JProduct p' |}) →
   ∃ p, p ∈ db ∧ same_id id p ∧ findById id db = Some p ∧ findById id db' = Some p'
        ∧ keeps_absent body t p p') ∧
  (run (patch_id t id body) db = (db', {| status := 200; payload := JProduct p' |}) →
   ∃ p, p ∈ db ∧ same_id id p ∧ findById id db = Some p ∧ findById id db' = Some p'
        ∧ keeps_absent body t p p').
Proof.
  split.
  - unfold put_id. destruct (negb (isValidObjectId id)); [discriminate|].
    destruct (put_checks body) as [bad|u] eqn:Hc.
    { rewrite put_checks_shape in Hc. revert Hc.
      repeat case_if; intros Hc; try discriminate Hc; injection Hc as <-; discriminate. }
    destruct (bool_decide (u = ∅)); [discriminate|].
    intros H%run_update_200. eapply merge_of_update; [|exact H].
    intros k E. rewrite (put_checks_lookup body u k Hc). unfold put_present.
    rewrite E. simpl. by rewrite andb_false_r.
  - unfold patch_id. destruct (negb (isValidObjectId id)); [discriminate|].
    destruct (bool_decide (patch_updateData body = ∅)); [discriminate|].
    intros H%run_update_200. eapply merge_of_update; [|exact H].
    intros k E. rewrite patch_updateData_lookup. unfold patch_kept.
    rewrite E. simpl. by rewrite andb_false_r.
Qed.

End Engine.

Arguments Ret {A} a.
Arguments Call {A R} c k.
(** ** The gateway *)

(** C8.  When the upstream call of a forwarded request fails and nothing
    has been written yet, the first rule that applies decides the response:
    a refused connection gives 503 with an error and a message; otherwise a
    timeout or an abort gives 504 with an error and a message; otherwise an
    error of the transport that carries an upstream response gives that
    response's status and data; any other failure gives 502 with an error
    only.  In that last case a response that has already started is not
    written again: the error goes to the enclosing handler. *)
Theorem proxy_failure_mapping (data : Type) (e : Gateway.error data)
    (r : Gateway.res data) :
  (Gateway.headersSent r = false →
     (Gateway.refused e = true →
        Gateway.proxyRequest (inr e) r =
          Gateway.Responded
            {| Gateway.headersSent := true; Gateway.statusCode := 503;
               Gateway.sent :=
                 Some (Gateway.Message "Backend service unavailable"
                         "The backend service is currently unavailable. Please try again later.") |}) ∧
     (Gateway.refused e = false → Gateway.timed_out e = true →
        Gateway.proxyRequest (inr e) r =
          Gateway.Responded
            {| Gateway.headersSent := true; Gateway.statusCode := 504;
               Gateway.sent :=
                 Some (Gateway.Message "Backend service timeout"
                         "The backend service did not respond in time. Please try again later.") |}) ∧
     (∀ up, Gateway.refused e = false → Gateway.timed_out e = false →
        Gateway.isAxiosError e = true → Gateway.response e = Some up →
        Gateway.proxyRequest (inr e) r =
          Gateway.Responded
            {| Gateway.headersSent := true;
               Gateway.statusCode := Gateway.up_status up;
               Gateway.sent := Some (Gateway.Relayed (Gateway.up_data up)) |}) ∧
     (Gateway.refused e = false → Gateway.timed_out e = false →
        Gateway.carries_response e = false →
        Gateway.proxyRequest (inr e) r =
          Gateway.Responded
            {| Gateway.headersSent := true; Gateway.statusCode := 502;
               Gateway.sent := Some (Gateway.Minimal "bad gateway") |})) ∧
  (Gateway.headersSent r = true →
     Gateway.refused e = false → Gateway.timed_out e = false →
     Gateway.carries_response e = false →
     Gateway.proxyRequest (inr e) r = Gateway.Escalated e r).
Proof.
  unfold Gateway.refused, Gateway.timed_out, Gateway.carries_response.
  unfold Gateway.proxyRequest, Gateway.on_error, Gateway.write, Gateway.status_json.
  split.
  - intros ->. simpl.
    destruct (Gateway.isAxiosError e); simpl.
    + repeat split.
      * by intros ->.
      * by intros -> ->.
      * intros up -> -> _ ->. reflexivity.
      * intros -> -> H. apply bool_decide_eq_false in H.
        destruct (Gateway.response e); [|reflexivity].
        exfalso. apply H. by eexists.
    + repeat split; discriminate.
  - intros ->. simpl.
    destruct (Gateway.isAxiosError e); simpl; [|reflexivity].
    intros -> -> H. apply bool_decide_eq_false in H.
    destruct (Gateway.response e); [|reflexivity].
    exfalso. apply H. by eexists.
Qed.

Lemma or_else_nonempty a s : s ≠ "" → ∃ s', Gateway.or_else a (Some s) = Some s' ∧ s' ≠ "".
Proof.
  intros Hs. destruct a as [x|]; simpl; [|by exists s].
  destruct (String.eqb_spec x ""); [by exists s|by exists x].
Qed.


(** X22.  The options of the upstream call.  [proxyRequest] calls the HTTP
    client with the backend address followed by the path of the inbound
    request as the address, with the method, the query parameters and the
    body of the inbound request, the body also when it is empty, and with
    a timeout of 30000 ms.  The headers that it sets are no other than
    [Content-Type], [X-Forwarded-For] and [X-Forwarded-Proto]: it sets
    [Content-Type] exactly when the inbound body is not empty, and then to
    a text that is not empty; it sets [X-Forwarded-Proto] to the protocol
    of the inbound request.  The handler reads no inbound header but
    [content-type]: for two inbound requests with the same method, path,
    query, parsed body, addresses and protocol, whose headers agree on
    [content-type], the client is called with the same options. *)
Theorem upstream_call_options (params : Type) (backendUrl : string)
    (req : Gateway.inbound params) :
  Gateway.out_url (Gateway.forward backendUrl req) = backendUrl ++ Gateway.path req ∧
  Gateway.out_method (Gateway.forward backendUrl req) = Gateway.method req ∧
  Gateway.out_params (Gateway.forward backendUrl req) = Gateway.query req ∧
  Gateway.out_data (Gateway.forward backendUrl req) = Gateway.body req ∧
  Gateway.out_timeout (Gateway.forward backendUrl req) = 30000 ∧
  (∀ k, is_Some (Gateway.out_headers (Gateway.forward backendUrl req) !! k) →
        k = "Content-Type" ∨ k = "X-Forwarded-For" ∨ k = "X-Forwarded-Proto") ∧
  (is_Some (Gateway.out_headers (Gateway.forward backendUrl req) !! "Content-Type")
   ↔ Gateway.body req ≠ ∅) ∧
  (∀ v, Gateway.out_headers (Gateway.forward backendUrl req) !! "Content-Type" = Some v →
        ∃ s, v = Some s ∧ s ≠ "") ∧
  Gateway.out_headers (Gateway.forward backendUrl req) !! "X-Forwarded-Proto"
    = Some (Some (Gateway.protocol req)) ∧
  (∀ h h', h !! "content-type" = h' !! "content-type" →
           Gateway.forward backendUrl (Gateway.with_headers h req)
           = Gateway.forward backendUrl (Gateway.with_headers h' req)).
Proof.
  unfold Gateway.forward, Gateway.forward_headers.
  cbn [Gateway.out_url Gateway.out_headers Gateway.out_method Gateway.out_params
       Gateway.out_data Gateway.out_timeout].
  do 5 (split; [reflexivity|]). split; [|split; [|split; [|split]]].
  - intros k [v Hk].
    destruct (decide (k = "X-Forwarded-Proto")) as [->|N1]; [auto|].
    rewrite lookup_insert_ne in Hk by done.
    destruct (decide (k = "X-Forwarded-For")) as [->|N2]; [auto|].
    rewrite lookup_insert_ne in Hk by done.
    destruct (bool_decide (Gateway.body req ≠ ∅)).
    + destruct (decide (k = "Content-Type")) as [->|N3]; [auto|].
      rewrite lookup_insert_ne in Hk by done. by rewrite lookup_empty in Hk.
    + by rewrite lookup_empty in Hk.
  - rewrite !lookup_insert_ne by done.
    destruct (bool_decide (Gateway.body req ≠ ∅)) eqn:E.
    + apply bool_decide_eq_true in E. rewrite lookup_insert_eq. split; [done|eauto].
    + apply bool_decide_eq_false in E. rewrite lookup_empty. split; [by intros [? ?]|done].
  - intros v. rewrite !lookup_insert_ne by done.
    destruct (bool_decide (Gateway.body req ≠ ∅)).
    + rewrite lookup_insert_eq. intros [= <-].
      by apply or_else_nonempty.
    + by rewrite lookup_empty.
  - by rewrite lookup_insert_eq.
  - intros h h' E. simpl. by rewrite E.
Qed.

(** ** The platform of the concrete requests *)

Lemma insert_sorted_perm leb x l : Permutation (insert_sorted leb x l) (x :: l).
Proof.
  induction l as [|y l IH]; simpl; [reflexivity|].
  destruct (leb x y); [reflexivity|].
  rewrite IH. apply perm_swap.
Qed.

Lemma sort_docs_perm field dir l : Permutation (sort_docs field dir l) l.
Proof.
  unfold sort_docs. induction l as [|x l IH]; simpl; [reflexivity|].
  rewrite insert_sorted_perm. by constructor.
Qed.

Lemma sample_sort_perm field dir f l :
  sample_sort field dir = Some f → Permutation (f l) l.
Proof. intros [= <-]. apply sort_docs_perm. Qed.

Lemma sample_sort_createdAt dir : is_Some (sample_sort "createdAt" dir).
Proof. by eexists. Qed.

Lemma insert_stat_perm x l : Permutation (insert_stat x l) (x :: l).
Proof.
  induction l as [|y l IH]; simpl; [reflexivity|].
  destruct (count y <=? count x); [reflexivity|].
  rewrite IH. apply perm_swap.
Qed.

Lemma sort_by_count_perm l : Permutation (sort_by_count l) l.
Proof.
  unfold sort_by_count. induction l as [|x l IH]; simpl; [reflexivity|].
  rewrite insert_stat_perm. by constructor.
Qed.

Lemma insert_stat_Sorted x l :
  Sorted (λ a b, count b ≤ count a) l →
  Sorted (λ a b, count b ≤ count a) (insert_stat x l).
Proof.
  induction 1 as [|y l Hl IH Hhd]; simpl.
  - repeat constructor.
  - destruct (count y <=? count x) eqn:E.
    + apply Z.leb_le in E. constructor; [by constructor|by constructor].
    + apply Z.leb_gt in E. constructor; [exact IH|].
      destruct l as [|z l]; simpl.
      * constructor. lia.
      * destruct (count z <=? count x); constructor; [lia|]. by inversion Hhd.
Qed.

Lemma sort_by_count_Sorted l :
  StronglySorted (λ a b, count b ≤ count a) (sort_by_count l).
Proof.
  apply Sorted_StronglySorted; [intros a b c; lia|].
  unfold sort_by_count. induction l as [|x l IH]; simpl; [constructor|].
  by apply insert_stat_Sorted.
Qed.

(** Two finite numbers are one when their values are. *)
Lemma XFin_eq (a b : Qc) : (a == b)%Q → XFin a = XFin b.
Proof. intros H. f_equal. by apply Qc_is_canon. Qed.

(** ** Counterexamples and evaluations *)

Lemma half_not_integer : ¬ is_integer half.
Proof.
  intros [z Hz].
  apply (f_equal (λ x, match x with XFin q => q | _ => 0%Qc end)) in Hz.
  change (Q2Qc (1 # 2) = Q2Qc (inject_Z z)) in Hz.
  apply Q2Qc_eq_iff in Hz. unfold Qeq in Hz. simpl in Hz. lia.
Qed.

(** C1: the stock of a reachable collection need not be an integer, nor a
    number.  After a product is created and a stock request adds the
    quantity 1/2 to it, its stock is 1/2.  After a product is created with
    the stock [1e999], which JSON reads as [Infinity], its stock is
    [Infinity], and a decrement by [1e999] leaves [NaN]. *)
Lemma stock_not_always_integer :
  (∃ p,
     (serve hex24 lower_hex show_integer literal_RegExp sample_sort
        [PostRoot sample_driver {[ "name" := VStr "Laptop"; "price" := VNum (int 1) ]};
         PatchIdStock 1 sample_id {[ "quantity" := VNum half ]}] []).1 = [p] ∧
     stock p = half ∧
     ¬ is_integer (stock p)) ∧
  (∃ p p',
     serve hex24 lower_hex show_integer literal_RegExp sample_sort
       [PostRoot sample_driver
          {[ "name" := VStr "Laptop"; "price" := VNum (int 1);
             "stock" := VNum XPosInf ]};
        PatchIdStock 1 sample_id
          {[ "quantity" := VNum XPosInf; "operation" := VStr "decrement" ]}] []
     = ([p'], [{| status := 201; payload := JProduct p |};
               {| status := 200; payload := JProduct p' |}]) ∧
     stock p = XPosInf ∧ stock p' = XNaN).
Proof.
  split.
  - eexists. split; [vm_compute; reflexivity|]. cbn [stock].
    match goal with
    | |- ?x = half ∧ _ => assert (x = half) as -> by (apply XFin_eq; reflexivity)
    end.
    split; [reflexivity|apply half_not_integer].
  - eexists _, _. split; [vm_compute; reflexivity|]. split; reflexivity.
Qed.

(** C2: the operation [set] is not implemented as an assignment.  On a
    product whose stock is 5, the request with quantity 3 and operation
    [set] is answered 200 with the stock 8, not 3. *)
Theorem set_operation_adds :
  ∃ p,
    run lower_hex show_integer sample_sort
      (patch_id_stock hex24 1 sample_id
         {[ "quantity" := VNum (int 3); "operation" := VStr "set" ]})
      [sample_product "Laptop" (int 5)]
    = ([p], {| status := 200; payload := JProduct p |}) ∧
    stock p = int 8 ∧
    stock p ≠ int 3.
Proof.
  eexists. split; [vm_compute; reflexivity|]. cbn [stock].
  match goal with
  | |- ?x = _ ∧ _ => assert (x = int 8) as -> by (apply XFin_eq; reflexivity)
  end.
  split; [reflexivity|]. intros H.
  apply (f_equal (λ x, match x with XFin q => q | _ => 0%Qc end)) in H.
  change (Q2Qc (inject_Z 8) = Q2Qc (inject_Z 3)) in H.
  apply Q2Qc_eq_iff in H. discriminate H.
Qed.



(** C6: full replace rejects a negative stock that creation accepts (and
    stores as 0). *)
Lemma put_rejects_stock_that_create_ignores :
  put_id hex24 1 sample_id
    {[ "name" := VStr "Laptop"; "price" := VNum (int 1); "stock" := VNum (int (-1)) ]}
  = Ret invalid_stock ∧
  ∃ p, run lower_hex show_integer sample_sort
         (post_root sample_driver
            {[ "name" := VStr "Laptop"; "price" := VNum (int 1);
               "stock" := VNum (int (-1)) ]}) []
       = ([p], respond 201 (JProduct p))
       ∧ stock p = int 0.
Proof.
  split; [vm_compute; reflexivity|].
  eexists. split; [vm_compute; reflexivity|]. reflexivity.
Qed.

(** ** The theorems at concrete requests *)

(** Two decrements of the last unit in flight at once; a creation followed
    by a decrement of the whole stock; and a decrement by 5 of a stock of
    5, addressed by the identifier in upper case. *)
Lemma stock_never_negative_witness :
  stock_ok [apply_inc 2 (x_neg (int 1)) (sample_product "Laptop" (int 1))] ∧
  stock_ok
    (serve hex24 lower_hex show_integer literal_RegExp sample_sort
       [PostRoot sample_driver
          {[ "name" := VStr "Laptop"; "price" := VNum (int 1); "stock" := VNum (int 5) ]};
        PatchIdStock 1 sample_id
          {[ "quantity" := VNum (int 5); "operation" := VStr "decrement" ]}] []).1 ∧
  (∃ p p',
     JProduct (apply_inc 1 (x_neg (int 5)) (sample_product "Laptop" (int 5)))
       = JProduct p' ∧
     p ∈ [sample_product "Laptop" (int 5)] ∧ same_id lower_hex sample_id_upper p
     ∧ num_le (int 5) (stock p) = true
     ∧ stock p' = x_add (stock p) (x_neg (int 5))
     ∧ _id p' = _id p
     ∧ p' ∈ [apply_inc 1 (x_neg (int 5)) (sample_product "Laptop" (int 5))]).
Proof.
  destruct (stock_never_negative hex24 lower_hex show_integer literal_RegExp sample_sort)
    as (Hreach & Hserve & Hdec & Hcreate & Hpre).
  split; [|split].
  - (* two decrements of the last unit in flight: the second to reach the
       store is served first *)
    pose (body1 := ({[ "quantity" := VNum (int 1); "operation" := VStr "decrement" ]}
                    : gmap string value)).
    pose (db0 := [sample_product "Laptop" (int 1)]).
    pose (c1 := FindOneAndUpdate 1 sample_id (Some (int 1)) (x_neg (int 1))).
    pose (c2 := FindOneAndUpdate 2 sample_id (Some (int 1)) (x_neg (int 1))).
    destruct (Hdec 1 sample_id body1 (int 1)) as [(k1 & Hk1 & _) _];
      [vm_compute; reflexivity..|].
    destruct (Hdec 2 sample_id body1 (int 1)) as [(k2 & Hk2 & _) _];
      [vm_compute; reflexivity..|].
    refine (Hreach db0
              ([apply_inc 2 (x_neg (int 1)) (sample_product "Laptop" (int 1))],
               [k1 (Returned None);
                k2 (Returned (Some (apply_inc 2 (x_neg (int 1))
                                      (sample_product "Laptop" (int 1)))))]) _ _).
    + repeat constructor.
    + eapply reach_step.
      * eapply reach_step.
        -- eapply reach_step.
           ++ eapply reach_step; [apply reach_init|].
              apply (step_accept hex24 lower_hex show_integer literal_RegExp sample_sort
                       db0 [] (PatchIdStock 2 sample_id body1)).
           ++ apply (step_accept hex24 lower_hex show_integer literal_RegExp sample_sort
                       db0 _ (PatchIdStock 1 sample_id body1)).
        -- cbn [handler]. rewrite Hk2.
           eapply (step_call hex24 lower_hex show_integer literal_RegExp sample_sort db0 _
                     [patch_id_stock hex24 1 sample_id body1] [] _ c2 k2).
           vm_compute. reflexivity.
      * cbn [handler]. rewrite Hk1.
        eapply (step_call hex24 lower_hex show_integer literal_RegExp sample_sort
                  _ _ [] [_] _ c1 k1).
        vm_compute. reflexivity.
  - apply Hserve. constructor.
  - refine (proj2 (Hdec 1 sample_id_upper
                     {[ "quantity" := VNum (int 5); "operation" := VStr "decrement" ]}
                     (int 5) _ _ _ _)
              [sample_product "Laptop" (int 5)]
              [apply_inc 1 (x_neg (int 5)) (sample_product "Laptop" (int 5))]
              {| status := 200;
                 payload := JProduct (apply_inc 1 (x_neg (int 5))
                                        (sample_product "Laptop" (int 5))) |} _ _);
      vm_compute; reflexivity.
Defined.

(** A decrement by 51 of a stock of 50, addressed by the identifier in
    upper case. *)
Lemma stock_update_miss_witness :
  ∃ r, run lower_hex show_integer sample_sort
         (patch_id_stock hex24 1 sample_id_upper
            {[ "quantity" := VNum (int 51); "operation" := VStr "decrement" ]})
         [sample_product "Laptop" (int 50)]
       = ([sample_product "Laptop" (int 50)], r)
       ∧ r = {| status := 400;
                payload := JError "Insufficient stock" "Not enough stock to decrement" |}.
Proof.
  destruct (stock_update_miss hex24 lower_hex show_integer sample_sort 1 sample_id_upper
              {[ "quantity" := VNum (int 51); "operation" := VStr "decrement" ]}
              (int 51)) as (_ & _ & H);
    [vm_compute; reflexivity|vm_compute; reflexivity|vm_compute; reflexivity|].
  destruct (H [sample_product "Laptop" (int 50)]) as (r & Hrun & Hr);
    [vm_compute; reflexivity|].
  exists r. split; [exact Hrun|].
  destruct Hr as [[_ Hnone]|[Hr _]]; [|exact Hr].
  exfalso. apply Hnone. exists (sample_product "Laptop" (int 50)).
  split; [repeat constructor|vm_compute; reflexivity].
Defined.




(** A name that is a number. *)
Lemma put_validation_witness :
  post_root sample_driver {[ "name" := VNum (int 3) ]} = Ret invalid_name_required
  ↔ put_checks {[ "name" := VNum (int 3) ]} = inl invalid_name.
Proof.
  apply (put_validation hex24 1 sample_id sample_driver {[ "name" := VNum (int 3) ]}).
  - vm_compute. reflexivity.
  - vm_compute. discriminate.
Defined.

(** The query [c++] on a store that holds a product of that name, with an
    engine that refuses the pattern. *)
Lemma search_is_a_pattern_witness :
  literal_RegExp "c++" = None ∧
  run lower_hex show_integer sample_sort
    (get_search literal_RegExp (VStr "c++")) [sample_product "c++" (int 1)]
  = ([sample_product "c++" (int 1)],
     {| status := 500;
        payload := JError "Server error" "Failed to search products" |}).
Proof.
  split; [reflexivity|].
  apply (search_is_a_pattern lower_hex show_integer literal_RegExp sample_sort
           sample_sort_perm sample_sort_createdAt).
  reflexivity.
Defined.

(** The category [{_id: "<b>"}] in a partial update of a stored product. *)
Lemma sanitizeString_leaves_space_witness :
  ∃ db' p',
    run lower_hex show_integer sample_sort
      (patch_id hex24 1 sample_id {["category" := VObj {["_id" := VStr "<b>"]}]})
      [sample_product "Laptop" (int 5)]
    = (db', {| status := 200; payload := JProduct p' |}) ∧
    category p' = Some "<b>" ∧ p' ∈ db' ∧ findById lower_hex sample_id db' = Some p'.
Proof.
  apply (proj2 (proj2 (proj2 (sanitizeString_leaves_space hex24 lower_hex show_integer
                                literal_RegExp sample_sort)))
           1 sample_id [sample_product "Laptop" (int 5)] (sample_product "Laptop" (int 5)));
    vm_compute; reflexivity.
Defined.

(** A refused connection, on a response not yet started. *)
Lemma proxy_failure_mapping_witness :
  Gateway.proxyRequest (data := string)
    (inr {| Gateway.isAxiosError := true; Gateway.code := Some "ECONNREFUSED";
            Gateway.response := None |})
    Gateway.fresh_res
  = Gateway.Responded
      {| Gateway.headersSent := true; Gateway.statusCode := 503;
         Gateway.sent :=
           Some (Gateway.Message "Backend service unavailable"
                   "The backend service is currently unavailable. Please try again later.") |}.
Proof.
  apply (proxy_failure_mapping string); reflexivity.
Defined.

(** Two creations with an identifier that is taken already. *)
Lemma identifiers_stay_unique_witness :
  unique_ids
    (serve hex24 lower_hex show_integer literal_RegExp sample_sort
       [PostRoot sample_driver {[ "name" := VStr "Laptop"; "price" := VNum (int 1) ]};
        PostRoot sample_driver {[ "name" := VStr "Mouse"; "price" := VNum (int 2) ]}]
       [other_product]).1.
Proof.
  apply (identifiers_stay_unique hex24 lower_hex show_integer literal_RegExp sample_sort
           [other_product]).
  apply (bool_decide_unpack _). vm_compute. reflexivity.
Defined.

(** The identifier [42]. *)
Lemma invalid_id_fails_fast_witness :
  get_id hex24 "42" = Ret invalid_id ∧ delete_id hex24 "42" = Ret invalid_id.
Proof.
  destruct (invalid_id_fails_fast hex24 0 "42" ∅) as (H1 & _ & _ & H4 & _);
    [vm_compute; reflexivity|].
  split; assumption.
Defined.

(** The second of two stored products, fetched by its identifier in upper
    case. *)
Lemma get_id_finds_the_document_witness :
  run lower_hex show_integer sample_sort (get_id hex24 sample_id_upper)
    [other_product; sample_product "Laptop" (int 5)]
  = ([other_product; sample_product "Laptop" (int 5)],
     {| status := 200; payload := JProduct (sample_product "Laptop" (int 5)) |}).
Proof.
  destruct (get_id_finds_the_document hex24 lower_hex show_integer sample_sort
              sample_id_upper
              [other_product; sample_product "Laptop" (int 5)]) as (_ & _ & H);
    [vm_compute; reflexivity|].
  apply H.
  - apply (bool_decide_unpack _). vm_compute. reflexivity.
  - repeat constructor.
  - vm_compute. reflexivity.
Defined.

(** The second of two stored products, deleted by its identifier in upper
    case. *)
Lemma delete_removes_the_document_witness :
  (¬ ∃ p, p ∈ [other_product] ∧ same_id lower_hex sample_id_upper p) ∧
  run lower_hex show_integer sample_sort (get_id hex24 sample_id_upper) [other_product]
    = ([other_product],
       {| status := 404; payload := JError "Not found" "Product not found" |}) ∧
  run lower_hex show_integer sample_sort (delete_id hex24 sample_id_upper) [other_product]
    = ([other_product],
       {| status := 404; payload := JError "Not found" "Product not found" |}).
Proof.
  destruct (delete_removes_the_document hex24 lower_hex show_integer sample_sort
              sample_id_upper
              [other_product; sample_product "Laptop" (int 5)] [other_product]
              {| status := 200;
                 payload := JDeleted "Product deleted successfully"
                              (sample_product "Laptop" (int 5)) |})
    as (_ & H1 & _ & _ & H2 & H3).
  - vm_compute. reflexivity.
  - apply (bool_decide_unpack _). vm_compute. reflexivity.
  - vm_compute. reflexivity.
  - split; [exact H1|]. split; [exact H2|exact H3].
Defined.

(** A creation beside a stored product, and the fetch that follows. *)
Lemma create_then_fetch_witness :
  run lower_hex show_integer sample_sort (get_id hex24 sample_id)
    [other_product; sample_product "Laptop" (int 0)]
  = ([other_product; sample_product "Laptop" (int 0)],
     respond 200 (JProduct (sample_product "Laptop" (int 0)))).
Proof.
  apply (create_then_fetch hex24 lower_hex show_integer sample_sort sample_driver
           {[ "name" := VStr " <Laptop> "; "price" := VNum (int 1) ]}
           [other_product]
           [other_product; sample_product "Laptop" (int 0)]
           (sample_product "Laptop" (int 0)));
    vm_compute; reflexivity.
Defined.

(** A creation with a name to sanitize and a description that is no
    text. *)
Lemma create_fields_witness :
  name (sample_product "Laptop" (int 0)) = "Laptop" ∧
  description (sample_product "Laptop" (int 0)) = Some "" ∧
  category (sample_product "Laptop" (int 0)) = Some "uncategorized".
Proof.
  destruct (create_fields lower_hex show_integer sample_sort sample_driver
              {[ "name" := VStr " <Laptop> "; "price" := VNum (int 1);
                 "description" := VNum (int 7) ]}
              [] [sample_product "Laptop" (int 0)] (sample_product "Laptop" (int 0)))
    as (H1 & _ & _ & _ & H2 & H3); [vm_compute; reflexivity|].
  split; [exact H1|]. split; [exact H2|exact H3].
Defined.

(** A name of angle brackets and a space. *)
Lemma create_failures_witness :
  run lower_hex show_integer sample_sort
    (post_root sample_driver {[ "name" := VStr "< >"; "price" := VNum (int 1) ]}) []
  = ([], server_error "Failed to create product").
Proof.
  apply (create_failures lower_hex show_integer sample_sort sample_driver
           {[ "name" := VStr "< >"; "price" := VNum (int 1) ]} []).
  - vm_compute. reflexivity.
  - vm_compute. reflexivity.
  - left. vm_compute. reflexivity.
Defined.

(** A decrement of the whole stock, by the identifier in upper case. *)
Lemma decrement_decided_by_stock_witness :
  ∃ db' p',
    run lower_hex show_integer sample_sort
      (patch_id_stock hex24 1 sample_id_upper
         {[ "quantity" := VNum (int 5); "operation" := VStr "decrement" ]})
      [sample_product "Laptop" (int 5)]
    = (db', {| status := 200; payload := JProduct p' |}) ∧
    stock p' = x_add (int 5) (x_neg (int 5)) ∧
    num_lt (stock p') (int 0) = false ∧
    _id p' = sample_id ∧
    findById lower_hex sample_id_upper db' = Some p' ∧ p' ∈ db'.
Proof.
  destruct (decrement_decided_by_stock hex24 lower_hex show_integer sample_sort
              1 sample_id_upper
              {[ "quantity" := VNum (int 5); "operation" := VStr "decrement" ]}
              (int 5) [sample_product "Laptop" (int 5)] (sample_product "Laptop" (int 5)))
    as (_ & H & _).
  - vm_compute. reflexivity.
  - vm_compute. reflexivity.
  - vm_compute. reflexivity.
  - vm_compute. reflexivity.
  - apply (bool_decide_unpack _). vm_compute. reflexivity.
  - repeat constructor.
  - vm_compute. reflexivity.
  - apply H. vm_compute. reflexivity.
Defined.


(** The statistics of two products of two categories. *)
Lemma stats_overview_bounds_witness :
  totalProducts
    (stats_overview
       (get_stats sum_left avg_left sort_by_count
          [sample_product "Laptop" (int 5); other_product])) = 2 ∧
  bson_le
    (minPrice
       (stats_overview
          (get_stats sum_left avg_left sort_by_count
             [sample_product "Laptop" (int 5); other_product])))
    (price other_product) = true.
Proof.
  destruct (stats_overview_bounds sum_left avg_left sort_by_count sort_by_count_perm
              [sample_product "Laptop" (int 5); other_product]) as (H1 & _ & H2).
  split; [exact H1|].
  destruct H2 as (_ & _ & _ & _ & H); [discriminate|].
  apply H. repeat constructor.
Defined.

Lemma stats_by_category_witness :
  total_count
    (byCategory
       (get_stats sum_left avg_left sort_by_count
          [sample_product "Laptop" (int 5); other_product])) = 2.
Proof.
  apply (stats_by_category sum_left avg_left sort_by_count sort_by_count_perm
           sort_by_count_Sorted [sample_product "Laptop" (int 5); other_product]).
Defined.


(** A partial update with a name that is too long, and a full replace of
    the category. *)
Lemma stored_products_fit_the_schema_witness :
  Forall schema_valid
    (serve hex24 lower_hex show_integer literal_RegExp sample_sort
       [PatchId 1 other_id {[ "name" := VStr long_name; "price" := VNum (int 7) ]};
        PutId 2 other_id {[ "category" := VStr "<b>Mice</b>" ]}]
       [other_product]).1.
Proof.
  apply (stored_products_fit_the_schema hex24 lower_hex show_integer literal_RegExp
           sample_sort [other_product]).
  repeat constructor.
Defined.

(** A creation with a stock of 5. *)
Lemma pre_save_hook_is_idle_witness :
  preSave (sample_product "Laptop" (int 5)) = sample_product "Laptop" (int 5).
Proof.
  apply (pre_save_hook_is_idle lower_hex show_integer sample_driver
           {[ "name" := VStr "Laptop"; "price" := VNum (int 1); "stock" := VNum (int 5) ]}
           [] (sample_product "Laptop" (int 5))).
  vm_compute. reflexivity.
Defined.

(** A request with a body and one without. *)
Lemma upstream_call_options_witness :
  Gateway.out_headers
    (Gateway.forward (params := unit) "http://backend:3000"
       {| Gateway.method := "POST"; Gateway.path := "/api/products";
          Gateway.query := tt; Gateway.body := {[ "name" := VStr "Laptop" ]};
          Gateway.headers := ∅; Gateway.ip := Some "10.0.0.1";
          Gateway.connection_remoteAddress := None;
          Gateway.socket_remoteAddress := None;
          Gateway.protocol := "http" |}) !! "Content-Type"
  = Some (Some "application/json").
Proof.
  destruct (upstream_call_options unit "http://backend:3000"
              {| Gateway.method := "POST"; Gateway.path := "/api/products";
                 Gateway.query := tt; Gateway.body := {[ "name" := VStr "Laptop" ]};
                 Gateway.headers := ∅; Gateway.ip := Some "10.0.0.1";
                 Gateway.connection_remoteAddress := None;
                 Gateway.socket_remoteAddress := None;
                 Gateway.protocol := "http" |})
    as (_ & _ & _ & _ & _ & _ & H & _).
  destruct (proj2 H) as [v Hv].
  - intros E. apply (f_equal (λ m : gmap string value, m !! "name")) in E.
    vm_compute in E. discriminate E.
  - vm_compute. reflexivity.
Defined.

(** A full replace that holds a price only, by the identifier in upper
    case. *)
Lemma updates_are_merges_witness :
  ∃ p, p ∈ [sample_product "Laptop" (int 5)] ∧ same_id lower_hex sample_id_upper p ∧
       findById lower_hex sample_id_upper [sample_product "Laptop" (int 5)] = Some p ∧
       keeps_absent {[ "price" := VNum (int 7) ]} 1 p
         {| _id := sample_id; name := "Laptop"; price := int 7;
            description := Some ""; category := Some "uncategorized";
            stock := int 5; createdAt := 0; updatedAt := 1 |}.
Proof.
  destruct (proj1 (updates_are_merges hex24 lower_hex show_integer sample_sort
                     1 sample_id_upper
                     {[ "price" := VNum (int 7) ]}
                     [sample_product "Laptop" (int 5)]
                     [{| _id := sample_id; name := "Laptop"; price := int 7;
                         description := Some ""; category := Some "uncategorized";
                         stock := int 5; createdAt := 0; updatedAt := 1 |}]
                     {| _id := sample_id; name := "Laptop"; price := int 7;
                        description := Some ""; category := Some "uncategorized";
                        stock := int 5; createdAt := 0; updatedAt := 1 |}))
    as (p & H1 & H2 & H3 & _ & H4); [vm_compute; reflexivity|].
  exists p. split; [exact H1|]. split; [exact H2|]. split; [exact H3|exact H4].
Defined.
